(** * PanicLabSim: card ring, traversal engine and Monte Carlo driver

    A shallow embedding of [card.py], [simulator.py], [parser.py] and
    [print_rankings] of [main.py].

    Python objects live in two stores.  The card objects of the sequence
    handed to [configure_neighbors] and [simulate] form the card store: a
    card is named by its position in the sequence (its handle), and the two
    neighbour attributes of a card hold handles.  The parser builds one
    object per input line, so a sequence never holds the same object twice
    and position is object identity.  [Configuration] objects are mutable
    and passed by reference, so they live in a heap of their own; an amoeba
    card holds the location of its target.

    Code is written in a state monad whose results are [Returned],
    [Raised] (a Python exception) or [OutOfFuel] (the only [while] loop of
    the program, in [_walk_to_non_vent], has no bound of its own). *)

From Stdlib Require Import ZArith Lia.
From stdpp Require Import base numbers option list sorting gmap.
From stdpp Require Import strings.

Local Open Scope Z_scope.

(** ** card.py: enumerations *)

(** [LabColor] and [AmoebaColor] both have a member [RED]; the members of
    [LabColor] carry the prefix [LAB_] here. *)
Inductive Direction := CLK_WISE | COUNTER_CLK_WISE.
Inductive LabColor := LAB_RED | LAB_GREEN | LAB_YELLOW.
Inductive AmoebaColor := RED | BLUE.
Inductive Pattern := STRIPED | DOTTY.
Inductive Eye := SINGLE | DOUBLE.

#[global] Instance Direction_eq_dec : EqDecision Direction.
Proof. solve_decision. Defined.
#[global] Instance LabColor_eq_dec : EqDecision LabColor.
Proof. solve_decision. Defined.
#[global] Instance AmoebaColor_eq_dec : EqDecision AmoebaColor.
Proof. solve_decision. Defined.
#[global] Instance Pattern_eq_dec : EqDecision Pattern.
Proof. solve_decision. Defined.
#[global] Instance Eye_eq_dec : EqDecision Eye.
Proof. solve_decision. Defined.

(** [list(cls)] of an [Enum] class: its members in declaration order. *)
Class PyEnum (A : Type) := {
  enum_eq_dec :: EqDecision A;
  members : list A
}.

#[global] Instance Direction_enum : PyEnum Direction :=
  {| members := [CLK_WISE; COUNTER_CLK_WISE] |}.
#[global] Instance LabColor_enum : PyEnum LabColor :=
  {| members := [LAB_RED; LAB_GREEN; LAB_YELLOW] |}.
#[global] Instance AmoebaColor_enum : PyEnum AmoebaColor :=
  {| members := [RED; BLUE] |}.
#[global] Instance Pattern_enum : PyEnum Pattern :=
  {| members := [STRIPED; DOTTY] |}.
#[global] Instance Eye_enum : PyEnum Eye :=
  {| members := [SINGLE; DOUBLE] |}.

(** [members.index(member)]: position of the first occurrence. *)
Definition list_index {A} `{EqDecision A} (l : list A) (x : A) : option nat :=
  fst <$> list_find (λ y, y = x) l.

(** [_rotate_enum_value]: [members[(current_index + 1) % len(members)]].
    A member always occurs in the list of its own class, so neither
    lookup fails; the fall-through branches return the argument. *)
Definition _rotate_enum_value {A} `{PyEnum A} (member : A) : A :=
  match list_index members member with
  | Some current_index =>
      match members !! ((current_index + 1) `mod` length members)%nat with
      | Some next => next
      | None => member
      end
  | None => member
  end.

(** ** card.py: Configuration *)

Record Configuration := mkConfiguration {
  color : AmoebaColor;
  pattern : Pattern;
  eye : Eye
}.

#[global] Instance Configuration_eq_dec : EqDecision Configuration.
Proof. solve_decision. Defined.

(** [Configuration.evolve]: the attribute values of [self] after the call.
    The method mutates [self] in place; [evolve_in_place] below applies
    this function to the object in the heap. *)
Definition evolve (self : Configuration)
    (evolve_color evolve_pattern evolve_eye : bool) : Configuration :=
  let self :=
    if evolve_color
    then mkConfiguration (_rotate_enum_value (color self)) (pattern self) (eye self)
    else self in
  let self :=
    if evolve_pattern
    then mkConfiguration (color self) (_rotate_enum_value (pattern self)) (eye self)
    else self in
  if evolve_eye
  then mkConfiguration (color self) (pattern self) (_rotate_enum_value (eye self))
  else self.

(** The three ways of selecting exactly one axis. *)
Inductive Axis := AxisColor | AxisPattern | AxisEye.

Definition evolve_axis (a : Axis) (c : Configuration) : Configuration :=
  match a with
  | AxisColor => evolve c true false false
  | AxisPattern => evolve c false true false
  | AxisEye => evolve c false false true
  end.

(** Number of values of an axis, and the position of the axis's current
    value in its declaration order. *)
Definition axis_size (a : Axis) : nat :=
  match a with
  | AxisColor => length (members (A:=AmoebaColor))
  | AxisPattern => length (members (A:=Pattern))
  | AxisEye => length (members (A:=Eye))
  end.

Definition axis_position (a : Axis) (c : Configuration) : option nat :=
  match a with
  | AxisColor => list_index members (color c)
  | AxisPattern => list_index members (pattern c)
  | AxisEye => list_index members (eye c)
  end.

(** ** Results of running Python code *)

Inductive exn :=
  | NoLabCards                          (* RuntimeError("No lab cards available ...") *)
  | NeighborsNotConfigured (line : Z)   (* RuntimeError("Neighbors not configured ...") *)
  | IndexError
  | KeyError
  | ZeroDivisionError
  | DanglingReference.                  (* a handle or location outside its store *)

Inductive outcome (A : Type) :=
  | Returned (a : A)
  | Raised (e : exn)
  | OutOfFuel.
Arguments Returned {A} a.
Arguments Raised {A} e.
Arguments OutOfFuel {A}.

(** State monad over a store [St]; an exception keeps the store as it was
    when it was raised. *)
Definition M (St A : Type) : Type := St → outcome A * St.

Definition ret {St A} (a : A) : M St A := λ s, (Returned a, s).
Definition raise {St A} (e : exn) : M St A := λ s, (Raised e, s).
Definition out_of_fuel {St A} : M St A := λ s, (OutOfFuel, s).
Definition bind {St A B} (m : M St A) (k : A → M St B) : M St B :=
  λ s, match m s with
       | (Returned a, s') => k a s'
       | (Raised e, s') => (Raised e, s')
       | (OutOfFuel, s') => (OutOfFuel, s')
       end.
Definition get {St} : M St St := λ s, (Returned s, s).
Definition put {St} (s : St) : M St unit := λ _, (Returned tt, s).

Notation "x <- m ;; k" := (bind m (λ x, k))
  (at level 100, m at next level, right associativity).
Notation "m ;;; k" := (bind m (λ _, k))
  (at level 100, right associativity).

(** [for x in l: body(x)] *)
Fixpoint for_each {St A} (l : list A) (body : A → M St unit) : M St unit :=
  match l with
  | [] => ret tt
  | x :: l' => body x ;;; for_each l' body
  end.

(** [enumerate(l)] *)
Definition enumerate {A} (l : list A) : list (Z * A) :=
  imap (λ i x, (Z.of_nat i, x)) l.

(** [l[k]] for a Python list, with negative indices counted from the end. *)
Definition subscript {St A} (l : list A) (k : Z) : M St A :=
  let k' := if k <? 0 then k + Z.of_nat (length l) else k in
  if 0 <=? k' then
    match l !! Z.to_nat k' with
    | Some x => ret x
    | None => raise IndexError
    end
  else raise IndexError.

(** [a % n] on Python integers. *)
Definition py_mod {St} (a n : Z) : M St Z :=
  if n =? 0 then raise ZeroDivisionError else ret (a `mod` n).

(** ** card.py: cards *)

Abbreviation handle := nat (only parsing).
Abbreviation loc := nat (only parsing).

Inductive CardKind :=
  | LabCard (lab_color : LabColor)
  | AmoebaCard (configuration : loc)
  | VentCard
  | EvolutionCard (evolve_color evolve_pattern evolve_eye : bool).

Record Card := mkCard {
  kind : CardKind;
  line_number : Z;
  _clk_wise_neighbor : option handle;
  _counter_clk_wise_neighbor : option handle
}.

#[global] Instance CardKind_eq_dec : EqDecision CardKind.
Proof. solve_decision. Defined.
#[global] Instance Card_eq_dec : EqDecision Card.
Proof. solve_decision. Defined.

(** [Card.__init__]: both neighbours start as [None]. *)
Definition new_card (k : CardKind) (line : Z) : Card := mkCard k line None None.

(** The card store: the card objects, a handle being a position. *)
Abbreviation CardStore := (list Card) (only parsing).

(** The sequence [cards] that names every object of the store once, in order. *)
Definition card_refs (cs : CardStore) : list handle := seq 0 (length cs).

Definition deref (h : handle) : M CardStore Card :=
  cs <- get ;;
  match cs !! h with
  | Some c => ret c
  | None => raise DanglingReference
  end.

(** [Card.set_neighbors] *)
Definition set_neighbors (self : handle)
    (clk_wise_neighbor counter_clk_wise_neighbor : handle) : M CardStore unit :=
  c <- deref self ;;
  cs <- get ;;
  put (<[self := mkCard (kind c) (line_number c)
                        (Some clk_wise_neighbor) (Some counter_clk_wise_neighbor)]> cs).

(** [Card.get_next] *)
Definition get_next (self : handle) (direction : Direction) : M CardStore handle :=
  c <- deref self ;;
  let neighbor :=
    if decide (direction = CLK_WISE)
    then _clk_wise_neighbor c
    else _counter_clk_wise_neighbor c in
  match neighbor with
  | None => raise (NeighborsNotConfigured (line_number c))
  | Some n => ret n
  end.

Definition is_vent_kind (k : CardKind) : bool :=
  match k with VentCard => true | _ => false end.
Definition is_lab_kind (k : CardKind) : bool :=
  match k with LabCard _ => true | _ => false end.

(** [isinstance(card, VentCard)] *)
Definition isinstance_VentCard (card : handle) : M CardStore bool :=
  c <- deref card ;; ret (is_vent_kind (kind c)).

(** ** simulator.py: the ring topology builder *)

(** The [while] loop of [_walk_to_non_vent]. *)
Fixpoint walk_loop (fuel : nat) (cards : list handle) (num_cards : Z)
    (index step : Z) : M CardStore handle :=
  match fuel with
  | O => out_of_fuel
  | S fuel' =>
      card <- subscript cards index ;;
      v <- isinstance_VentCard card ;;
      if v then
        index' <- py_mod (index + step) num_cards ;;
        walk_loop fuel' cards num_cards index' step
      else ret card
  end.

Definition _walk_to_non_vent (fuel : nat) (cards : list handle)
    (start_index step : Z) : M CardStore handle :=
  let num_cards := Z.of_nat (length cards) in
  index <- py_mod start_index num_cards ;;
  walk_loop fuel cards num_cards index step.

(** [[idx for idx, card in enumerate(cards) if isinstance(card, VentCard)]] *)
Fixpoint vent_indices_of (ics : list (Z * handle)) : M CardStore (list Z) :=
  match ics with
  | [] => ret []
  | (idx, card) :: rest =>
      v <- isinstance_VentCard card ;;
      vs <- vent_indices_of rest ;;
      ret (if v then idx :: vs else vs)
  end.

Definition _link_vents (fuel : nat) (cards : list handle) : M CardStore unit :=
  vent_indices <- vent_indices_of (enumerate cards) ;;
  if (length vent_indices <=? 1)%nat then ret tt
  else
    let num_cards := Z.of_nat (length cards) in
    let num_vents := Z.of_nat (length vent_indices) in
    for_each (enumerate vent_indices) (λ '(position, vent_idx),
      i_next <- py_mod (position + 1) num_vents ;;
      next_vent_idx <- subscript vent_indices i_next ;;
      i_prev <- py_mod (position - 1) num_vents ;;
      prev_vent_idx <- subscript vent_indices i_prev ;;
      s_clk <- py_mod (next_vent_idx + 1) num_cards ;;
      clk_neighbor <- _walk_to_non_vent fuel cards s_clk 1 ;;
      s_counter <- py_mod (prev_vent_idx - 1) num_cards ;;
      counter_neighbor <- _walk_to_non_vent fuel cards s_counter (-1) ;;
      vent <- subscript cards vent_idx ;;
      set_neighbors vent clk_neighbor counter_neighbor).

Definition configure_neighbors (fuel : nat) (cards : list handle) : M CardStore unit :=
  match cards with
  | [] => ret tt
  | _ =>
      let num_cards := Z.of_nat (length cards) in
      for_each (enumerate cards) (λ '(index, card),
        i_clk <- py_mod (index + 1) num_cards ;;
        clk <- subscript cards i_clk ;;
        i_counter <- py_mod (index - 1) num_cards ;;
        counter <- subscript cards i_counter ;;
        set_neighbors card clk counter) ;;;
      _link_vents fuel cards
  end.

(** ** simulator.py: traversal engine and Monte Carlo driver *)

Definition MAX_STEPS_PER_RUN : nat := 100.

(** Observable events of a run, recorded in call order: a draw from the
    random source (with the size of the population drawn from), a call of
    [is_matched] on a card with its answer, and the value returned by one
    call of [run_experiment].  The trace of events is no state of the
    program: no code reads it; the properties refer to it. *)
Inductive event :=
  | EvDraw (population : nat)
  | EvCheck (card : handle) (matched : bool)
  | EvTrial (matched_card : option handle).

#[global] Instance event_eq_dec : EqDecision event.
Proof. solve_decision. Defined.

Section Driver.
(** The random source is [random.Random] of the Python library: a state
    and the state transition [_randbelow(n)] behind [choice]. *)
Context {RNG : Type} (randbelow : nat → RNG → nat * RNG).

Record World := mkWorld {
  card_store : list Card;
  configs : gmap loc Configuration;
  rng : RNG;
  trace : list event
}.

(** Card methods run on the card store of the world. *)
Definition lift_cards {A} (m : M CardStore A) : M World A :=
  λ w, let '(r, cs) := m (card_store w) in
       (r, mkWorld cs (configs w) (rng w) (trace w)).

Definition emit (e : event) : M World unit :=
  λ w, (Returned tt, mkWorld (card_store w) (configs w) (rng w) (trace w ++ [e])).

(** [rng.choice(seq)]: [seq[rng._randbelow(len(seq))]], [IndexError] on
    an empty sequence. *)
Definition choice {A} (seq : list A) : M World A :=
  match seq with
  | [] => raise IndexError
  | _ =>
      w <- get ;;
      let '(i, g) := randbelow (length seq) (rng w) in
      put (mkWorld (card_store w) (configs w) g (trace w)) ;;;
      emit (EvDraw (length seq)) ;;;
      subscript seq (Z.of_nat i)
  end.

(** [Configuration(color, pattern, eye)]: a new object. *)
Definition new_Configuration (c : AmoebaColor) (p : Pattern) (e : Eye) : M World loc :=
  w <- get ;;
  let l := fresh (dom (configs w)) in
  put (mkWorld (card_store w) (<[l := mkConfiguration c p e]> (configs w))
               (rng w) (trace w)) ;;;
  ret l.

Definition read_config (l : loc) : M World Configuration :=
  w <- get ;;
  match configs w !! l with
  | Some c => ret c
  | None => raise DanglingReference
  end.

(** [Configuration.evolve] on the object at [self]. *)
Definition evolve_in_place (self : loc)
    (evolve_color evolve_pattern evolve_eye : bool) : M World unit :=
  c <- read_config self ;;
  w <- get ;;
  put (mkWorld (card_store w)
               (<[self := evolve c evolve_color evolve_pattern evolve_eye]> (configs w))
               (rng w) (trace w)).

(** [Card.is_matched], by card class. *)
Definition is_matched (self : handle) (configuration : loc) : M World bool :=
  c <- lift_cards (deref self) ;;
  match kind c with
  | LabCard _ => ret false
  | AmoebaCard target =>
      mine <- read_config target ;;
      other <- read_config configuration ;;
      ret (bool_decide (mine = other))
  | VentCard => ret false
  | EvolutionCard ec ep ee =>
      evolve_in_place configuration ec ep ee ;;;
      ret false
  end.

(** The [for _ in range(MAX_STEPS_PER_RUN)] loop of [run_experiment]. *)
Fixpoint run_steps (steps : nat) (configuration : loc) (current_card : handle)
    (direction : Direction) : M World (option handle) :=
  match steps with
  | O => ret None
  | S steps' =>
      m <- is_matched current_card configuration ;;
      emit (EvCheck current_card m) ;;;
      if m then ret (Some current_card)
      else
        next <- lift_cards (get_next current_card direction) ;;
        run_steps steps' configuration next direction
  end.

Definition run_experiment (configuration : loc) (start_lab : handle)
    (direction : Direction) : M World (option handle) :=
  run_steps MAX_STEPS_PER_RUN configuration start_lab direction.

(** [[card for card in cards if isinstance(card, LabCard)]] *)
Fixpoint lab_cards_of (cards : list handle) : M CardStore (list handle) :=
  match cards with
  | [] => ret []
  | card :: rest =>
      c <- deref card ;;
      labs <- lab_cards_of rest ;;
      ret (if is_lab_kind (kind c) then card :: labs else labs)
  end.

(** One iteration of the loop of [simulate]. *)
Definition trial (lab_cards : list handle) (points : gmap handle Z)
    : M World (gmap handle Z) :=
  c <- choice (members (A:=AmoebaColor)) ;;
  p <- choice (members (A:=Pattern)) ;;
  e <- choice (members (A:=Eye)) ;;
  random_config <- new_Configuration c p e ;;
  start_lab <- choice lab_cards ;;
  direction <- choice (members (A:=Direction)) ;;
  matched_card <- run_experiment random_config start_lab direction ;;
  emit (EvTrial matched_card) ;;;
  match matched_card with
  | Some card =>
      match points !! card with
      | Some n => ret (<[card := n + 1]> points)
      | None => raise KeyError
      end
  | None => ret points
  end.

(** [for _ in range(experiments)] *)
Fixpoint trials (n : nat) (lab_cards : list handle) (points : gmap handle Z)
    : M World (gmap handle Z) :=
  match n with
  | O => ret points
  | S n' =>
      points' <- trial lab_cards points ;;
      trials n' lab_cards points'
  end.

Definition simulate (cards : list handle) (experiments : Z)
    : M World (gmap handle Z) :=
  lab_cards <- lift_cards (lab_cards_of cards) ;;
  match lab_cards with
  | [] => raise NoLabCards
  | _ =>
      let points : gmap handle Z := list_to_map ((λ card, (card, 0)) <$> cards) in
      trials (Z.to_nat experiments) lab_cards points
  end.
End Driver.

Arguments World : clear implicits.
Arguments mkWorld {RNG}.

(** ** Quantities the properties are stated with *)

(** [sum(points.values())] *)
Definition sum_counts (points : gmap handle Z) : Z :=
  map_fold (λ _ n acc, n + acc) 0 points.

(** Values other than the selected axis, for stating what a single-axis
    [evolve] leaves alone. *)
Definition other_axes_equal (a : Axis) (c c' : Configuration) : Prop :=
  match a with
  | AxisColor => pattern c' = pattern c ∧ eye c' = eye c
  | AxisPattern => color c' = color c ∧ eye c' = eye c
  | AxisEye => color c' = color c ∧ pattern c' = pattern c
  end.

(** Whether the card named by [h] is a vent card (no card: no). *)
Definition vent_at (cs : CardStore) (h : handle) : bool :=
  match cs !! h with
  | Some c => is_vent_kind (kind c)
  | None => false
  end.

(** The list V: the positions of the vent cards. *)
Definition vent_indices (cs : CardStore) : list Z :=
  Z.of_nat <$> filter (λ i, vent_at cs i = true) (seq 0 (length cs)).

(** The card at ring position [i], positions being taken modulo the
    number of cards. *)
Definition ring_index (cs : CardStore) (i : Z) : handle :=
  Z.to_nat (i `mod` Z.of_nat (length cs)).

(** [h] is the first card that is not a vent among the ring positions
    [start], [start + step], [start + 2 * step], ... *)
Definition first_non_vent (cs : CardStore) (start step : Z) (h : handle) : Prop :=
  ∃ k : nat,
    h = ring_index cs (start + step * Z.of_nat k) ∧
    vent_at cs h = false ∧
    ∀ j : nat, (j < k)%nat →
      vent_at cs (ring_index cs (start + step * Z.of_nat j)) = true.

(** The neighbours of the card at position [i] are those of the plain
    ring: [(i + 1) mod n] clockwise, [(i - 1) mod n] counter-clockwise. *)
Definition base_neighbors (cs : CardStore) (i : nat) (c : Card) : Prop :=
  _clk_wise_neighbor c = Some (ring_index cs (Z.of_nat i + 1)) ∧
  _counter_clk_wise_neighbor c = Some (ring_index cs (Z.of_nat i - 1)).

(** Two stores hold the same cards up to their neighbour attributes. *)
Definition same_payload (cs cs' : CardStore) : Prop :=
  length cs' = length cs ∧
  ∀ i c, cs !! i = Some c →
    ∃ c', cs' !! i = Some c' ∧ kind c' = kind c ∧ line_number c' = line_number c.

(** The card at position [i] once the first loop of
    [configure_neighbors] has passed over it. *)
Definition wire_base (cs : CardStore) (i : nat) (c : Card) : Card :=
  mkCard (kind c) (line_number c)
         (Some (ring_index cs (Z.of_nat i + 1)))
         (Some (ring_index cs (Z.of_nat i - 1))).

(** The vent at position [p] of V has been rerouted in [cs']: its
    clockwise neighbour is the first non-vent card clockwise from the
    position after the next vent of V, its counter-clockwise neighbour the
    first non-vent card counter-clockwise from the position before the
    previous vent of V (V being read cyclically). *)
Definition vent_rerouted (cs cs' : CardStore) (p : nat) : Prop :=
  let V := vent_indices cs in
  let m := Z.of_nat (length V) in
  ∃ (v next_vent prev_vent : Z) (c : Card) (clk counter : handle),
    V !! p = Some v ∧
    V !! Z.to_nat ((Z.of_nat p + 1) `mod` m) = Some next_vent ∧
    V !! Z.to_nat ((Z.of_nat p - 1) `mod` m) = Some prev_vent ∧
    cs' !! Z.to_nat v = Some c ∧
    _clk_wise_neighbor c = Some clk ∧
    _counter_clk_wise_neighbor c = Some counter ∧
    first_non_vent cs (next_vent + 1) 1 clk ∧
    first_non_vent cs (prev_vent - 1) (-1) counter.

(** Some card of the store is not a vent. *)
Definition has_non_vent (cs : CardStore) : Prop :=
  ∃ h, (h < length cs)%nat ∧ vent_at cs h = false.

(** What the loop of [_link_vents] has done to the store [s0] once the
    first [k] vents of V are processed. *)
Definition link_progress (cs s0 : list Card) (k : nat) (s : list Card) : Prop :=
  same_payload cs s ∧
  (∀ p, (p < k)%nat → (p < length (vent_indices cs))%nat → vent_rerouted cs s p) ∧
  (∀ i, (∀ p, (p < k)%nat → vent_indices cs !! p ≠ Some (Z.of_nat i)) →
        s !! i = s0 !! i).

(** Whether the card named by [h] is a lab card (no card: no). *)
Definition lab_at (cs : CardStore) (h : handle) : bool :=
  match cs !! h with
  | Some c => is_lab_kind (kind c)
  | None => false
  end.

(** The lab cards of the store, in order. *)
Definition lab_handles (cs : CardStore) : list handle :=
  filter (λ h, lab_at cs h = true) (seq 0 (length cs)).

(** The neighbour attribute that [get_next] reads. *)
Definition neighbor (cs : CardStore) (direction : Direction) (h : handle)
    : option handle :=
  c ← cs !! h;
  if decide (direction = CLK_WISE)
  then _clk_wise_neighbor c
  else _counter_clk_wise_neighbor c.

(** Every card has both neighbours set, to cards of the store. *)
Definition fully_wired (cs : CardStore) : Prop :=
  ∀ h c, cs !! h = Some c →
    ∃ a b, _clk_wise_neighbor c = Some a ∧ _counter_clk_wise_neighbor c = Some b ∧
           (a < length cs)%nat ∧ (b < length cs)%nat.

(** Every amoeba card refers to a [Configuration] object of the heap [cf]. *)
Definition targets_allocated (cs : CardStore) (cf : gmap loc Configuration) : Prop :=
  ∀ h c t, cs !! h = Some c → kind c = AmoebaCard t → is_Some (cf !! t).

(** [l] is the target of some amoeba card. *)
Definition is_target (cs : CardStore) (l : loc) : Prop :=
  ∃ h c, cs !! h = Some c ∧ kind c = AmoebaCard l.

(** The values returned by the calls of [run_experiment] in a trace, and
    the populations of its draws. *)
Fixpoint trial_results (tr : list event) : list (option handle) :=
  match tr with
  | [] => []
  | EvTrial r :: tr' => r :: trial_results tr'
  | _ :: tr' => trial_results tr'
  end.

Fixpoint draw_populations (tr : list event) : list nat :=
  match tr with
  | [] => []
  | EvDraw n :: tr' => n :: draw_populations tr'
  | _ :: tr' => draw_populations tr'
  end.

(** Number of trials that returned a matched card. *)
Definition matched_count (results : list (option handle)) : Z :=
  Z.of_nat (length (filter is_Some results)).

(** The checks of one traversal, from card [h] on: each card that does not
    match is followed by its neighbour in the direction of travel; the
    traversal ends on the first card that matches, or with no card. *)
Inductive walk_log (cs : CardStore) (direction : Direction)
    : handle → list event → option handle → Prop :=
  | walk_log_match h :
      walk_log cs direction h [EvCheck h true] (Some h)
  | walk_log_next h h' checks r :
      neighbor cs direction h = Some h' →
      walk_log cs direction h' checks r →
      walk_log cs direction h (EvCheck h false :: checks) r
  | walk_log_none h :
      walk_log cs direction h [] None.

(** What a traversal that walks the configuration at [cfg] may change:
    the object at [cfg], and nothing else but the trace. *)
Definition touches_only {RNG} (cfg : loc) (w w' : World RNG) : Prop :=
  card_store w' = card_store w ∧
  rng w' = rng w ∧
  dom (configs w') = dom (configs w) ∧
  ∀ l, l ≠ cfg → configs w' !! l = configs w !! l.

(** Events of a traversal: calls of [is_matched]. *)
Definition is_check (e : event) : Prop :=
  match e with EvCheck _ _ => True | _ => False end.

(** What a run of the driver leaves alone: the card objects, and every
    [Configuration] object that existed before the run. *)
Definition objects_kept {RNG} (w w' : World RNG) : Prop :=
  card_store w' = card_store w ∧
  dom (configs w) ⊆ dom (configs w') ∧
  ∀ l, l ∈ dom (configs w) → configs w' !! l = configs w !! l.

(** The draws of one trial as the specification lists them: a colour, a
    pattern, an eye value, a lab card among [lab_cards], a direction, each
    [_randbelow] call starting from the state the previous one left.
    Returns the five indices drawn and the final state of the source. *)
Definition trial_draws {RNG} (randbelow : nat → RNG → nat * RNG)
    (lab_cards : list handle) (g : RNG) : (nat * nat * nat * nat * nat) * RNG :=
  let '(i_color, g) := randbelow (length (members (A:=AmoebaColor))) g in
  let '(i_pattern, g) := randbelow (length (members (A:=Pattern))) g in
  let '(i_eye, g) := randbelow (length (members (A:=Eye))) g in
  let '(i_lab, g) := randbelow (length lab_cards) g in
  let '(i_direction, g) := randbelow (length (members (A:=Direction))) g in
  ((i_color, i_pattern, i_eye, i_lab, i_direction), g).

(** The events of the draws of one trial. *)
Definition trial_draw_events (lab_cards : list handle) : list event :=
  [EvDraw 2; EvDraw 2; EvDraw 2; EvDraw (length lab_cards); EvDraw 2].

(** [points[card] += 1] when a card matched. *)
Definition tally (points : gmap handle Z) (matched_card : option handle)
    : option (gmap handle Z) :=
  match matched_card with
  | Some card => n ← points !! card; Some (<[card := n + 1]> points)
  | None => Some points
  end.

(** Two worlds in which the same run is started: the same cards, random
    sources in the same state, heaps that agree on the targets of the
    amoeba cards (whatever else they hold), and traces that have grown by
    the same events since they were [pre1] and [pre2]. *)
Definition worlds_agree {RNG} (pre1 pre2 : list event) (w1 w2 : World RNG) : Prop :=
  card_store w1 = card_store w2 ∧
  rng w1 = rng w2 ∧
  targets_allocated (card_store w1) (configs w1) ∧
  targets_allocated (card_store w2) (configs w2) ∧
  (∀ l, is_target (card_store w1) l → configs w1 !! l = configs w2 !! l) ∧
  ∃ t, trace w1 = pre1 ++ t ∧ trace w2 = pre2 ++ t.

(** The same, during a traversal: the two walked configurations, at [l1]
    and [l2], hold the same values and are no card's target. *)
Definition travel_agree {RNG} (pre1 pre2 : list event) (l1 l2 : loc)
    (w1 w2 : World RNG) : Prop :=
  worlds_agree pre1 pre2 w1 w2 ∧
  ¬ is_target (card_store w1) l1 ∧
  ¬ is_target (card_store w1) l2 ∧
  configs w1 !! l1 = configs w2 !! l2.

(** Two results of the same kind: values and worlds related by [Q] when
    both returned, the same exception in worlds related by [E] when both
    raised. *)
Definition outcomes_agree {RNG A}
    (Q : A → World RNG → A → World RNG → Prop)
    (E : World RNG → World RNG → Prop)
    (x1 x2 : outcome A * World RNG) : Prop :=
  match x1, x2 with
  | (Returned a1, w1), (Returned a2, w2) => Q a1 w1 a2 w2
  | (Raised e1, w1), (Raised e2, w2) => e1 = e2 ∧ E w1 w2
  | (OutOfFuel, w1), (OutOfFuel, w2) => E w1 w2
  | _, _ => False
  end.

(** ** Sample rings *)

(** A plain ring with one vent: lab, vent, amoeba (target at location 0),
    evolution of the colour axis. *)
Definition ring_one_vent : CardStore :=
  [ new_card (LabCard LAB_RED) 1;
    new_card VentCard 2;
    new_card (AmoebaCard 0) 3;
    new_card (EvolutionCard true false false) 4 ].

(** A ring with two vents. *)
Definition ring_two_vents : CardStore :=
  [ new_card (LabCard LAB_RED) 1;
    new_card VentCard 2;
    new_card (AmoebaCard 0) 3;
    new_card VentCard 4;
    new_card (EvolutionCard true false false) 5 ].

(** A ring made of two vents only. *)
Definition ring_only_vents : CardStore :=
  [ new_card VentCard 1; new_card VentCard 2 ].

(** A wired ring: the plain ring of [ring_one_vent] as the topology
    builder leaves it. *)
Definition ring_one_vent_wired : CardStore :=
  (configure_neighbors 0 (card_refs ring_one_vent) ring_one_vent).2.

(** A small linear congruential generator standing for [random.Random]. *)
Definition lcg_randbelow (n : nat) (g : Z) : nat * Z :=
  let g' := (g * 1103515245 + 12345) `mod` 2147483648 in
  (Z.to_nat ((g' `div` 65536) `mod` Z.of_nat n), g').

(** A world ready for [simulate]: the wired ring, the target of its amoeba
    card at location 0, a seeded generator, an empty trace. *)
Definition sample_world : World Z :=
  mkWorld ring_one_vent_wired {[ 0%nat := mkConfiguration BLUE DOTTY SINGLE ]} 42 [].

(** A world whose cards hold no lab card to start from. *)
Definition no_lab_world : World Z :=
  mkWorld [ new_card VentCard 1; new_card (AmoebaCard 0) 2 ]
          {[ 0%nat := mkConfiguration BLUE DOTTY SINGLE ]} 42 [].

(** [sample_world] later in the life of the process: more objects in the
    heap, a trace that is not empty, the generator seeded as before. *)
Definition sample_world_later : World Z :=
  mkWorld ring_one_vent_wired
          {[ 0%nat := mkConfiguration BLUE DOTTY SINGLE;
             5%nat := mkConfiguration RED STRIPED DOUBLE ]}
          42 [EvDraw 7].

(** A world in which a configuration to walk, at location 1, exists. *)
Definition walking_world : World Z :=
  mkWorld ring_one_vent_wired
          {[ 0%nat := mkConfiguration BLUE DOTTY SINGLE;
             1%nat := mkConfiguration RED DOTTY SINGLE ]}
          42 [].

(** The value of a run that returned. *)
Definition returned_value {A} (d : A) (o : outcome A) : A :=
  match o with Returned a => a | _ => d end.

(** ** Quantities of the further properties *)

(** The ring [s] is what the topology builder makes of the cards [cs]:
    the cards of [cs] with the neighbours of the plain ring, except that,
    with two or more vents, every vent is rerouted. *)
Definition wired_as (cs s : CardStore) : Prop :=
  same_payload cs s ∧
  (∀ i c, cs !! i = Some c →
     ((length (vent_indices cs) ≤ 1)%nat ∨ Z.of_nat i ∉ vent_indices cs) →
     s !! i = Some (wire_base cs i c)) ∧
  ((2 ≤ length (vent_indices cs))%nat →
     ∀ p, (p < length (vent_indices cs))%nat → vent_rerouted cs s p).

(** [_randbelow(n)] answers below [n], as the library promises. *)
Definition in_range {RNG} (randbelow : nat → RNG → nat * RNG) : Prop :=
  ∀ n g, (0 < n)%nat → ((randbelow n g).1 < n)%nat.

(** Number of [is_matched] calls in a trace. *)
Fixpoint check_count (tr : list event) : nat :=
  match tr with
  | [] => 0
  | EvCheck _ _ :: tr' => S (check_count tr')
  | _ :: tr' => check_count tr'
  end.

(** The mapping [points] of a run over the cards [cs]: one entry per
    card, no count negative, and only amoeba cards with a count above 0. *)
Definition scores_of (cs : CardStore) (points : gmap handle Z) : Prop :=
  (∀ h, (h < length cs)%nat → ∃ n, points !! h = Some n ∧ 0 ≤ n) ∧
  (∀ h, (length cs ≤ h)%nat → points !! h = None) ∧
  (∀ h c, cs !! h = Some c → (∀ t, kind c ≠ AmoebaCard t) → points !! h = Some 0).

(** No card has a neighbour yet: the cards as [Card.__init__] leaves them. *)
Definition unwired (cs : CardStore) : Prop :=
  ∀ h c, cs !! h = Some c →
    _clk_wise_neighbor c = None ∧ _counter_clk_wise_neighbor c = None.

(** The cards of [ring_one_vent] before the topology builder has run. *)
Definition unwired_world : World Z :=
  mkWorld ring_one_vent {[ 0%nat := mkConfiguration BLUE DOTTY SINGLE ]} 42 [].

(** The cards of [ring_two_vents] with neighbours left over from elsewhere. *)
Definition ring_two_vents_relinked : CardStore :=
  (λ c, mkCard (kind c) (line_number c) (Some 0%nat) None) <$> ring_two_vents.

(** ** parser.py *)

(** A Python [str]: its code points.  [pystr] reads a string literal of
    the source, which are all ASCII. *)
Abbreviation str := (list N) (only parsing).

Definition pystr (s : string) : str :=
  Ascii.N_of_ascii <$> String.list_ascii_of_string s.

Definition LAB_COLOR_MAP : gmap str LabColor :=
  list_to_map [ (pystr "red", LAB_RED); (pystr "green", LAB_GREEN);
                (pystr "yellow", LAB_YELLOW) ].
Definition AMOEBA_COLOR_MAP : gmap str AmoebaColor :=
  list_to_map [ (pystr "red", RED); (pystr "blue", BLUE) ].
Definition PATTERN_MAP : gmap str Pattern :=
  list_to_map [ (pystr "strip", STRIPED); (pystr "striped", STRIPED);
                (pystr "dot", DOTTY); (pystr "dotty", DOTTY) ].
Definition EYE_MAP : gmap str Eye :=
  list_to_map [ (pystr "single", SINGLE); (pystr "1", SINGLE);
                (pystr "double", DOUBLE); (pystr "2", DOUBLE) ].

(** [warnings.warn(...)]: the message, as the data its text is built from. *)
Inductive warning :=
  | UnknownCardType (line_number : Z) (stripped_line : str)
  | LabMissingColor (line_number : Z)
  | UnsupportedLabColor (line_number : Z) (token : str)
  | AmoebaIncomplete (line_number : Z)
  | InvalidAmoeba (line_number : Z) (tokens : list str)
  | EvolutionMissingPayload (line_number : Z)
  | EvolutionWithoutModifiers (line_number : Z).

(** What parsing changes: the heap in which the [Configuration] objects of
    amoeba cards are made, and the warnings issued so far. *)
Record ParseState := mkParseState {
  ps_configs : gmap loc Configuration;
  ps_warnings : list warning
}.

Definition warn (msg : warning) : M ParseState unit :=
  λ s, (Returned tt, mkParseState (ps_configs s) (ps_warnings s ++ [msg])).

(** [Configuration(color, pattern, eye)] while parsing. *)
Definition parse_new_Configuration (c : AmoebaColor) (p : Pattern) (e : Eye)
    : M ParseState loc :=
  λ s, let l := fresh (dom (ps_configs s)) in
       (Returned l,
        mkParseState (<[l := mkConfiguration c p e]> (ps_configs s)) (ps_warnings s)).

(** [s.split("#", 1)[0]] *)
Fixpoint before_hash (s : str) : str :=
  match s with
  | [] => []
  | c :: s' => if decide (c = 35%N) then [] else c :: before_hash s'
  end.

(** [" ".join(tokens)] *)
Fixpoint join_space (tokens : list str) : str :=
  match tokens with
  | [] => []
  | [t] => t
  | t :: ts => t ++ 32%N :: join_space ts
  end.

(** The maximal runs of characters that are not separators: what
    [s.split()] returns for whitespace, and what is left of
    [re.split(sep+, s)] once the empty pieces are dropped. *)
Fixpoint tokens_by (sep : N → bool) (s : str) : list str :=
  match s with
  | [] => []
  | c :: s' =>
      if sep c then tokens_by sep s'
      else
        match s' with
        | c' :: _ =>
            if sep c' then [c] :: tokens_by sep s'
            else
              match tokens_by sep s' with
              | t :: ts => (c :: t) :: ts
              | [] => [[c]]
              end
        | [] => [[c]]
        end
  end.

Fixpoint lstrip_by (sep : N → bool) (s : str) : str :=
  match s with
  | [] => []
  | c :: s' => if sep c then lstrip_by sep s' else s
  end.

Section Parser.
(** [str.isspace] of one character (also what [\s] matches in a pattern on
    [str]) and [str.lower] are the Python library's. *)
Context (isspace : N → bool) (lower : str → str).

(** [s.strip()] *)
Definition strip (s : str) : str :=
  reverse (lstrip_by isspace (reverse (lstrip_by isspace s))).

(** [s.split()] *)
Definition split (s : str) : list str := tokens_by isspace s.

(** The character class [[+\s|/,_-]] of [_tokenize_features]. *)
Definition feature_separator (c : N) : bool :=
  bool_decide (c ∈ [43; 124; 47; 44; 95; 45]%N) || isspace c.

(** [_tokenize_features]: the non-empty pieces, as a list for the set. *)
Definition _tokenize_features (blob : str) : list str :=
  tokens_by feature_separator blob.

Definition _parse_lab (tokens : list str) (line_number : Z)
    : M ParseState (option Card) :=
  match tokens with
  | [] => warn (LabMissingColor line_number) ;;; ret None
  | token :: _ =>
      match LAB_COLOR_MAP !! lower token with
      | None => warn (UnsupportedLabColor line_number token) ;;; ret None
      | Some color => ret (Some (new_card (LabCard color) line_number))
      end
  end.

Definition _parse_amoeba (tokens : list str) (line_number : Z)
    : M ParseState (option Card) :=
  match tokens with
  | t0 :: t1 :: t2 :: _ =>
      let color := AMOEBA_COLOR_MAP !! lower t0 in
      let pattern := PATTERN_MAP !! lower t1 in
      let eye := EYE_MAP !! lower t2 in
      match color, pattern, eye with
      | Some color, Some pattern, Some eye =>
          configuration <- parse_new_Configuration color pattern eye ;;
          ret (Some (new_card (AmoebaCard configuration) line_number))
      | _, _, _ => warn (InvalidAmoeba line_number (take 3 tokens)) ;;; ret None
      end
  | _ => warn (AmoebaIncomplete line_number) ;;; ret None
  end.

Definition _parse_evolution (tokens : list str) (line_number : Z)
    : M ParseState (option Card) :=
  match tokens with
  | [] => warn (EvolutionMissingPayload line_number) ;;; ret None
  | _ =>
      let feature_blob := lower (join_space tokens) in
      let feature_tokens := _tokenize_features feature_blob in
      let evolve_color := bool_decide (pystr "color" ∈ feature_tokens) in
      let evolve_pattern := bool_decide (pystr "pattern" ∈ feature_tokens) in
      let evolve_eye := bool_decide (pystr "eye" ∈ feature_tokens) in
      if negb (evolve_color || evolve_pattern || evolve_eye) then
        warn (EvolutionWithoutModifiers line_number) ;;; ret None
      else
        ret (Some (new_card (EvolutionCard evolve_color evolve_pattern evolve_eye)
                            line_number))
  end.

Definition parse_line (line : str) (line_number : Z) : M ParseState (option Card) :=
  let sanitized := strip (before_hash line) in
  match sanitized with
  | [] => ret None
  | _ =>
      let parts := split sanitized in
      first <- subscript parts 0 ;;
      let card_type := lower first in
      let payload := drop 1 parts in
      if decide (card_type = pystr "vent") then
        ret (Some (new_card VentCard line_number))
      else if decide (card_type = pystr "lab") then
        _parse_lab payload line_number
      else if decide (card_type = pystr "amoeba") then
        _parse_amoeba payload line_number
      else if decide (card_type = pystr "evolution") then
        _parse_evolution payload line_number
      else
        warn (UnknownCardType line_number (strip line)) ;;; ret None
  end.

(** The loop of [parse_file] over the lines of the file, numbered from
    [line_number] on. *)
Fixpoint parse_lines (lines : list str) (line_number : Z) (cards : list Card)
    : M ParseState (list Card) :=
  match lines with
  | [] => ret cards
  | raw_line :: rest =>
      card <- parse_line raw_line line_number ;;
      let cards :=
        match card with
        | Some card => cards ++ [card]
        | None => cards
        end in
      parse_lines rest (line_number + 1) cards
  end.

(** [parse_file], given the lines the file iterates over. *)
Definition parse_file (lines : list str) : M ParseState (list Card) :=
  parse_lines lines 1 [].
End Parser.

(** [str.isspace] and [str.lower] on ASCII text, for running the parser. *)
Definition ascii_isspace (c : N) : bool :=
  bool_decide (c ∈ [9; 10; 11; 12; 13; 28; 29; 30; 31; 32]%N).
Definition ascii_lower (s : str) : str :=
  (λ c, if (65 <=? c)%N && (c <=? 90)%N then (c + 32)%N else c) <$> s.

(** The line a warning is about. *)
Definition warning_line (w : warning) : Z :=
  match w with
  | UnknownCardType n _ | LabMissingColor n | UnsupportedLabColor n _
  | AmoebaIncomplete n | InvalidAmoeba n _ | EvolutionMissingPayload n
  | EvolutionWithoutModifiers n => n
  end.

(** The numbers of the lines that have text left once the comment and the
    surrounding whitespace are taken away, the first line having number [n]. *)
Fixpoint content_lines (isspace : N → bool) (lines : list str) (n : Z) : list Z :=
  match lines with
  | [] => []
  | line :: rest =>
      if decide (strip isspace (before_hash line) = [])
      then content_lines isspace rest (n + 1)
      else n :: content_lines isspace rest (n + 1)
  end.

(** The [Configuration] objects the amoeba cards of a list refer to. *)
Definition amoeba_targets (cards : list Card) : list loc :=
  omap (λ c, match kind c with AmoebaCard t => Some t | _ => None end) cards.

(** What one line with content does: a card with that line number and no
    neighbours, its [Configuration] new if it is an amoeba card, and one
    flag set if it is an evolution card; or no card and one warning about
    that line. *)
Definition line_outcome (n : Z) (s : ParseState) (r : option Card)
    (s' : ParseState) : Prop :=
  match r with
  | Some c =>
      line_number c = n ∧
      _clk_wise_neighbor c = None ∧ _counter_clk_wise_neighbor c = None ∧
      ps_warnings s' = ps_warnings s ∧
      match kind c with
      | AmoebaCard t =>
          ps_configs s !! t = None ∧
          ∃ cfg, ps_configs s' = <[t := cfg]> (ps_configs s)
      | EvolutionCard a b e =>
          a || b || e = true ∧ ps_configs s' = ps_configs s
      | _ => ps_configs s' = ps_configs s
      end
  | None =>
      ps_configs s' = ps_configs s ∧
      ∃ w, ps_warnings s' = ps_warnings s ++ [w] ∧ warning_line w = n
  end.

(** What the loop of [parse_file] has added after the lines [lines],
    numbered from [n]: the cards [new] and the state [s'] from [s]. *)
Definition parse_result (isspace : N → bool) (lines : list str) (n : Z)
    (s : ParseState) (new : list Card) (s' : ParseState) : Prop :=
  (∃ ws, ps_warnings s' = ps_warnings s ++ ws ∧
         (line_number <$> new) ++ (warning_line <$> ws)
         ≡ₚ content_lines isspace lines n) ∧
  unwired new ∧
  StronglySorted Z.lt (line_number <$> new) ∧
  Forall (λ c, n ≤ line_number c < n + Z.of_nat (length lines)) new ∧
  ps_configs s ⊆ ps_configs s' ∧
  NoDup (amoeba_targets new) ∧
  (∀ t, t ∈ dom (ps_configs s') ↔
        t ∈ dom (ps_configs s) ∨ t ∈ amoeba_targets new) ∧
  (∀ t, t ∈ amoeba_targets new → t ∉ dom (ps_configs s)) ∧
  Forall (λ c, ∀ a b e, kind c = EvolutionCard a b e → a || b || e = true) new.

(** A small input file, as the lines Python reads from it. *)
Definition sample_lines : list str :=
  [ pystr "# a ring of five cards";
    pystr "Lab RED   # start here";
    pystr "";
    pystr "amoeba blue dotty 1";
    pystr "vent";
    pystr "evolution color+eye";
    pystr "teleporter";
    pystr "amoeba red" ].

(** ** main.py: print_rankings *)

(** A line written by [print]: the two fixed lines, and the line of one
    card, as the values its text is formatted from (the card, for its line
    number and its description, and the two integers whose quotient is the
    win chance). *)
Inductive printed :=
  | NoCardsMatched                                  (* "No cards were matched in any experiment." *)
  | ResultsHeader                                   (* "\n--- Experiment Results ---" *)
  | WinChance (card : handle) (count total_points : Z).

Definition print (line : printed) : M (list printed) unit :=
  λ out, (Returned tt, out ++ [line]).

(** The dict [points] as Python keeps it: its items in insertion order.
    [sum(points.values())]: *)
Definition sum_values (points : list (handle * Z)) : Z :=
  foldr Z.add 0 (snd <$> points).

Definition is_amoeba_kind (k : CardKind) : bool :=
  match k with AmoebaCard _ => true | _ => false end.

(** [[card for card in points if isinstance(card, AmoebaCard)]], every
    card with [points[card]]; [cs] is the card store the keys refer to. *)
Fixpoint amoeba_cards_of (cs : CardStore) (points : list (handle * Z))
    : M (list printed) (list (handle * Z)) :=
  match points with
  | [] => ret []
  | (card, count) :: rest =>
      match cs !! card with
      | None => raise DanglingReference
      | Some c =>
          amoebas <- amoeba_cards_of cs rest ;;
          ret (if is_amoeba_kind (kind c) then (card, count) :: amoebas else amoebas)
      end
  end.

(** [amoeba_cards.sort(key=lambda card: points[card], reverse=True)]:
    Python's sort is stable, also when reversed, so the result is the one
    ordering by falling count in which equal counts keep their order. *)
Fixpoint insert_by_count (x : handle * Z) (l : list (handle * Z))
    : list (handle * Z) :=
  match l with
  | [] => [x]
  | y :: l' => if x.2 <? y.2 then y :: insert_by_count x l' else x :: l
  end.
Definition sort_by_count_reversed (l : list (handle * Z)) : list (handle * Z) :=
  foldr insert_by_count [] l.

Definition print_rankings (cs : CardStore) (points : list (handle * Z))
    : M (list printed) bool :=
  let total_points := sum_values points in
  if total_points =? 0 then
    print NoCardsMatched ;;;
    ret false
  else
    print ResultsHeader ;;;
    amoeba_cards <- amoeba_cards_of cs points ;;
    let amoeba_cards := sort_by_count_reversed amoeba_cards in
    for_each amoeba_cards (λ '(card, count),
      if count =? 0 then ret tt
      else print (WinChance card count total_points)) ;;;
    ret true.

(** The items of the dict that [simulate] returns, in the order Python
    keeps them: the order of [cards], in which the keys were inserted. *)
Definition dict_items (cards : list handle) (points : gmap handle Z)
    : list (handle * Z) :=
  omap (λ card, (λ n, (card, n)) <$> points !! card) cards.

(** Whether the card named by [h] is an amoeba card (no card: no). *)
Definition amoeba_at (cs : CardStore) (h : handle) : bool :=
  match cs !! h with
  | Some c => is_amoeba_kind (kind c)
  | None => false
  end.

(** Falling counts. *)
Definition count_ge (a b : handle * Z) : Prop := b.2 ≤ a.2.

(** The cards a ranking printed by [print_rankings] must list: the
    amoeba cards of [points] with a count other than 0. *)
Definition ranked_cards (cs : CardStore) (points : list (handle * Z))
    : list (handle * Z) :=
  filter (λ p, amoeba_at cs p.1 = true ∧ p.2 ≠ 0) points.

(** A ring with three amoeba cards, and counts for its cards. *)
Definition ring_three_amoebas : CardStore :=
  [ new_card (LabCard LAB_GREEN) 1;
    new_card (AmoebaCard 0) 2;
    new_card (AmoebaCard 1) 3;
    new_card (EvolutionCard false true false) 4;
    new_card (AmoebaCard 2) 5;
    new_card (AmoebaCard 3) 6 ].
Definition sample_points : list (handle * Z) :=
  [ (0%nat, 0); (1%nat, 2); (2%nat, 5); (3%nat, 0); (4%nat, 2); (5%nat, 0) ].

(** ** The traversal and the driver in the words of the specification *)

(** Specification 4.2, the check of one card against the configuration
    [c]: lab and vent cards never match, an amoeba card matches when its
    target (in the heap [cf]) equals [c], an evolution card never matches. *)
Definition card_matches (cs : CardStore) (cf : gmap loc Configuration)
    (h : handle) (c : Configuration) : bool :=
  match cs !! h with
  | Some card =>
      match kind card with
      | AmoebaCard t => bool_decide (cf !! t = Some c)
      | _ => false
      end
  | None => false
  end.

(** Specification 4.2, what the visit of a card does to the configuration:
    an evolution card rotates the axes it selects, every other card leaves
    the configuration as it is. *)
Definition card_mutates (cs : CardStore) (h : handle) (c : Configuration)
    : Configuration :=
  match cs !! h with
  | Some card =>
      match kind card with
      | EvolutionCard ec ep ee => evolve c ec ep ee
      | _ => c
      end
  | None => c
  end.

(** Specification 4.2, [traverse] with a budget of [steps] checks: check
    the current card; if it matches, return it; otherwise move to its
    neighbour in the direction of travel and continue; with the budget
    used up, return no card.  The result is the list of checks made (the
    card and the answer, in order), the card returned, and the
    configuration as the visits have left it. *)
Fixpoint traverse_spec (cs : CardStore) (cf : gmap loc Configuration)
    (direction : Direction) (steps : nat) (current : handle) (c : Configuration)
    : list event * option handle * Configuration :=
  match steps with
  | O => ([], None, c)
  | S steps' =>
      if card_matches cs cf current c then ([EvCheck current true], Some current, c)
      else
        match neighbor cs direction current with
        | Some next =>
            let '(checks, r, c') :=
              traverse_spec cs cf direction steps' next (card_mutates cs current c) in
            (EvCheck current false :: checks, r, c')
        | None => ([EvCheck current false], None, card_mutates cs current c)
        end
  end.

(** The events of one trial: its five draws, the checks of its traversal,
    its result. *)
Definition trial_events (lab_cards : list handle)
    (t : list event * option handle) : list event :=
  trial_draw_events lab_cards ++ t.1 ++ [EvTrial t.2].

(** Specification 4.3, one trial from the state [g] of the random source:
    the five draws in their fixed order, then [traverse] from the lab card
    drawn, in the direction drawn, with the configuration drawn.  The
    result is the checks and the card returned ([None] where an index
    selects nothing), and the state of the source after the draws. *)
Definition trial_spec {RNG} (randbelow : nat → RNG → nat * RNG)
    (cs : CardStore) (cf : gmap loc Configuration) (lab_cards : list handle)
    (g : RNG) : option (list event * option handle) * RNG :=
  let '((i_color, i_pattern, i_eye, i_lab, i_direction), g') :=
    trial_draws randbelow lab_cards g in
  (c ← members !! i_color;
   p ← members !! i_pattern;
   e ← members !! i_eye;
   lab ← lab_cards !! i_lab;
   d ← members !! i_direction;
   Some (traverse_spec cs cf d MAX_STEPS_PER_RUN lab (mkConfiguration c p e)).1,
   g').

(** Specification 4.3, [n] trials one after the other, each starting from
    the state of the random source the one before has left. *)
Fixpoint trials_spec {RNG} (randbelow : nat → RNG → nat * RNG)
    (cs : CardStore) (cf : gmap loc Configuration) (lab_cards : list handle)
    (n : nat) (g : RNG) : option (list (list event * option handle)) * RNG :=
  match n with
  | O => (Some [], g)
  | S n' =>
      match trial_spec randbelow cs cf lab_cards g with
      | (Some t, g') =>
          match trials_spec randbelow cs cf lab_cards n' g' with
          | (Some ts, g'') => (Some (t :: ts), g'')
          | (None, g'') => (None, g'')
          end
      | (None, g') => (None, g')
      end
  end.

(** How many of the trials returned the card [h]. *)
Definition count_of (results : list (option handle)) (h : handle) : Z :=
  Z.of_nat (length (filter (λ r, r = Some h) results)).

(** The answers of [_randbelow(len(population))] for which [choice]
    returns [x]. *)
Definition selecting_indices {A} `{EqDecision A} (population : list A) (x : A)
    : list nat :=
  filter (λ i, population !! i = Some x) (seq 0 (length population)).

(** A world in which a second lab card, at position 2, is the one drawn. *)
Definition two_labs_unwired_world : World Z :=
  mkWorld [ new_card (LabCard LAB_RED) 1;
            new_card (AmoebaCard 0) 5;
            new_card (LabCard LAB_GREEN) 9 ]
          {[ 0%nat := mkConfiguration BLUE DOTTY SINGLE ]} 42 [].

(** * Properties *)

(** ** Configuration.evolve *)

Lemma axis_size_two (a : Axis) : axis_size a = 2%nat.
Proof. by destruct a. Qed.

Lemma evolve_axis_involutive (a : Axis) (c : Configuration) :
  evolve_axis a (evolve_axis a c) = c.
Proof. by destruct a, c as [[] [] []]. Qed.

Lemma evolve_axis_moves (a : Axis) (c : Configuration) : evolve_axis a c ≠ c.
Proof. by destruct a, c as [[] [] []]. Qed.

(** C8. Evolving a single axis moves that axis to the cyclically next
    value of its declaration order and leaves the other two alone;
    iterating it comes back to the starting configuration after exactly
    as many rotations as the axis has values, and not before; every axis
    has two values, so two rotations restore the original. *)
Theorem evolve_single_axis_cycles (a : Axis) (c : Configuration) :
  (∃ i : nat,
      axis_position a c = Some i ∧
      axis_position a (evolve_axis a c) = Some ((i + 1) `mod` axis_size a)%nat) ∧
  other_axes_equal a c (evolve_axis a c) ∧
  Nat.iter (axis_size a) (evolve_axis a) c = c ∧
  (∀ k : nat, (0 < k < axis_size a)%nat → Nat.iter k (evolve_axis a) c ≠ c) ∧
  axis_size a = 2%nat ∧
  evolve_axis a (evolve_axis a c) = c.
Proof.
  split_and!.
  - destruct a, c as [[] [] []]; by eexists.
  - by destruct a, c as [[] [] []].
  - rewrite axis_size_two. apply evolve_axis_involutive.
  - intros k. rewrite axis_size_two. intros Hk.
    assert (k = 1%nat) as -> by lia. apply evolve_axis_moves.
  - apply axis_size_two.
  - apply evolve_axis_involutive.
Qed.

(** ** The state monad *)

Lemma bind_returned {St A B} (m : M St A) (k : A → M St B) s a s' :
  m s = (Returned a, s') → bind m k s = k a s'.
Proof. unfold bind. by intros ->. Qed.

Lemma bind_raised {St A B} (m : M St A) (k : A → M St B) s e s' :
  m s = (Raised e, s') → bind m k s = (Raised e, s').
Proof. unfold bind. by intros ->. Qed.

Lemma bind_out_of_fuel {St A B} (m : M St A) (k : A → M St B) s s' :
  m s = (OutOfFuel, s') → bind m k s = (OutOfFuel, s').
Proof. unfold bind. by intros ->. Qed.

Lemma bind_inv_returned {St A B} (m : M St A) (k : A → M St B) s b s2 :
  bind m k s = (Returned b, s2) →
  ∃ a s1, m s = (Returned a, s1) ∧ k a s1 = (Returned b, s2).
Proof.
  unfold bind. destruct (m s) as [[a| |] s1]; [eauto | done | done].
Qed.

(** A loop whose body keeps an invariant indexed by the number of
    iterations done returns, and the invariant holds at the end. *)
Lemma for_each_invariant {St A} (I : nat → St → Prop) (l : list A)
    (body : A → M St unit) (s : St) :
  I 0%nat s →
  (∀ i x s1, l !! i = Some x → I i s1 →
     ∃ s2, body x s1 = (Returned tt, s2) ∧ I (S i) s2) →
  ∃ s', for_each l body s = (Returned tt, s') ∧ I (length l) s'.
Proof.
  revert I s. induction l as [|x l IH]; intros I s H0 Hstep; simpl.
  - by exists s.
  - destruct (Hstep 0%nat x s eq_refl H0) as (s1 & Hb & H1).
    destruct (IH (λ i, I (S i)) s1 H1) as (s' & Hl & Hend).
    { intros i y s2 Hy Hi. by apply (Hstep (S i)). }
    exists s'. split; [|done]. by rewrite (bind_returned _ _ _ _ _ Hb).
Qed.

Lemma subscript_returned {St A} (l : list A) (k : Z) (x : A) (s : St) :
  0 ≤ k → l !! Z.to_nat k = Some x → subscript l k s = (Returned x, s).
Proof.
  intros Hk Hx. unfold subscript.
  destruct (Z.ltb_spec k 0); [lia|].
  destruct (Z.leb_spec 0 k); [|lia]. by rewrite Hx.
Qed.

Lemma py_mod_returned {St} (a n : Z) (s : St) :
  n ≠ 0 → py_mod a n s = (Returned (a `mod` n), s).
Proof. intros Hn. unfold py_mod. by destruct (Z.eqb_spec n 0). Qed.

Lemma lookup_enumerate {A} (l : list A) (i : nat) :
  enumerate l !! i = (λ x, (Z.of_nat i, x)) <$> l !! i.
Proof. unfold enumerate. by rewrite list_lookup_imap. Qed.

Lemma length_enumerate {A} (l : list A) : length (enumerate l) = length l.
Proof. unfold enumerate. by rewrite length_imap. Qed.

(** ** The card store *)

Lemma lookup_card_refs (cs : list Card) (i : nat) :
  (i < length cs)%nat → card_refs cs !! i = Some i.
Proof. intros Hi. unfold card_refs. by rewrite lookup_seq_lt. Qed.

Lemma length_card_refs (cs : list Card) : length (card_refs cs) = length cs.
Proof. unfold card_refs. by rewrite length_seq. Qed.

Lemma deref_returned (cs : list Card) (h : handle) (c : Card) :
  cs !! h = Some c → deref h cs = (Returned c, cs).
Proof. intros Hc. unfold deref, bind, get. simpl. by rewrite Hc. Qed.

Lemma set_neighbors_returned (cs : list Card) (h a b : handle) (c : Card) :
  cs !! h = Some c →
  set_neighbors h a b cs =
    (Returned tt, <[h := mkCard (kind c) (line_number c) (Some a) (Some b)]> cs).
Proof.
  intros Hc. unfold set_neighbors.
  rewrite (bind_returned _ _ _ _ _ (deref_returned _ _ _ Hc)). done.
Qed.

Lemma isinstance_VentCard_returned (cs : list Card) (h : handle) :
  (h < length cs)%nat → isinstance_VentCard h cs = (Returned (vent_at cs h), cs).
Proof.
  intros Hh. destruct (lookup_lt_is_Some_2 cs h Hh) as [c Hc].
  unfold isinstance_VentCard.
  rewrite (bind_returned _ _ _ _ _ (deref_returned _ _ _ Hc)).
  unfold vent_at. by rewrite Hc.
Qed.

Lemma ring_index_lt (cs : list Card) (i : Z) :
  cs ≠ [] → (ring_index cs i < length cs)%nat.
Proof.
  intros Hne. unfold ring_index.
  assert (0 < Z.of_nat (length cs)) by (destruct cs; [done | simpl; lia]).
  pose proof (Z.mod_pos_bound i (Z.of_nat (length cs))). lia.
Qed.

Lemma subscript_card_refs (cs : list Card) (i : Z) (s : list Card) :
  cs ≠ [] →
  subscript (card_refs cs) (i `mod` Z.of_nat (length cs)) s
  = (Returned (ring_index cs i), s).
Proof.
  intros Hne. pose proof (ring_index_lt cs i Hne) as Hlt.
  assert (0 < Z.of_nat (length cs)) by (destruct cs; [done | simpl; lia]).
  apply subscript_returned.
  - apply Z.mod_pos_bound. lia.
  - by apply lookup_card_refs.
Qed.

Ltac step_with H := rewrite (bind_returned _ _ _ _ _ H).

(** ** configure_neighbors: the plain ring *)

Lemma base_wiring_body (cs s : list Card) (i : nat) (c : Card) :
  cs ≠ [] → length s = length cs → s !! i = Some c →
  (i_clk <- py_mod (Z.of_nat i + 1) (Z.of_nat (length (card_refs cs))) ;;
   clk <- subscript (card_refs cs) i_clk ;;
   i_counter <- py_mod (Z.of_nat i - 1) (Z.of_nat (length (card_refs cs))) ;;
   counter <- subscript (card_refs cs) i_counter ;;
   set_neighbors i clk counter) s
  = (Returned tt, <[i := wire_base cs i c]> s).
Proof.
  intros Hne Hlen Hc. rewrite length_card_refs.
  assert (Z.of_nat (length cs) ≠ 0) by (destruct cs; [done | simpl; lia]).
  step_with (py_mod_returned (St:=list Card) (Z.of_nat i + 1) _ s ltac:(done)).
  step_with (subscript_card_refs cs (Z.of_nat i + 1) s Hne).
  step_with (py_mod_returned (St:=list Card) (Z.of_nat i - 1) _ s ltac:(done)).
  step_with (subscript_card_refs cs (Z.of_nat i - 1) s Hne).
  by rewrite (set_neighbors_returned _ _ _ _ _ Hc).
Qed.

Lemma base_wiring_loop (cs : list Card) :
  cs ≠ [] →
  ∃ s,
    for_each (enumerate (card_refs cs)) (λ '(index, card),
      i_clk <- py_mod (index + 1) (Z.of_nat (length (card_refs cs))) ;;
      clk <- subscript (card_refs cs) i_clk ;;
      i_counter <- py_mod (index - 1) (Z.of_nat (length (card_refs cs))) ;;
      counter <- subscript (card_refs cs) i_counter ;;
      set_neighbors card clk counter) cs = (Returned tt, s) ∧
    length s = length cs ∧
    ∀ i c, cs !! i = Some c → s !! i = Some (wire_base cs i c).
Proof.
  intros Hne.
  set (I := λ (k : nat) (s : list Card),
    length s = length cs ∧
    ∀ i c, cs !! i = Some c →
      s !! i = Some (if decide (i < k)%nat then wire_base cs i c else c)).
  match goal with |- context [for_each ?L ?body] =>
    destruct (for_each_invariant I L body cs) as (s & Hrun & Hlen & Hs)
  end.
  - split; [done|]. intros i c Hc. by rewrite decide_False by lia.
  - intros i [idx card] s1 Hx [Hlen Hs1].
    rewrite lookup_enumerate in Hx.
    destruct (card_refs cs !! i) as [h|] eqn:Hh; [|done].
    pose proof (lookup_lt_Some _ _ _ Hh) as Hi. rewrite length_card_refs in Hi.
    rewrite (lookup_card_refs _ _ Hi) in Hh. injection Hh as <-.
    simpl in Hx. injection Hx as <- <-.
    destruct (lookup_lt_is_Some_2 cs i Hi) as [c Hc].
    pose proof (Hs1 i c Hc) as Hsc. rewrite decide_False in Hsc by lia.
    eexists. split; [by apply base_wiring_body|].
    split; [by rewrite length_insert|].
    intros j c' Hc'. destruct (decide (j = i)) as [->|Hne'].
    + rewrite list_lookup_insert_eq by lia.
      rewrite decide_True by lia. congruence.
    + rewrite list_lookup_insert_ne by done. rewrite (Hs1 j c' Hc').
      repeat case_decide; (done || lia).
  - exists s. split; [done|]. split; [done|].
    intros i c Hc. rewrite (Hs i c Hc).
    rewrite length_enumerate, length_card_refs.
    rewrite decide_True; [done|]. by eapply lookup_lt_Some.
Qed.

(** ** The list of vent positions *)

Lemma enumerate_card_refs (cs : list Card) :
  enumerate (card_refs cs) = (λ i, (Z.of_nat i, i)) <$> seq 0 (length cs).
Proof.
  apply list_eq. intros i.
  rewrite lookup_enumerate, list_lookup_fmap. unfold card_refs.
  destruct (seq 0 (length cs) !! i) as [j|] eqn:Hj; [|done].
  apply lookup_seq in Hj as [-> _]. done.
Qed.

Lemma vent_indices_of_fmap (s : list Card) (l : list nat) :
  (∀ i, i ∈ l → (i < length s)%nat) →
  vent_indices_of ((λ i, (Z.of_nat i, i)) <$> l) s
  = (Returned (Z.of_nat <$> filter (λ i, vent_at s i = true) l), s).
Proof.
  induction l as [|a l IH]; intros Hl; [done|].
  rewrite fmap_cons. cbn [vent_indices_of].
  step_with (isinstance_VentCard_returned s a ltac:(apply Hl; left)).
  rewrite (bind_returned _ _ _ _ _ (IH ltac:(intros i Hi; apply Hl; by right))).
  unfold ret. rewrite filter_cons.
  destruct (vent_at s a); by case_decide.
Qed.

Lemma filter_vent_ext (s cs : list Card) (l : list nat) :
  (∀ i, vent_at s i = vent_at cs i) →
  filter (λ i, vent_at s i = true) l = filter (λ i, vent_at cs i = true) l.
Proof.
  intros Hext. induction l as [|a l IH]; [done|].
  rewrite !filter_cons, IH, (Hext a). done.
Qed.

Lemma same_payload_refl (cs : list Card) : same_payload cs cs.
Proof. split; [done|]. intros i c Hc. by exists c. Qed.

Lemma same_payload_vent_at (cs s : list Card) (i : nat) :
  same_payload cs s → vent_at s i = vent_at cs i.
Proof.
  intros [Hlen Hs]. unfold vent_at.
  destruct (cs !! i) as [c|] eqn:Hc.
  - destruct (Hs i c Hc) as (c' & -> & -> & _). done.
  - apply lookup_ge_None in Hc. rewrite lookup_ge_None_2 by lia. done.
Qed.

Lemma vent_indices_of_card_refs (cs s : list Card) :
  same_payload cs s →
  vent_indices_of (enumerate (card_refs cs)) s = (Returned (vent_indices cs), s).
Proof.
  intros Hs. rewrite enumerate_card_refs, vent_indices_of_fmap.
  - unfold vent_indices. f_equal. f_equal. f_equal. apply filter_vent_ext.
    intros i. by apply same_payload_vent_at.
  - intros i Hi. apply elem_of_seq in Hi. destruct Hs as [-> _]. lia.
Qed.

Lemma elem_of_vent_indices (cs : list Card) (v : Z) :
  v ∈ vent_indices cs ↔ 0 ≤ v ∧ vent_at cs (Z.to_nat v) = true.
Proof.
  unfold vent_indices. rewrite list_elem_of_fmap. split.
  - intros (i & -> & Hi). apply list_elem_of_filter in Hi as [Hv _].
    split; [lia|]. by rewrite Nat2Z.id.
  - intros [Hv Hvent]. exists (Z.to_nat v). split; [lia|].
    apply list_elem_of_filter. split; [done|]. apply elem_of_seq.
    unfold vent_at in Hvent.
    destruct (cs !! Z.to_nat v) eqn:Hc; [|done].
    apply lookup_lt_Some in Hc. lia.
Qed.

Lemma vent_indices_ascending (cs : list Card) :
  StronglySorted Z.lt (vent_indices cs).
Proof.
  unfold vent_indices.
  apply (StronglySorted_fmap Z.of_nat lt Z.lt); [intros; lia|].
  generalize 0%nat. generalize (length cs) as n.
  induction n as [|n IH]; intros k; simpl; [constructor|].
  rewrite filter_cons. case_decide; [|apply IH].
  constructor; [apply IH|].
  apply Forall_forall. intros j Hj.
  apply list_elem_of_filter in Hj as [_ Hj]. apply elem_of_seq in Hj. lia.
Qed.

Lemma vent_indices_NoDup (cs : list Card) : NoDup (vent_indices cs).
Proof.
  unfold vent_indices. apply NoDup_fmap_2; [intros ???; lia|].
  apply NoDup_filter, NoDup_seq.
Qed.

(** ** configure_neighbors with at most one vent *)

Lemma same_payload_wire_base (cs s : list Card) :
  length s = length cs →
  (∀ i c, cs !! i = Some c → s !! i = Some (wire_base cs i c)) →
  same_payload cs s.
Proof.
  intros Hlen Hs. split; [done|]. intros i c Hc.
  exists (wire_base cs i c). by rewrite (Hs i c Hc).
Qed.

Lemma configure_neighbors_few_vents (cs : list Card) (fuel : nat) :
  cs ≠ [] → (length (vent_indices cs) ≤ 1)%nat →
  ∃ s,
    configure_neighbors fuel (card_refs cs) cs = (Returned tt, s) ∧
    length s = length cs ∧
    ∀ i c, cs !! i = Some c → s !! i = Some (wire_base cs i c).
Proof.
  intros Hne Hfew. unfold configure_neighbors.
  destruct (card_refs cs) as [|h0 refs] eqn:Hrefs.
  { destruct cs; [done | discriminate]. }
  rewrite <- Hrefs. clear Hrefs.
  destruct (base_wiring_loop cs Hne) as (s & Hrun & Hlen & Hs).
  exists s. split; [|done]. step_with Hrun.
  unfold _link_vents.
  step_with (vent_indices_of_card_refs cs s (same_payload_wire_base _ _ Hlen Hs)).
  destruct (Nat.leb_spec (length (vent_indices cs)) 1); [done | lia].
Qed.




(** ** _walk_to_non_vent *)

Lemma ring_index_mod_l (cs : list Card) (a b : Z) :
  ring_index cs (a `mod` Z.of_nat (length cs) + b) = ring_index cs (a + b).
Proof. unfold ring_index. by rewrite Zplus_mod_idemp_l. Qed.

Lemma ring_index_small (cs : list Card) (i : Z) :
  0 ≤ i < Z.of_nat (length cs) → ring_index cs i = Z.to_nat i.
Proof. intros Hi. unfold ring_index. by rewrite Z.mod_small. Qed.

Lemma subscript_card_refs_small (cs s : list Card) (i : Z) :
  0 ≤ i < Z.of_nat (length cs) →
  subscript (card_refs cs) i s = (Returned (Z.to_nat i), s).
Proof.
  intros Hi. apply subscript_returned; [lia|]. apply lookup_card_refs. lia.
Qed.

Lemma walk_loop_returns (cs s : list Card) (step : Z) :
  same_payload cs s →
  ∀ (k fuel : nat) (index : Z),
    (k < fuel)%nat →
    0 ≤ index < Z.of_nat (length cs) →
    (∀ j : nat, (j < k)%nat →
       vent_at cs (ring_index cs (index + step * Z.of_nat j)) = true) →
    vent_at cs (ring_index cs (index + step * Z.of_nat k)) = false →
    walk_loop fuel (card_refs cs) (Z.of_nat (length cs)) index step s
    = (Returned (ring_index cs (index + step * Z.of_nat k)), s).
Proof.
  intros Hs. induction k as [|k IH]; intros fuel index Hfuel Hidx Hvents Hstop;
    (destruct fuel as [|fuel]; [lia|]); cbn [walk_loop].
  - step_with (subscript_card_refs_small cs s index Hidx).
    replace (index + step * Z.of_nat 0) with index in * by lia.
    rewrite ring_index_small in * by done.
    step_with (isinstance_VentCard_returned s (Z.to_nat index)
                 ltac:(destruct Hs as [-> _]; lia)).
    by rewrite (same_payload_vent_at cs s _ Hs), Hstop.
  - step_with (subscript_card_refs_small cs s index Hidx).
    step_with (isinstance_VentCard_returned s (Z.to_nat index)
                 ltac:(destruct Hs as [-> _]; lia)).
    rewrite (same_payload_vent_at cs s _ Hs).
    pose proof (Hvents 0%nat ltac:(lia)) as H0.
    replace (index + step * Z.of_nat 0) with index in H0 by lia.
    rewrite ring_index_small in H0 by done. rewrite H0.
    step_with (py_mod_returned (St:=list Card) (index + step)
                 (Z.of_nat (length cs)) s ltac:(lia)).
    rewrite (IH fuel ((index + step) `mod` Z.of_nat (length cs))).
    + rewrite ring_index_mod_l. do 3 f_equal. lia.
    + lia.
    + apply Z.mod_pos_bound. lia.
    + intros j Hj. rewrite ring_index_mod_l.
      replace (index + step + step * Z.of_nat j)
        with (index + step * Z.of_nat (S j)) by lia.
      apply Hvents. lia.
    + rewrite ring_index_mod_l.
      by replace (index + step + step * Z.of_nat k)
        with (index + step * Z.of_nat (S k)) by lia.
Qed.

(** The least index at which a decidable property holds. *)
Lemma least_index (P : nat → bool) (k0 : nat) :
  P k0 = true →
  ∃ k, (k ≤ k0)%nat ∧ P k = true ∧ ∀ j, (j < k)%nat → P j = false.
Proof.
  intros Hk0.
  assert (∀ m : nat,
    (∃ k, (k < m)%nat ∧ P k = true ∧ ∀ j, (j < k)%nat → P j = false) ∨
    (∀ j, (j < m)%nat → P j = false)) as Hscan.
  { induction m as [|m [(k & Hk & HPk & Hleast)|Hnone]].
    - right. intros j Hj. lia.
    - left. exists k. split; [lia|done].
    - destruct (P m) eqn:HPm.
      + left. exists m. split; [lia|done].
      + right. intros j Hj. destruct (decide (j = m)) as [->|]; [done|].
        apply Hnone. lia. }
  destruct (Hscan (S k0)) as [(k & Hk & HPk & Hleast)|Hnone].
  - exists k. split; [lia|done].
  - rewrite Hnone in Hk0 by lia. done.
Qed.

(** Walking in either direction passes over every ring position. *)
Lemma walk_reaches (cs : list Card) (start step : Z) (h : nat) :
  step = 1 ∨ step = -1 → (h < length cs)%nat →
  ∃ k : nat, (k < length cs)%nat ∧ ring_index cs (start + step * Z.of_nat k) = h.
Proof.
  intros Hstep Hh. set (n := Z.of_nat (length cs)).
  assert (0 < n) by (unfold n; lia).
  exists (Z.to_nat ((step * (Z.of_nat h - start)) `mod` n)).
  split.
  { pose proof (Z.mod_pos_bound (step * (Z.of_nat h - start)) n). lia. }
  unfold ring_index. fold n.
  rewrite Z2Nat.id by (apply Z.mod_pos_bound; lia).
  rewrite <- Zplus_mod_idemp_r, Zmult_mod_idemp_r, Zplus_mod_idemp_r.
  replace (start + step * (step * (Z.of_nat h - start))) with (Z.of_nat h)
    by (destruct Hstep as [-> | ->]; lia).
  rewrite Z.mod_small by (unfold n; lia). lia.
Qed.

Lemma first_non_vent_exists (cs : list Card) (start step : Z) :
  step = 1 ∨ step = -1 →
  (∃ h, (h < length cs)%nat ∧ vent_at cs h = false) →
  ∃ k : nat,
    (k < length cs)%nat ∧
    vent_at cs (ring_index cs (start + step * Z.of_nat k)) = false ∧
    ∀ j : nat, (j < k)%nat →
      vent_at cs (ring_index cs (start + step * Z.of_nat j)) = true.
Proof.
  intros Hstep (h & Hh & Hnv).
  destruct (walk_reaches cs start step h Hstep Hh) as (k0 & Hlt & Hk0).
  destruct (least_index
    (λ k, negb (vent_at cs (ring_index cs (start + step * Z.of_nat k)))) k0)
    as (k & Hle & Hk & Hleast).
  { by rewrite Hk0, Hnv. }
  exists k. split; [lia|]. split; [by apply negb_true_iff|].
  intros j Hj. apply negb_false_iff. by apply Hleast.
Qed.

Lemma first_non_vent_mod (cs : list Card) (start step : Z) (h : handle) :
  first_non_vent cs (start `mod` Z.of_nat (length cs)) step h →
  first_non_vent cs start step h.
Proof.
  intros (k & -> & Hnv & Hvents). exists k.
  rewrite ring_index_mod_l in Hnv. rewrite ring_index_mod_l.
  split; [done|]. split; [done|].
  intros j Hj. rewrite <- ring_index_mod_l. by apply Hvents.
Qed.

Lemma walk_to_non_vent_returns (cs s : list Card) (start step : Z) (fuel : nat) :
  same_payload cs s → has_non_vent cs → step = 1 ∨ step = -1 →
  (length cs ≤ fuel)%nat →
  ∃ h, _walk_to_non_vent fuel (card_refs cs) start step s = (Returned h, s) ∧
       first_non_vent cs start step h.
Proof.
  intros Hs Hnv Hstep Hfuel.
  assert (0 < Z.of_nat (length cs)) as Hn by (destruct Hnv as (h & ? & _); lia).
  destruct (first_non_vent_exists cs start step Hstep Hnv)
    as (k & Hk & Hstop & Hvents).
  exists (ring_index cs (start + step * Z.of_nat k)). split.
  - unfold _walk_to_non_vent. rewrite length_card_refs.
    step_with (py_mod_returned (St:=list Card) start
                 (Z.of_nat (length cs)) s ltac:(lia)).
    rewrite (walk_loop_returns cs s step Hs k).
    + by rewrite ring_index_mod_l.
    + lia.
    + apply Z.mod_pos_bound. lia.
    + intros j Hj. rewrite ring_index_mod_l. by apply Hvents.
    + by rewrite ring_index_mod_l.
  - exists k. done.
Qed.

(** When every card is a vent the walk never stops. *)
Lemma walk_loop_only_vents (cs s : list Card) (step : Z) :
  same_payload cs s → cs ≠ [] →
  (∀ h, (h < length cs)%nat → vent_at cs h = true) →
  ∀ (fuel : nat) (index : Z),
    0 ≤ index < Z.of_nat (length cs) →
    walk_loop fuel (card_refs cs) (Z.of_nat (length cs)) index step s
    = (OutOfFuel, s).
Proof.
  intros Hs Hne Hall. induction fuel as [|fuel IH]; intros index Hidx; [done|].
  cbn [walk_loop].
  step_with (subscript_card_refs_small cs s index Hidx).
  step_with (isinstance_VentCard_returned s (Z.to_nat index)
               ltac:(destruct Hs as [-> _]; lia)).
  rewrite (same_payload_vent_at cs s _ Hs), Hall by lia.
  step_with (py_mod_returned (St:=list Card) (index + step)
               (Z.of_nat (length cs)) s ltac:(lia)).
  apply IH. apply Z.mod_pos_bound. lia.
Qed.

Lemma same_payload_set_neighbors (cs s : list Card) (h a b : handle) (c : Card) :
  same_payload cs s → s !! h = Some c →
  same_payload cs (<[h := mkCard (kind c) (line_number c) (Some a) (Some b)]> s).
Proof.
  intros [Hlen Hs] Hc. split; [by rewrite length_insert|].
  intros i c0 Hc0. destruct (Hs i c0 Hc0) as (c' & Hc' & Hk & Hl).
  destruct (decide (i = h)) as [->|Hne].
  - rewrite list_lookup_insert_eq by (by eapply lookup_lt_Some).
    eexists. split; [done|]. simpl. by simplify_eq.
  - rewrite list_lookup_insert_ne by done. by exists c'.
Qed.

Lemma vent_index_range (cs : list Card) (p : nat) (v : Z) :
  vent_indices cs !! p = Some v → 0 ≤ v < Z.of_nat (length cs).
Proof.
  intros Hv. apply list_elem_of_lookup_2, elem_of_vent_indices in Hv as [H0 Hv].
  split; [done|]. unfold vent_at in Hv.
  destruct (cs !! Z.to_nat v) eqn:Hc; [|done].
  apply lookup_lt_Some in Hc. lia.
Qed.

Lemma vent_indices_cyclic_lookup (cs : list Card) (i : Z) :
  vent_indices cs ≠ [] →
  ∃ v, vent_indices cs !! Z.to_nat (i `mod` Z.of_nat (length (vent_indices cs)))
       = Some v.
Proof.
  intros Hne. apply lookup_lt_is_Some_2.
  assert (0 < Z.of_nat (length (vent_indices cs)))
    by (destruct (vent_indices cs); [done | simpl; lia]).
  pose proof (Z.mod_pos_bound i (Z.of_nat (length (vent_indices cs)))). lia.
Qed.

(** ** _link_vents with two or more vents *)

Lemma link_body_returns (cs s : list Card) (fuel p : nat) (v : Z) :
  same_payload cs s → has_non_vent cs → (length cs ≤ fuel)%nat →
  vent_indices cs !! p = Some v →
  ∃ (next_vent prev_vent : Z) (clk counter : handle) (c : Card),
    vent_indices cs
      !! Z.to_nat ((Z.of_nat p + 1) `mod` Z.of_nat (length (vent_indices cs)))
      = Some next_vent ∧
    vent_indices cs
      !! Z.to_nat ((Z.of_nat p - 1) `mod` Z.of_nat (length (vent_indices cs)))
      = Some prev_vent ∧
    first_non_vent cs (next_vent + 1) 1 clk ∧
    first_non_vent cs (prev_vent - 1) (-1) counter ∧
    s !! Z.to_nat v = Some c ∧
    (i_next <- py_mod (Z.of_nat p + 1) (Z.of_nat (length (vent_indices cs))) ;;
     next_vent_idx <- subscript (vent_indices cs) i_next ;;
     i_prev <- py_mod (Z.of_nat p - 1) (Z.of_nat (length (vent_indices cs))) ;;
     prev_vent_idx <- subscript (vent_indices cs) i_prev ;;
     s_clk <- py_mod (next_vent_idx + 1) (Z.of_nat (length (card_refs cs))) ;;
     clk_neighbor <- _walk_to_non_vent fuel (card_refs cs) s_clk 1 ;;
     s_counter <- py_mod (prev_vent_idx - 1) (Z.of_nat (length (card_refs cs))) ;;
     counter_neighbor <- _walk_to_non_vent fuel (card_refs cs) s_counter (-1) ;;
     vent <- subscript (card_refs cs) v ;;
     set_neighbors vent clk_neighbor counter_neighbor) s
    = (Returned tt,
       <[Z.to_nat v := mkCard (kind c) (line_number c) (Some clk) (Some counter)]> s).
Proof.
  intros Hs Hnv Hfuel Hv.
  assert (vent_indices cs ≠ []) as HV by (intros HV; by rewrite HV in Hv).
  assert (0 < Z.of_nat (length (vent_indices cs))) as Hm
    by (apply lookup_lt_Some in Hv; lia).
  assert (0 < Z.of_nat (length cs)) as Hn by (destruct Hnv as (h & ? & _); lia).
  destruct (vent_indices_cyclic_lookup cs (Z.of_nat p + 1) HV) as [nv Hnext].
  destruct (vent_indices_cyclic_lookup cs (Z.of_nat p - 1) HV) as [pv Hprev].
  destruct (walk_to_non_vent_returns cs s
              ((nv + 1) `mod` Z.of_nat (length cs)) 1 fuel Hs Hnv) as (clk & Hclk & Hfirst1);
    [by left | done |].
  destruct (walk_to_non_vent_returns cs s
              ((pv - 1) `mod` Z.of_nat (length cs)) (-1) fuel Hs Hnv) as (cclk & Hcclk & Hfirst2);
    [by right | done |].
  pose proof (vent_index_range cs p v Hv) as Hrange.
  destruct (lookup_lt_is_Some_2 s (Z.to_nat v)) as [c Hc].
  { destruct Hs as [-> _]. lia. }
  exists nv, pv, clk, cclk, c.
  split_and!; [done | done | by apply first_non_vent_mod
              | by apply first_non_vent_mod | done |].
  rewrite length_card_refs.
  assert (Z.of_nat (length (vent_indices cs)) ≠ 0) as Hm0 by lia.
  assert (Z.of_nat (length cs) ≠ 0) as Hn0 by lia.
  pose proof (Z.mod_pos_bound (Z.of_nat p + 1) _ Hm) as [Hb1 _].
  pose proof (Z.mod_pos_bound (Z.of_nat p - 1) _ Hm) as [Hb2 _].
  step_with (py_mod_returned (St:=list Card) (Z.of_nat p + 1) _ s Hm0).
  step_with (subscript_returned (St:=list Card) (vent_indices cs) _ nv s Hb1 Hnext).
  step_with (py_mod_returned (St:=list Card) (Z.of_nat p - 1) _ s Hm0).
  step_with (subscript_returned (St:=list Card) (vent_indices cs) _ pv s Hb2 Hprev).
  step_with (py_mod_returned (St:=list Card) (nv + 1) _ s Hn0).
  step_with Hclk.
  step_with (py_mod_returned (St:=list Card) (pv - 1) _ s Hn0).
  step_with Hcclk.
  step_with (subscript_card_refs_small cs s v Hrange).
  by apply set_neighbors_returned.
Qed.

Lemma link_loop_returns (cs s0 : list Card) (fuel : nat) :
  same_payload cs s0 → has_non_vent cs → (length cs ≤ fuel)%nat →
  ∃ s,
    for_each (enumerate (vent_indices cs)) (λ '(position, vent_idx),
      i_next <- py_mod (position + 1) (Z.of_nat (length (vent_indices cs))) ;;
      next_vent_idx <- subscript (vent_indices cs) i_next ;;
      i_prev <- py_mod (position - 1) (Z.of_nat (length (vent_indices cs))) ;;
      prev_vent_idx <- subscript (vent_indices cs) i_prev ;;
      s_clk <- py_mod (next_vent_idx + 1) (Z.of_nat (length (card_refs cs))) ;;
      clk_neighbor <- _walk_to_non_vent fuel (card_refs cs) s_clk 1 ;;
      s_counter <- py_mod (prev_vent_idx - 1) (Z.of_nat (length (card_refs cs))) ;;
      counter_neighbor <- _walk_to_non_vent fuel (card_refs cs) s_counter (-1) ;;
      vent <- subscript (card_refs cs) vent_idx ;;
      set_neighbors vent clk_neighbor counter_neighbor) s0 = (Returned tt, s) ∧
    link_progress cs s0 (length (vent_indices cs)) s.
Proof.
  intros Hs0 Hnv Hfuel.
  match goal with |- context [for_each ?L ?body] =>
    destruct (for_each_invariant (link_progress cs s0) L body s0)
      as (s & Hrun & Hend)
  end.
  - split; [done|]. split; [intros; lia | done].
  - intros p [pos v] s1 Hx (Hs1 & Hdone & Hrest).
    rewrite lookup_enumerate in Hx.
    destruct (vent_indices cs !! p) as [v'|] eqn:Hv; [|done].
    simpl in Hx. injection Hx as <- <-.
    destruct (link_body_returns cs s1 fuel p v' Hs1 Hnv Hfuel Hv)
      as (nv & pv & clk & cclk & c & Hnext & Hprev & Hf1 & Hf2 & Hc & Hbody).
    eexists. split; [exact Hbody|].
    pose proof (vent_index_range cs p v' Hv) as Hrange.
    pose proof (lookup_lt_Some _ _ _ Hc) as Hlt.
    split; [by apply same_payload_set_neighbors|]. split.
    + intros q Hq Hqlen. destruct (decide (q = p)) as [->|Hne].
      * exists v', nv, pv. eexists. exists clk, cclk.
        rewrite list_lookup_insert_eq by done. done.
      * destruct (Hdone q ltac:(lia) Hqlen)
          as (w & nw & pw & cw & a & b & Hw & ? & ? & Hcw & ? & ? & ? & ?).
        assert (Z.to_nat v' ≠ Z.to_nat w) as Hvw.
        { intros Heq. apply Hne.
          assert (w = v') as ->.
          { pose proof (vent_index_range cs q w Hw). lia. }
          eapply NoDup_lookup; [apply vent_indices_NoDup | done | done]. }
        exists w, nw, pw, cw, a, b.
        rewrite list_lookup_insert_ne by done. done.
    + intros i Hi. rewrite list_lookup_insert_ne.
      * apply Hrest. intros q Hq. apply Hi. lia.
      * intros <-. apply (Hi p ltac:(lia)). rewrite Hv. f_equal. lia.
  - exists s. split; [done|]. by rewrite length_enumerate in Hend.
Qed.

Lemma configure_neighbors_many_vents (cs : list Card) (fuel : nat) :
  (2 ≤ length (vent_indices cs))%nat → has_non_vent cs →
  (length cs ≤ fuel)%nat →
  ∃ s0 s,
    (∀ i c, cs !! i = Some c → s0 !! i = Some (wire_base cs i c)) ∧
    configure_neighbors fuel (card_refs cs) cs = (Returned tt, s) ∧
    link_progress cs s0 (length (vent_indices cs)) s.
Proof.
  intros Hmany Hnv Hfuel.
  assert (cs ≠ []) as Hne
    by (destruct Hnv as (h & Hh & _); intros ->; simpl in Hh; lia).
  unfold configure_neighbors.
  destruct (card_refs cs) as [|h0 refs] eqn:Hrefs.
  { destruct cs; [done | discriminate]. }
  rewrite <- Hrefs. clear Hrefs.
  destruct (base_wiring_loop cs Hne) as (s0 & Hrun & Hlen & Hs0).
  pose proof (same_payload_wire_base _ _ Hlen Hs0) as Hpay.
  destruct (link_loop_returns cs s0 fuel Hpay Hnv Hfuel) as (s & Hlink & Hprog).
  exists s0, s. split; [done|]. split; [|done].
  step_with Hrun. unfold _link_vents.
  step_with (vent_indices_of_card_refs cs s0 Hpay).
  destruct (Nat.leb_spec (length (vent_indices cs)) 1); [lia | done].
Qed.

Lemma wire_base_neighbors (cs : list Card) (i : nat) (c : Card) :
  base_neighbors cs i (wire_base cs i c).
Proof. done. Qed.

(** C3. Let V be the list of vent positions (it is ascending and holds
    exactly the positions of vent cards).  With two or more vents, and some
    card to stop at, the topology builder returns and every vent of V is
    rerouted: its clockwise neighbour is the first non-vent card met from
    the position after the next vent of V, its counter-clockwise neighbour
    the first non-vent card met from the position before the previous vent
    of V.  With at most one vent the builder returns and every card has
    the neighbours of the plain ring. *)
Theorem vents_rerouted_past_adjacent_vent (cs : list Card) (fuel : nat) :
  (length cs ≤ fuel)%nat →
  ((2 ≤ length (vent_indices cs))%nat → has_non_vent cs) →
  StronglySorted Z.lt (vent_indices cs) ∧
  (∀ v, v ∈ vent_indices cs ↔ 0 ≤ v ∧ vent_at cs (Z.to_nat v) = true) ∧
  ∃ cs',
    configure_neighbors fuel (card_refs cs) cs = (Returned tt, cs') ∧
    same_payload cs cs' ∧
    ((2 ≤ length (vent_indices cs))%nat →
       ∀ p, (p < length (vent_indices cs))%nat → vent_rerouted cs cs' p) ∧
    ((length (vent_indices cs) ≤ 1)%nat →
       ∀ i c, cs' !! i = Some c → base_neighbors cs i c).
Proof.
  intros Hfuel Hnv.
  split; [apply vent_indices_ascending|].
  split; [apply elem_of_vent_indices|].
  destruct (decide (2 ≤ length (vent_indices cs))%nat) as [Hmany|Hfew].
  - destruct (configure_neighbors_many_vents cs fuel Hmany (Hnv Hmany) Hfuel)
      as (s0 & s & Hs0 & Hrun & Hpay & Hdone & _).
    exists s. split_and!; [done | done | | intros; lia].
    intros _ p Hp. by apply Hdone.
  - destruct (decide (cs = [])) as [->|Hne].
    { exists []. split_and!; [done | apply same_payload_refl | intros; lia |].
      intros _ i c Hc. by rewrite lookup_nil in Hc. }
    destruct (configure_neighbors_few_vents cs fuel Hne ltac:(lia))
      as (s & Hrun & Hlen & Hs).
    exists s. split_and!; [done | by apply same_payload_wire_base | intros; lia |].
    intros _ i c Hc.
    destruct (lookup_lt_is_Some_2 cs i) as [c0 Hc0].
    { rewrite <- Hlen. by eapply lookup_lt_Some. }
    rewrite (Hs i c0 Hc0) in Hc. injection Hc as <-. apply wire_base_neighbors.
Qed.

Lemma first_non_vent_lt (cs : list Card) (start step : Z) (h : handle) :
  cs ≠ [] → first_non_vent cs start step h → (h < length cs)%nat.
Proof. intros Hne (k & -> & _). by apply ring_index_lt. Qed.

(** Where the topology builder returns, it leaves every card with both
    neighbours set, to cards of the ring, and with its payload as it was. *)
Lemma configure_neighbors_wires_every_card (cs : list Card) (fuel : nat) :
  cs ≠ [] → (length cs ≤ fuel)%nat →
  ((2 ≤ length (vent_indices cs))%nat → has_non_vent cs) →
  ∃ cs',
    configure_neighbors fuel (card_refs cs) cs = (Returned tt, cs') ∧
    same_payload cs cs' ∧ fully_wired cs'.
Proof.
  intros Hne Hfuel Hnv.
  destruct (decide (2 ≤ length (vent_indices cs))%nat) as [Hmany|Hfew].
  - destruct (configure_neighbors_many_vents cs fuel Hmany (Hnv Hmany) Hfuel)
      as (s0 & s & Hs0 & Hrun & Hpay & Hdone & Hrest).
    exists s. split_and!; [done | done |].
    pose proof Hpay as [Hlen _]. intros h c Hc. rewrite Hlen.
    destruct (decide (Z.of_nat h ∈ vent_indices cs)) as [Hin|Hout].
    + apply list_elem_of_lookup in Hin as [p Hp].
      destruct (Hdone p (lookup_lt_Some _ _ _ Hp) (lookup_lt_Some _ _ _ Hp))
        as (v & nv & pv & c' & a & b & Hv & _ & _ & Hc' & Ha & Hb & Hfa & Hfb).
      rewrite Hp in Hv. injection Hv as <-. rewrite Nat2Z.id, Hc in Hc'.
      injection Hc' as <-. exists a, b.
      split_and!; [done | done | by eapply first_non_vent_lt
                  | by eapply first_non_vent_lt].
    + destruct (lookup_lt_is_Some_2 cs h) as [c0 Hc0].
      { rewrite <- Hlen. by eapply lookup_lt_Some. }
      rewrite Hrest in Hc.
      2: { intros p _ Hp. apply Hout. by eapply list_elem_of_lookup_2. }
      rewrite (Hs0 h c0 Hc0) in Hc. injection Hc as <-.
      eexists _, _. split_and!; [done | done | by apply ring_index_lt ..].
  - destruct (configure_neighbors_few_vents cs fuel Hne ltac:(lia))
      as (s & Hrun & Hlen & Hs).
    exists s. split_and!; [done | by apply same_payload_wire_base |].
    intros h c Hc. rewrite Hlen.
    destruct (lookup_lt_is_Some_2 cs h) as [c0 Hc0].
    { rewrite <- Hlen. by eapply lookup_lt_Some. }
    rewrite (Hs h c0 Hc0) in Hc. injection Hc as <-.
    eexists _, _. split_and!; [done | done | by apply ring_index_lt ..].
Qed.

(** ** configure_neighbors on a ring of vents *)

Lemma for_each_first_out_of_fuel {St A} (l : list A) (body : A → M St unit)
    (x : A) (s s' : St) :
  l !! 0%nat = Some x → body x s = (OutOfFuel, s') →
  for_each l body s = (OutOfFuel, s').
Proof.
  destruct l as [|y l]; [done|]. intros [= ->] Hbody. simpl.
  by apply bind_out_of_fuel.
Qed.

Lemma vent_indices_only_vents (cs : list Card) :
  (∀ h, (h < length cs)%nat → vent_at cs h = true) →
  vent_indices cs = Z.of_nat <$> seq 0 (length cs).
Proof.
  intros Hall. unfold vent_indices. f_equal.
  assert (∀ l : list nat, Forall (λ i, vent_at cs i = true) l →
            filter (λ i, vent_at cs i = true) l = l) as Hfilter.
  { induction 1 as [|x l Hx _ IH]; [done|]. by rewrite filter_cons_True, IH. }
  apply Hfilter, Forall_forall. intros i Hi. apply elem_of_seq in Hi.
  apply Hall. lia.
Qed.

(** C4. On a ring of two or more cards that are all vents the topology
    builder does not return, whatever fuel it is given: the walk to a
    non-vent card goes round the ring for ever. *)
Theorem configure_neighbors_only_vents_diverges (cs : list Card) (fuel : nat) :
  (2 ≤ length cs)%nat →
  (∀ h, (h < length cs)%nat → vent_at cs h = true) →
  ∃ s, configure_neighbors fuel (card_refs cs) cs = (OutOfFuel, s).
Proof.
  intros Hlen2 Hall.
  assert (cs ≠ []) as Hne by (intros ->; simpl in Hlen2; lia).
  pose proof (vent_indices_only_vents cs Hall) as HV.
  assert (length (vent_indices cs) = length cs) as HlenV
    by (by rewrite HV, length_fmap, length_seq).
  unfold configure_neighbors.
  destruct (card_refs cs) as [|h0 refs] eqn:Hrefs.
  { destruct cs; [done | discriminate]. }
  rewrite <- Hrefs. clear Hrefs.
  destruct (base_wiring_loop cs Hne) as (s0 & Hrun & Hlen & Hs0).
  pose proof (same_payload_wire_base _ _ Hlen Hs0) as Hpay.
  exists s0. step_with Hrun. unfold _link_vents.
  step_with (vent_indices_of_card_refs cs s0 Hpay).
  destruct (Nat.leb_spec (length (vent_indices cs)) 1); [lia|].
  assert (vent_indices cs !! 0%nat = Some 0) as Hv0.
  { rewrite HV, list_lookup_fmap, lookup_seq_lt by lia. done. }
  eapply for_each_first_out_of_fuel.
  { rewrite lookup_enumerate, Hv0. done. }
  cbv beta iota.
  assert (0 < Z.of_nat (length (vent_indices cs))) as Hm by lia.
  assert (Z.of_nat (length (vent_indices cs)) ≠ 0) as Hm0 by lia.
  assert (Z.of_nat (length cs) ≠ 0) as Hn0 by lia.
  assert (vent_indices cs ≠ []) as HVne by (intros E; by rewrite E in Hv0).
  destruct (vent_indices_cyclic_lookup cs (Z.of_nat 0 + 1) HVne) as [nv Hnext].
  destruct (vent_indices_cyclic_lookup cs (Z.of_nat 0 - 1) HVne) as [pv Hprev].
  pose proof (Z.mod_pos_bound (Z.of_nat 0 + 1) _ Hm) as [Hb1 _].
  pose proof (Z.mod_pos_bound (Z.of_nat 0 - 1) _ Hm) as [Hb2 _].
  rewrite length_card_refs.
  step_with (py_mod_returned (St:=list Card) (Z.of_nat 0 + 1) _ s0 Hm0).
  step_with (subscript_returned (St:=list Card) (vent_indices cs) _ nv s0 Hb1 Hnext).
  step_with (py_mod_returned (St:=list Card) (Z.of_nat 0 - 1) _ s0 Hm0).
  step_with (subscript_returned (St:=list Card) (vent_indices cs) _ pv s0 Hb2 Hprev).
  step_with (py_mod_returned (St:=list Card) (nv + 1) _ s0 Hn0).
  apply bind_out_of_fuel. unfold _walk_to_non_vent. rewrite length_card_refs.
  step_with (py_mod_returned (St:=list Card)
               ((nv + 1) `mod` Z.of_nat (length cs)) _ s0 Hn0).
  apply walk_loop_only_vents; [done | done | done |].
  apply Z.mod_pos_bound. lia.
Qed.

(** ** simulate: entry points and the initial mapping *)

Lemma lab_cards_of_returned (cs : list Card) (l : list handle) :
  (∀ h, h ∈ l → (h < length cs)%nat) →
  lab_cards_of l cs = (Returned (filter (λ h, lab_at cs h = true) l), cs).
Proof.
  induction l as [|a l IH]; intros Hl; [done|]. cbn [lab_cards_of].
  destruct (lookup_lt_is_Some_2 cs a ltac:(apply Hl; left)) as [c Hc].
  step_with (deref_returned cs a c Hc).
  rewrite (bind_returned _ _ _ _ _ (IH ltac:(intros h Hh; apply Hl; by right))).
  unfold ret. rewrite filter_cons.
  assert (lab_at cs a = is_lab_kind (kind c)) as Hla
    by (unfold lab_at; by rewrite Hc).
  destruct (is_lab_kind (kind c)); case_decide; (done || congruence).
Qed.

Lemma lab_cards_of_card_refs (cs : list Card) :
  lab_cards_of (card_refs cs) cs = (Returned (lab_handles cs), cs).
Proof.
  apply lab_cards_of_returned. intros h Hh. apply elem_of_seq in Hh. lia.
Qed.

Lemma elem_of_lab_handles (cs : list Card) (h : handle) :
  h ∈ lab_handles cs ↔ lab_at cs h = true.
Proof.
  unfold lab_handles. rewrite list_elem_of_filter, elem_of_seq.
  split; [by intros [? _]|]. intros Hlab. split; [done|].
  unfold lab_at in Hlab. destruct (cs !! h) eqn:Hc; [|done].
  apply lookup_lt_Some in Hc. lia.
Qed.

Lemma lab_handles_nil (cs : list Card) :
  (∀ h, lab_at cs h = false) → lab_handles cs = [].
Proof.
  intros Hnone. destruct (lab_handles cs) as [|h l] eqn:Hl; [done|].
  assert (h ∈ lab_handles cs) as Hh by (rewrite Hl; left).
  apply elem_of_lab_handles in Hh. by rewrite Hnone in Hh.
Qed.

Lemma initial_points_lookup (n h : nat) :
  (list_to_map ((λ card, (card, 0)) <$> seq 0 n) : gmap handle Z) !! h
  = if decide (h < n)%nat then Some 0 else None.
Proof.
  case_decide as Hh.
  - apply elem_of_list_to_map_1.
    + rewrite <- list_fmap_compose. simpl. rewrite list_fmap_id. apply NoDup_seq.
    + apply list_elem_of_fmap. exists h. split; [done|]. apply elem_of_seq. lia.
  - apply not_elem_of_list_to_map_1.
    rewrite <- list_fmap_compose. simpl. rewrite list_fmap_id.
    rewrite elem_of_seq. lia.
Qed.

Section DriverProperties.
Context {RNG : Type} (randbelow : nat → RNG → nat * RNG).

Lemma lift_lab_cards_of (w : World RNG) :
  lift_cards (lab_cards_of (card_refs (card_store w))) w
  = (Returned (lab_handles (card_store w)), w).
Proof.
  unfold lift_cards. rewrite lab_cards_of_card_refs. by destruct w.
Qed.

(** C2. On a card sequence without a lab card, whatever else it holds
    and whatever the experiment count, [simulate] raises the
    "no lab cards" error and leaves the world as it was: the random
    source has not moved, nothing was drawn, no trial was run, and no
    mapping is returned. *)
Theorem simulate_without_lab_raises (w : World RNG) (experiments : Z) :
  (∀ h, lab_at (card_store w) h = false) →
  simulate randbelow (card_refs (card_store w)) experiments w
  = (Raised NoLabCards, w).
Proof.
  intros Hnone. unfold simulate. step_with (lift_lab_cards_of w).
  by rewrite (lab_handles_nil _ Hnone).
Qed.

(** C10. With at least one lab card and an experiment count of zero or
    less, [simulate] returns without running a trial: the world is as it
    was (nothing drawn, no trial recorded), and the mapping returned
    holds every card of the sequence, and nothing else, with count 0. *)
Theorem simulate_no_experiments (w : World RNG) (experiments : Z) :
  experiments ≤ 0 →
  (∃ h, lab_at (card_store w) h = true) →
  ∃ points,
    simulate randbelow (card_refs (card_store w)) experiments w
    = (Returned points, w) ∧
    (∀ h, (h < length (card_store w))%nat → points !! h = Some 0) ∧
    (∀ h, (length (card_store w) ≤ h)%nat → points !! h = None) ∧
    sum_counts points = 0.
Proof.
  intros Hexp [h Hlab].
  exists (list_to_map ((λ card, (card, 0)) <$> card_refs (card_store w))).
  split_and!.
  - unfold simulate. step_with (lift_lab_cards_of w).
    destruct (lab_handles (card_store w)) as [|l ls] eqn:Hl.
    { apply elem_of_lab_handles in Hlab. rewrite Hl in Hlab. inversion Hlab. }
    replace (Z.to_nat experiments) with 0%nat by lia. done.
  - intros i Hi. unfold card_refs. rewrite initial_points_lookup.
    by rewrite decide_True.
  - intros i Hi. unfold card_refs. rewrite initial_points_lookup.
    by rewrite decide_False by lia.
  - unfold sum_counts, card_refs.
    generalize (length (card_store w)) as n. generalize 0%nat as k.
    intros k n. revert k. induction n as [|n IH]; intros k; [done|].
    simpl. rewrite map_fold_insert_L.
    + by rewrite IH.
    + intros. lia.
    + apply not_elem_of_list_to_map_1.
      rewrite <- list_fmap_compose. simpl. rewrite list_fmap_id.
      rewrite elem_of_seq. lia.
Qed.
End DriverProperties.

(** ** The traversal engine *)

Ltac unfold_world_ops :=
  repeat (progress (unfold is_matched, evolve_in_place, new_Configuration,
    lift_cards, get_next, deref, read_config, emit, bind, get, put, ret,
    raise in * ));
  simpl in *.

Lemma bind_inv {St A B} (m : M St A) (k : A → M St B) s r s2 :
  bind m k s = (r, s2) →
  (∃ a s1, m s = (Returned a, s1) ∧ k a s1 = (r, s2)) ∨
  (∃ e, m s = (Raised e, s2) ∧ r = Raised e) ∨
  (m s = (OutOfFuel, s2) ∧ r = OutOfFuel).
Proof.
  unfold bind. destruct (m s) as [[a|e|] s1]; intros H.
  - left. eauto.
  - right. left. exists e. by simplify_eq.
  - right. right. by simplify_eq.
Qed.

Section TraversalProperties.
Context {RNG : Type}.
Implicit Types w : World RNG.

Lemma touches_only_refl cfg w : touches_only cfg w w.
Proof. done. Qed.

Lemma touches_only_trans cfg w1 w2 w3 :
  touches_only cfg w1 w2 → touches_only cfg w2 w3 → touches_only cfg w1 w3.
Proof.
  intros (? & ? & ? & H12) (? & ? & ? & H23).
  split_and!; try congruence. intros l Hl. rewrite H23, H12; done.
Qed.

Lemma is_matched_frame h cfg w r w' :
  is_matched h cfg w = (r, w') →
  touches_only cfg w w' ∧ trace w' = trace w.
Proof.
  destruct w as [cs cf g tr]. unfold touches_only. unfold_world_ops.
  intros H. repeat case_match; simplify_eq; simpl; split_and!; try done.
  - apply dom_insert_lookup_L. done.
  - intros l' Hl'. by rewrite lookup_insert_ne.
Qed.

Lemma get_next_frame h d w r w' :
  lift_cards (get_next h d) w = (r, w') → w' = w.
Proof.
  destruct w as [cs cf g tr]. unfold_world_ops.
  intros H. repeat case_match; by simplify_eq.
Qed.

Lemma emit_eq e w :
  emit e w = (Returned tt, mkWorld (card_store w) (configs w) (rng w) (trace w ++ [e])).
Proof. done. Qed.

(** A traversal, whatever its outcome, touches only the configuration
    it walks and appends only checks to the trace. *)
Lemma run_steps_frame steps cfg cur d w r w' :
  run_steps steps cfg cur d w = (r, w') →
  touches_only cfg w w' ∧
  ∃ checks, trace w' = trace w ++ checks ∧ Forall is_check checks ∧
            (length checks ≤ steps)%nat.
Proof.
  revert cur w. induction steps as [|steps IH]; intros cur w Hrun.
  - injection Hrun as <- <-. split; [done|]. exists []. by rewrite app_nil_r.
  - cbn [run_steps] in Hrun. unfold bind at 1 in Hrun.
    destruct (is_matched cur cfg w) as [[m|e|] w1] eqn:Hm;
      apply is_matched_frame in Hm as [Hf1 Ht1].
    2,3: injection Hrun as <- <-; split; [done|]; exists [];
         rewrite app_nil_r; split_and!; [done | constructor | simpl; lia].
    rewrite (bind_returned _ _ _ _ _ (emit_eq _ _)) in Hrun.
    set (w1e := mkWorld (card_store w1) (configs w1) (rng w1)
                        (trace w1 ++ [EvCheck cur m])) in *.
    assert (touches_only cfg w w1e) as Hf1e by done.
    assert (trace w1e = trace w ++ [EvCheck cur m]) as Ht1e
      by (simpl; by rewrite Ht1).
    assert (∀ w0, w0 = w1e → touches_only cfg w w0 ∧
      ∃ checks, trace w0 = trace w ++ checks ∧ Forall is_check checks ∧
                (length checks ≤ S steps)%nat) as Hstop.
    { intros w0 ->. split; [done|]. exists [EvCheck cur m].
      split_and!; [done | by repeat constructor | simpl; lia]. }
    destruct m.
    { injection Hrun as <- <-. by apply Hstop. }
    unfold bind at 1 in Hrun.
    destruct (lift_cards (get_next cur d) w1e) as [[nx|e|] w2] eqn:Hn;
      apply get_next_frame in Hn as ->.
    2,3: injection Hrun as <- <-; by apply Hstop.
    apply IH in Hrun as (Hf2 & checks & Ht2 & Hchecks & Hlen).
    split; [by eapply touches_only_trans|].
    exists (EvCheck cur false :: checks).
    rewrite Ht2, Ht1e, <- app_assoc.
    split_and!; [done | by constructor | simpl; lia].
Qed.
End TraversalProperties.

Section TraversalTermination.
Context {RNG : Type}.
Implicit Types w : World RNG.

Lemma lift_deref_returned h c w :
  card_store w !! h = Some c → lift_cards (deref h) w = (Returned c, w).
Proof.
  intros Hc. unfold lift_cards. rewrite (deref_returned _ h c Hc).
  by destruct w.
Qed.

Lemma is_matched_returns h cfg w :
  (h < length (card_store w))%nat →
  targets_allocated (card_store w) (configs w) →
  is_Some (configs w !! cfg) →
  ∃ m w1, is_matched h cfg w = (Returned m, w1).
Proof.
  intros Hh Htargets [c0 Hcfg].
  destruct (lookup_lt_is_Some_2 _ _ Hh) as [c Hc].
  unfold is_matched. step_with (lift_deref_returned h c w Hc).
  destruct (kind c) as [lc|t| |ec ep ee] eqn:Hk; try by eexists _, _.
  - destruct (Htargets h c t Hc Hk) as [ct Hct].
    unfold_world_ops. rewrite Hct, Hcfg. by eexists _, _.
  - unfold_world_ops. rewrite Hcfg. by eexists _, _.
Qed.

Lemma get_next_returns h d w :
  (h < length (card_store w))%nat → fully_wired (card_store w) →
  ∃ next, lift_cards (get_next h d) w = (Returned next, w) ∧
          neighbor (card_store w) d h = Some next ∧
          (next < length (card_store w))%nat.
Proof.
  intros Hh Hwired.
  destruct (lookup_lt_is_Some_2 _ _ Hh) as [c Hc].
  destruct (Hwired h c Hc) as (a & b & Ha & Hb & Hla & Hlb).
  unfold neighbor. rewrite Hc. simpl.
  unfold lift_cards, get_next.
  step_with (deref_returned _ h c Hc).
  destruct w as [cs cf g tr]. simpl in *.
  destruct (decide (d = CLK_WISE)).
  - rewrite Ha. by exists a.
  - rewrite Hb. by exists b.
Qed.

Lemma run_steps_returns steps cfg d :
  ∀ cur w,
    fully_wired (card_store w) →
    targets_allocated (card_store w) (configs w) →
    is_Some (configs w !! cfg) →
    (cur < length (card_store w))%nat →
    ∃ r w' checks,
      run_steps steps cfg cur d w = (Returned r, w') ∧
      trace w' = trace w ++ checks ∧
      walk_log (card_store w) d cur checks r ∧
      (length checks ≤ steps)%nat ∧
      (r = None → length checks = steps).
Proof.
  induction steps as [|steps IH]; intros cur w Hwired Htargets Hcfg Hcur.
  - exists None, w, []. rewrite app_nil_r.
    split_and!; [done | done | constructor | done | done].
  - destruct (is_matched_returns cur cfg w Hcur Htargets Hcfg) as (m & w1 & Hm).
    pose proof (is_matched_frame _ _ _ _ _ Hm) as [(Hcs & Hrng & Hdom & Hrest) Htr].
    cbn [run_steps]. step_with Hm.
    rewrite (bind_returned _ _ _ _ _ (emit_eq _ _)).
    set (w1e := mkWorld (card_store w1) (configs w1) (rng w1)
                        (trace w1 ++ [EvCheck cur m])).
    destruct m.
    + exists (Some cur), w1e, [EvCheck cur true].
      split_and!; [done | by rewrite <- Htr | constructor | simpl; lia | done].
    + destruct (get_next_returns cur d w1e) as (next & Hn & Hnb & Hlt).
      { simpl. by rewrite Hcs. }
      { simpl. by rewrite Hcs. }
      simpl in Hnb, Hlt. rewrite Hcs in Hnb, Hlt.
      step_with Hn.
      destruct (IH next w1e) as (r & w' & checks & Hrun & Htr' & Hlog & Hlen & Hnone).
      { simpl. by rewrite Hcs. }
      { simpl. rewrite Hcs. intros h c t Hc Hk.
        apply elem_of_dom. rewrite Hdom. apply elem_of_dom. by eapply Htargets. }
      { simpl. apply elem_of_dom. rewrite Hdom. by apply elem_of_dom. }
      { simpl. by rewrite Hcs. }
      exists r, w', (EvCheck cur false :: checks).
      split_and!.
      * done.
      * rewrite Htr'. simpl. rewrite Htr, <- app_assoc. done.
      * econstructor; [done|]. simpl in Hlog. by rewrite Hcs in Hlog.
      * simpl. lia.
      * intros Hr. simpl. by rewrite Hnone.
Qed.

(** What a call of [is_matched] that returns has read and written. *)
Lemma is_matched_returned h cfg w c m w1 :
  configs w !! cfg = Some c →
  is_matched h cfg w = (Returned m, w1) →
  ∃ card,
    card_store w !! h = Some card ∧
    match kind card with
    | AmoebaCard t => m = bool_decide (configs w !! t = Some c) ∧ w1 = w
    | EvolutionCard ec ep ee =>
        m = false ∧
        w1 = mkWorld (card_store w) (<[cfg := evolve c ec ep ee]> (configs w))
                     (rng w) (trace w)
    | _ => m = false ∧ w1 = w
    end.
Proof.
  destruct w as [cs cf g tr]. unfold_world_ops. intros Hc H.
  destruct (cs !! h) as [card|] eqn:Hcard; [|done]. simpl in H.
  exists card. split; [done|].
  destruct (kind card) as [lc|t| |ec ep ee]; simpl in H.
  - by simplify_eq.
  - destruct (cf !! t) as [mine|] eqn:Ht; simpl in H; [|done].
    rewrite Hc in H. simpl in H. simplify_eq. split; [|done].
    apply bool_decide_ext. split; [by intros -> | by intros [= ->]].
  - by simplify_eq.
  - rewrite Hc in H. simpl in H. by simplify_eq.
Qed.

Lemma card_matches_ext (cs : list Card) (cf cf' : gmap loc Configuration)
    (h : handle) (c : Configuration) :
  (∀ t, is_target cs t → cf !! t = cf' !! t) →
  card_matches cs cf h c = card_matches cs cf' h c.
Proof.
  intros Hagree. unfold card_matches.
  destruct (cs !! h) as [card|] eqn:Hcard; [|done].
  destruct (kind card) as [lc|t| |ec ep ee] eqn:Hk; try done.
  rewrite (Hagree t); [done|]. by exists h, card.
Qed.

(** [traverse] reads the heap at the targets of the amoeba cards only. *)
Lemma traverse_spec_ext (cs : list Card) (cf cf' : gmap loc Configuration)
    (d : Direction) (steps : nat) :
  (∀ t, is_target cs t → cf !! t = cf' !! t) →
  ∀ cur c, traverse_spec cs cf d steps cur c = traverse_spec cs cf' d steps cur c.
Proof.
  intros Hagree. induction steps as [|steps IH]; intros cur c; [done|].
  cbn [traverse_spec]. rewrite (card_matches_ext cs cf cf' cur c Hagree).
  destruct (card_matches cs cf' cur c); [done|].
  destruct (neighbor cs d cur) as [next|]; [|done]. by rewrite IH.
Qed.

Lemma get_next_returned h d w next w' :
  lift_cards (get_next h d) w = (Returned next, w') →
  neighbor (card_store w) d h = Some next ∧ w' = w.
Proof.
  intros Hn. pose proof (get_next_frame _ _ _ _ _ Hn) as ->. split; [|done].
  destruct w as [cs cf g tr]. unfold neighbor. unfold_world_ops.
  destruct (cs !! h) as [c|]; [|done]. simpl in *.
  destruct (decide (d = CLK_WISE));
    [destruct (_clk_wise_neighbor c) | destruct (_counter_clk_wise_neighbor c)];
    by simplify_eq.
Qed.

(** The traversal of the code, where it returns, is [traverse] of the
    specification: the same checks with the same answers, the same card
    returned, and the walked configuration left as [traverse] leaves it.
    The walked configuration is an object of its own, no card's target. *)
Lemma run_steps_refines steps cfg d :
  ∀ cur w c r w',
    run_steps steps cfg cur d w = (Returned r, w') →
    ¬ is_target (card_store w) cfg →
    configs w !! cfg = Some c →
    ∃ checks c',
      traverse_spec (card_store w) (configs w) d steps cur c = (checks, r, c') ∧
      trace w' = trace w ++ checks ∧
      configs w' = <[cfg := c']> (configs w) ∧
      card_store w' = card_store w ∧ rng w' = rng w.
Proof.
  induction steps as [|steps IH]; intros cur w c r w' Hrun Hfresh Hc.
  { injection Hrun as <- <-. exists [], c.
    rewrite app_nil_r, insert_id by done. done. }
  cbn [run_steps] in Hrun.
  apply bind_inv_returned in Hrun as (m & w1 & Hm & Hrun).
  rewrite (bind_returned _ _ _ _ _ (emit_eq _ _)) in Hrun.
  apply (is_matched_returned _ _ _ c) in Hm as (card & Hcard & Hkind); [|done].
  assert (card_matches (card_store w) (configs w) cur c = m ∧
          card_store w1 = card_store w ∧ rng w1 = rng w ∧ trace w1 = trace w ∧
          configs w1 = <[cfg := card_mutates (card_store w) cur c]> (configs w))
    as (Hmatch & Hcs1 & Hrng1 & Htr1 & Hcf1).
  { unfold card_matches, card_mutates. rewrite Hcard.
    destruct (kind card) as [lc|t| |ec ep ee].
    - destruct Hkind as [-> ->]. by rewrite insert_id.
    - destruct Hkind as [-> ->]. by rewrite insert_id.
    - destruct Hkind as [-> ->]. by rewrite insert_id.
    - by destruct Hkind as [-> ->]. }
  cbn [traverse_spec]. rewrite Hmatch. destruct m.
  - injection Hrun as <- <-. exists [EvCheck cur true], c. simpl.
    assert (card_mutates (card_store w) cur c = c) as Hsame.
    { unfold card_matches in Hmatch. unfold card_mutates.
      destruct (card_store w !! cur) as [cd|]; [|done]. by destruct (kind cd). }
    rewrite Htr1, Hcs1, Hrng1, Hcf1, Hsame. done.
  - apply bind_inv_returned in Hrun as (next & w2 & Hn & Hrun).
    apply get_next_returned in Hn as [Hnb ->]. simpl in Hnb. rewrite Hcs1 in Hnb.
    rewrite Hnb.
    apply (IH next _ (card_mutates (card_store w) cur c)) in Hrun
      as (checks & c' & Hspec & Htr & Hcf & Hcs & Hrng).
    + simpl in *. rewrite Hcs1 in Hspec.
      rewrite (traverse_spec_ext (card_store w) (configs w1) (configs w)) in Hspec.
      * rewrite Hspec. exists (EvCheck cur false :: checks), c'.
        split_and!; [done | | | congruence | congruence].
        -- rewrite Htr, Htr1, <- app_assoc. done.
        -- rewrite Hcf, Hcf1. apply insert_insert_eq.
      * intros t Ht. rewrite Hcf1. apply lookup_insert_ne. by intros <-.
    + simpl. by rewrite Hcs1.
    + simpl. rewrite Hcf1. apply lookup_insert_eq.
Qed.

(** C6. On a fully wired ring a traversal returns, never raises, after
    calling [is_matched] on at most 100 cards; the cards checked are
    the entry card and then neighbour after neighbour in the direction
    of travel; the card returned is the first one that matched, and when
    none of 100 cards matched the result is "no match".  The checks, their
    answers, the card returned and the configuration at the end are those
    of [traverse] of the specification: a card is answered to match
    exactly when it is an amoeba card whose target equals the walked
    configuration as the evolution cards visited so far have left it (the
    walked configuration being an object of its own, as in every trial). *)
Theorem run_experiment_bounded (w : World RNG) (configuration : loc)
    (start_lab : handle) (direction : Direction) :
  fully_wired (card_store w) →
  targets_allocated (card_store w) (configs w) →
  is_Some (configs w !! configuration) →
  (start_lab < length (card_store w))%nat →
  ∃ (r : option handle) (w' : World RNG) (checks : list event),
    run_experiment configuration start_lab direction w = (Returned r, w') ∧
    trace w' = trace w ++ checks ∧
    (length checks ≤ 100)%nat ∧
    walk_log (card_store w) direction start_lab checks r ∧
    (r = None → length checks = 100%nat) ∧
    (¬ is_target (card_store w) configuration →
     ∀ c, configs w !! configuration = Some c →
       ∃ c',
         traverse_spec (card_store w) (configs w) direction 100 start_lab c
         = (checks, r, c') ∧
         card_store w' = card_store w ∧
         rng w' = rng w ∧
         configs w' = <[configuration := c']> (configs w)).
Proof.
  intros Hwired Htargets Hcfg Hstart.
  destruct (run_steps_returns MAX_STEPS_PER_RUN configuration direction
              start_lab w Hwired Htargets Hcfg Hstart)
    as (r & w' & checks & Hrun & Htr & Hlog & Hlen & Hnone).
  exists r, w', checks. split_and!; try done.
  intros Hfresh c Hc.
  destruct (run_steps_refines _ _ _ _ _ _ _ _ Hrun Hfresh Hc)
    as (checks' & c' & Hspec & Htr' & Hcf & Hcs & Hrng).
  rewrite Htr in Htr'. apply app_inv_head in Htr' as <-.
  by exists c'.
Qed.
End TraversalTermination.

(** ** The Monte Carlo driver *)

Lemma sum_counts_increment (points : gmap handle Z) (h : handle) (n : Z) :
  points !! h = Some n →
  sum_counts (<[h := n + 1]> points) = sum_counts points + 1.
Proof.
  intros Hh. unfold sum_counts.
  rewrite <- (insert_delete_eq points h (n + 1)).
  rewrite map_fold_insert_L;
    [| intros; lia | apply lookup_delete_eq].
  rewrite (map_fold_delete_L _ _ h n points); [lia | intros; lia | done].
Qed.

Lemma trial_results_app (tr1 tr2 : list event) :
  trial_results (tr1 ++ tr2) = trial_results tr1 ++ trial_results tr2.
Proof.
  induction tr1 as [|[] tr1 IH]; simpl; [done | done | done | by rewrite IH].
Qed.

Lemma draw_populations_app (tr1 tr2 : list event) :
  draw_populations (tr1 ++ tr2) = draw_populations tr1 ++ draw_populations tr2.
Proof.
  induction tr1 as [|[] tr1 IH]; simpl; [done | by rewrite IH | done | done].
Qed.

Lemma checks_no_trial_results (checks : list event) :
  Forall is_check checks →
  trial_results checks = [] ∧ draw_populations checks = [].
Proof.
  induction 1 as [|[] checks He _ IH]; simpl; done.
Qed.

Lemma matched_count_le (results : list (option handle)) :
  matched_count results ≤ Z.of_nat (length results) ∧
  (matched_count results = Z.of_nat (length results) ↔ Forall is_Some results).
Proof.
  unfold matched_count.
  pose proof (length_filter is_Some results) as Hle. split; [lia|].
  induction results as [|r results IH]; [by split|].
  rewrite filter_cons in *. pose proof (length_filter is_Some results).
  destruct (decide (is_Some r)) as [Hr|Hr]; simpl in *.
  - rewrite Forall_cons. split.
    + intros Heq. split; [done|]. apply IH; lia.
    + intros [_ Hall]. apply IH in Hall; lia.
  - split; [lia|]. intros Hall. apply Forall_cons in Hall as [? _]. done.
Qed.

Section DriverRuns.
Context {RNG : Type} (randbelow : nat → RNG → nat * RNG).
Implicit Types w : World RNG.

Lemma objects_kept_refl w : objects_kept w w.
Proof. done. Qed.

Lemma objects_kept_trans w1 w2 w3 :
  objects_kept w1 w2 → objects_kept w2 w3 → objects_kept w1 w3.
Proof.
  intros (Hc1 & Hd1 & Hl1) (Hc2 & Hd2 & Hl2).
  split_and!; [congruence | by etrans |].
  intros l Hl. rewrite Hl2 by (by apply Hd1). by apply Hl1.
Qed.

(** A draw returns the element picked by [_randbelow], moves the random
    source once and touches nothing else. *)
Lemma choice_returned {A} (seq : list A) (x : A) w w' :
  choice randbelow seq w = (Returned x, w') →
  seq !! (randbelow (length seq) (rng w)).1 = Some x ∧
  w' = mkWorld (card_store w) (configs w)
               (randbelow (length seq) (rng w)).2
               (trace w ++ [EvDraw (length seq)]).
Proof.
  unfold choice. destruct seq as [|y seq]; [done|].
  set (l := y :: seq). clearbody l.
  unfold bind, get, put, emit. simpl.
  destruct (randbelow (length l) (rng w)) as [i g]. simpl.
  unfold subscript. destruct (Z.ltb_spec (Z.of_nat i) 0); [lia|].
  destruct (Z.leb_spec 0 (Z.of_nat i)); [|lia].
  rewrite Nat2Z.id. destruct (l !! i); [|done].
  by intros [= -> <-].
Qed.

Lemma new_Configuration_returned c p e w :
  new_Configuration c p e w
  = (Returned (fresh (dom (configs w))),
     mkWorld (card_store w)
             (<[fresh (dom (configs w)) := mkConfiguration c p e]> (configs w))
             (rng w) (trace w)).
Proof. done. Qed.

Lemma touches_fresh_kept (cfg : loc) (c0 : Configuration) g tr w w' :
  cfg ∉ dom (configs w) →
  touches_only cfg
    (mkWorld (card_store w) (<[cfg := c0]> (configs w)) g tr) w' →
  objects_kept w w'.
Proof.
  intros Hfresh (Hcs & _ & Hdom & Hrest). simpl in *.
  assert (∀ l, l ∈ dom (configs w) → l ≠ cfg) as Hne
    by (intros l Hl ->; done).
  split_and!; [done | |].
  - rewrite Hdom, dom_insert_L. apply union_subseteq_r.
  - intros l Hl. rewrite Hrest by (by apply Hne).
    rewrite lookup_insert_ne; [done|]. intros <-. by apply (Hne cfg).
Qed.

(** One trial that returns: its five draws are those of [trial_draws],
    in that order; the traversal runs on a new configuration object;
    the mapping is tallied with the card returned. *)
Lemma trial_returned labs points w points' w' :
  trial randbelow labs points w = (Returned points', w') →
  let '((i_color, i_pattern, i_eye, i_lab, i_direction), g) :=
    trial_draws randbelow labs (rng w) in
  ∃ c p e lab d res w2,
    members !! i_color = Some c ∧
    members !! i_pattern = Some p ∧
    members !! i_eye = Some e ∧
    labs !! i_lab = Some lab ∧
    members !! i_direction = Some d ∧
    run_experiment (fresh (dom (configs w))) lab d
      (mkWorld (card_store w)
               (<[fresh (dom (configs w)) := mkConfiguration c p e]> (configs w))
               g (trace w ++ trial_draw_events labs))
    = (Returned res, w2) ∧
    w' = mkWorld (card_store w2) (configs w2) (rng w2) (trace w2 ++ [EvTrial res]) ∧
    tally points res = Some points'.
Proof.
  unfold trial, trial_draws. intros Hrun.
  apply bind_inv_returned in Hrun as (c & w1 & Hc & Hrun).
  apply choice_returned in Hc as [Hc ->].
  apply bind_inv_returned in Hrun as (p & w1 & Hp & Hrun).
  apply choice_returned in Hp as [Hp ->].
  apply bind_inv_returned in Hrun as (e & w1 & He & Hrun).
  apply choice_returned in He as [He ->].
  rewrite (bind_returned _ _ _ _ _ (new_Configuration_returned _ _ _ _)) in Hrun.
  apply bind_inv_returned in Hrun as (lab & w1 & Hlab & Hrun).
  apply choice_returned in Hlab as [Hlab ->].
  apply bind_inv_returned in Hrun as (d & w1 & Hd & Hrun).
  apply choice_returned in Hd as [Hd ->].
  apply bind_inv_returned in Hrun as (res & w2 & Hres & Hrun).
  rewrite (bind_returned _ _ _ _ _ (emit_eq _ _)) in Hrun.
  simpl in *. revert Hc Hp He Hlab Hd Hres.
  destruct (randbelow 2 (rng w)) as [i1 g1]; simpl.
  destruct (randbelow 2 g1) as [i2 g2]; simpl.
  destruct (randbelow 2 g2) as [i3 g3]; simpl.
  destruct (randbelow (length labs) g3) as [i4 g4]; simpl.
  destruct (randbelow 2 g4) as [i5 g5]; simpl.
  intros Hc Hp He Hlab Hd Hres.
  exists c, p, e, lab, d, res, w2.
  split_and!; try done.
  - rewrite <- Hres. unfold trial_draw_events.
    by rewrite <- !app_assoc.
  - destruct res as [card|]; [destruct (points !! card)|];
      unfold ret, raise in Hrun; by simplify_eq.
  - destruct res as [card|]; simpl; [destruct (points !! card)|];
      unfold ret, raise in Hrun; by simplify_eq.
Qed.

Lemma tally_sum points res points' :
  tally points res = Some points' →
  sum_counts points' = sum_counts points + matched_count [res].
Proof.
  destruct res as [card|]; simpl.
  - destruct (points !! card) as [n|] eqn:Hn; [|done]. intros [= <-].
    by rewrite (sum_counts_increment _ _ _ Hn).
  - intros [= <-]. unfold matched_count. simpl. lia.
Qed.

Lemma trial_effects labs points w points' w' :
  trial randbelow labs points w = (Returned points', w') →
  objects_kept w w' ∧
  ∃ res checks,
    trace w' = trace w ++ trial_draw_events labs ++ checks ++ [EvTrial res] ∧
    Forall is_check checks ∧
    tally points res = Some points'.
Proof.
  intros Hrun. apply trial_returned in Hrun.
  destruct (trial_draws randbelow labs (rng w)) as [[[[[i1 i2] i3] i4] i5] g].
  destruct Hrun as (c & p & e & lab & d & res & w2 & _ & _ & _ & _ & _
                    & Hrun & -> & Htally).
  apply run_steps_frame in Hrun as (Htouch & checks & Htr & Hchecks & _).
  split.
  - apply touches_fresh_kept in Htouch; [|apply is_fresh].
    destruct Htouch as (? & ? & ?). by split_and!.
  - exists res, checks. simpl in *. rewrite Htr, <- !app_assoc. done.
Qed.

Lemma matched_count_app (rs1 rs2 : list (option handle)) :
  matched_count (rs1 ++ rs2) = matched_count rs1 + matched_count rs2.
Proof. unfold matched_count. rewrite filter_app, length_app. lia. Qed.

Lemma trials_effects n labs :
  ∀ points w points' w',
    trials randbelow n labs points w = (Returned points', w') →
    objects_kept w w' ∧
    ∃ new,
      trace w' = trace w ++ new ∧
      length (trial_results new) = n ∧
      sum_counts points' = sum_counts points + matched_count (trial_results new).
Proof.
  induction n as [|n IH]; intros points w points' w' Hrun.
  - injection Hrun as <- <-. split; [done|]. exists [].
    rewrite app_nil_r. split_and!; [done | done |]. unfold matched_count. simpl. lia.
  - cbn [trials] in Hrun.
    apply bind_inv_returned in Hrun as (points1 & w1 & Htrial & Hrun).
    apply trial_effects in Htrial as (Hkept1 & res & checks & Htr1 & Hchecks & Htally).
    apply IH in Hrun as (Hkept2 & new & Htr2 & Hlen & Hsum).
    split; [by eapply objects_kept_trans|].
    exists ((trial_draw_events labs ++ checks ++ [EvTrial res]) ++ new).
    destruct (checks_no_trial_results checks Hchecks) as [Hnil _].
    rewrite !trial_results_app. simpl. rewrite Hnil. simpl.
    split_and!.
    + rewrite Htr2, Htr1, <- !app_assoc. done.
    + by rewrite Hlen.
    + rewrite Hsum, (tally_sum _ _ _ Htally).
      change (res :: trial_results new) with ([res] ++ trial_results new).
      rewrite matched_count_app. lia.
Qed.

Lemma simulate_returned w experiments points w' :
  simulate randbelow (card_refs (card_store w)) experiments w = (Returned points, w') →
  lab_handles (card_store w) ≠ [] ∧
  trials randbelow (Z.to_nat experiments) (lab_handles (card_store w))
    (list_to_map ((λ card, (card, 0)) <$> card_refs (card_store w))) w
  = (Returned points, w').
Proof.
  unfold simulate. rewrite (bind_returned _ _ _ _ _ (lift_lab_cards_of w)).
  destruct (lab_handles (card_store w)); [done|]. done.
Qed.

(** C9. A run of [simulate] that returns leaves every card as it was:
    kind, line number, payload and both neighbour attributes; and every
    [Configuration] object that existed before the run, the targets of
    the amoeba cards among them, still holds the same values.  A
    traversal changes nothing but the [Configuration] object it is given
    to walk. *)
Theorem simulate_keeps_cards (w w' : World RNG) (experiments : Z)
    (points : gmap handle Z) :
  simulate randbelow (card_refs (card_store w)) experiments w = (Returned points, w') →
  card_store w' = card_store w ∧
  (∀ l c, configs w !! l = Some c → configs w' !! l = Some c) ∧
  (∀ h card t c, card_store w !! h = Some card → kind card = AmoebaCard t →
     configs w !! t = Some c →
     card_store w' !! h = Some card ∧ configs w' !! t = Some c) ∧
  (∀ configuration start_lab direction (w1 w2 : World RNG) r,
     run_experiment configuration start_lab direction w1 = (r, w2) →
     card_store w2 = card_store w1 ∧
     ∀ l, l ≠ configuration → configs w2 !! l = configs w1 !! l).
Proof.
  intros Hrun. apply simulate_returned in Hrun as [_ Hrun].
  apply trials_effects in Hrun as ((Hcs & Hdom & Hsame) & _).
  assert (∀ l c, configs w !! l = Some c → configs w' !! l = Some c) as Hobj.
  { intros l c Hl. rewrite Hsame; [done|]. apply elem_of_dom. by exists c. }
  split_and!; [done | done | |].
  - intros h card t c Hcard _ Ht. rewrite Hcs. split; [done|]. by apply Hobj.
  - intros cfg lab d w1 w2 r Hr.
    apply run_steps_frame in Hr as ((? & _ & _ & ?) & _). done.
Qed.
End DriverRuns.

Lemma initial_points_sum (k n : nat) :
  sum_counts (list_to_map ((λ card, (card, 0)) <$> seq k n)) = 0.
Proof.
  unfold sum_counts. revert k. induction n as [|n IH]; intros k; [done|].
  simpl. rewrite map_fold_insert_L.
  - by rewrite IH.
  - intros. lia.
  - apply not_elem_of_list_to_map_1.
    rewrite <- list_fmap_compose. simpl. rewrite list_fmap_id.
    rewrite elem_of_seq. lia.
Qed.

Section DriverCounts.
Context {RNG : Type} (randbelow : nat → RNG → nat * RNG).

(** C1 (as the code has it). When [simulate] returns, the trace holds
    one trial result per trial run, [max 0 experiments] of them; the sum
    of the counts is the number of trials that returned a matched card,
    so it is at most the number of trials run, with equality exactly
    when every trial returned a matched card.  For a count that is not
    negative this is the bound by [experiments]. *)
Theorem simulate_counts_bounded (w w' : World RNG) (experiments : Z)
    (points : gmap handle Z) :
  simulate randbelow (card_refs (card_store w)) experiments w = (Returned points, w') →
  ∃ new,
    trace w' = trace w ++ new ∧
    Z.of_nat (length (trial_results new)) = Z.max 0 experiments ∧
    sum_counts points = matched_count (trial_results new) ∧
    sum_counts points ≤ Z.max 0 experiments ∧
    (sum_counts points = Z.max 0 experiments ↔ Forall is_Some (trial_results new)) ∧
    (0 ≤ experiments →
       sum_counts points ≤ experiments ∧
       (sum_counts points = experiments ↔ Forall is_Some (trial_results new))).
Proof.
  intros Hrun. apply simulate_returned in Hrun as [_ Hrun].
  apply trials_effects in Hrun as (_ & new & Htr & Hlen & Hsum).
  unfold card_refs in Hsum. rewrite initial_points_sum in Hsum.
  destruct (matched_count_le (trial_results new)) as [Hle Hiff].
  assert (Z.of_nat (length (trial_results new)) = Z.max 0 experiments) as Hn
    by lia.
  exists new. rewrite Hsum, Z.add_0_l, <- Hn.
  split_and!; [done | done | done | done | done |].
  intros Hpos. replace experiments with (Z.of_nat (length (trial_results new))) by lia.
  done.
Qed.
End DriverCounts.

(** With a negative experiment count no trial runs: every trial (there
    is none) returned a matched card, and the sum of the counts, 0, is
    neither at most the count nor equal to it. *)
Lemma simulate_negative_count_exceeds :
  lab_at (card_store sample_world) 0 = true ∧
  ∃ points w',
    simulate lcg_randbelow (card_refs (card_store sample_world)) (-1) sample_world
    = (Returned points, w') ∧
    Forall is_Some (trial_results (trace w')) ∧
    sum_counts points = 0 ∧
    ¬ (sum_counts points ≤ -1) ∧
    sum_counts points ≠ -1.
Proof.
  split; [reflexivity|]. eexists _, _. split; [reflexivity|].
  split_and!; [by vm_compute | by vm_compute | |].
  - vm_compute. intros H. by apply H.
  - by vm_compute.
Qed.

(** ** Reproducibility *)

Section Reproducibility.
Context {RNG : Type} (randbelow : nat → RNG → nat * RNG).
Context (pre1 pre2 : list event).
Implicit Types w : World RNG.

Local Abbreviation R := (worlds_agree pre1 pre2).
Local Abbreviation T := (travel_agree pre1 pre2).

Lemma outcomes_agree_bind {A B}
    (Q : A → World RNG → A → World RNG → Prop)
    (Q' : B → World RNG → B → World RNG → Prop)
    (E : World RNG → World RNG → Prop)
    (m1 m2 : M (World RNG) A) (k1 k2 : A → M (World RNG) B) w1 w2 :
  outcomes_agree Q E (m1 w1) (m2 w2) →
  (∀ a1 w1' a2 w2', Q a1 w1' a2 w2' →
     outcomes_agree Q' E (k1 a1 w1') (k2 a2 w2')) →
  outcomes_agree Q' E (bind m1 k1 w1) (bind m2 k2 w2).
Proof.
  unfold bind, outcomes_agree.
  destruct (m1 w1) as [[a1|e1|] w1'], (m2 w2) as [[a2|e2|] w2']; try done.
  intros HQ Hk. by apply Hk.
Qed.

Lemma worlds_agree_emit e w1 w2 :
  R w1 w2 →
  R (mkWorld (card_store w1) (configs w1) (rng w1) (trace w1 ++ [e]))
    (mkWorld (card_store w2) (configs w2) (rng w2) (trace w2 ++ [e])).
Proof.
  intros (? & ? & ? & ? & ? & t & Ht1 & Ht2). split_and!; try done.
  exists (t ++ [e]). simpl. rewrite Ht1, Ht2, !app_assoc. done.
Qed.

Lemma choice_agree {A} (seq : list A) w1 w2 :
  R w1 w2 →
  outcomes_agree (λ a1 w1' a2 w2', a1 = a2 ∧ R w1' w2') R
    (choice randbelow seq w1) (choice randbelow seq w2).
Proof.
  intros HR. unfold choice. destruct seq as [|y seq]; [done|].
  set (l := y :: seq). clearbody l.
  unfold bind, get, put, emit. simpl.
  destruct HR as (Hcs & Hrng & Hta1 & Hta2 & Htg & t & Ht1 & Ht2).
  rewrite Hrng. destruct (randbelow (length l) (rng w2)) as [i g]. simpl.
  assert (R (mkWorld (card_store w1) (configs w1) g (trace w1 ++ [EvDraw (length l)]))
            (mkWorld (card_store w2) (configs w2) g (trace w2 ++ [EvDraw (length l)])))
    as HR'.
  { split_and!; try done. exists (t ++ [EvDraw (length l)]). simpl.
    rewrite Ht1, Ht2, !app_assoc. done. }
  unfold subscript. destruct (Z.of_nat i <? 0); simpl;
    repeat case_match; simpl; done.
Qed.

Lemma worlds_agree_insert l1 l2 x1 x2 w1 w2 :
  R w1 w2 →
  ¬ is_target (card_store w1) l1 → ¬ is_target (card_store w1) l2 →
  R (mkWorld (card_store w1) (<[l1 := x1]> (configs w1)) (rng w1) (trace w1))
    (mkWorld (card_store w2) (<[l2 := x2]> (configs w2)) (rng w2) (trace w2)).
Proof.
  intros (Hcs & Hrng & Hta1 & Hta2 & Htg & Htr) Hn1 Hn2.
  unfold worlds_agree. simpl. split_and!; try done.
  - intros h card t Hcard Hk. apply lookup_insert_is_Some'. right.
    by eapply Hta1.
  - intros h card t Hcard Hk. apply lookup_insert_is_Some'. right.
    by eapply Hta2.
  - intros l Hl. rewrite !lookup_insert_ne; [by apply Htg | |];
      intros <-; done.
Qed.

Lemma new_Configuration_agree c p e w1 w2 :
  R w1 w2 →
  outcomes_agree (λ l1 w1' l2 w2', T l1 l2 w1' w2') R
    (new_Configuration c p e w1) (new_Configuration c p e w2).
Proof.
  intros HR. pose proof HR as (Hcs & Hrng & Hta1 & Hta2 & Htg & Htr). simpl.
  assert (∀ w, targets_allocated (card_store w) (configs w) →
            ¬ is_target (card_store w) (fresh (dom (configs w)))) as Hfresh.
  { intros w Hta Ht. destruct Ht as (h & card & Hcard & Hk).
    apply (is_fresh (dom (configs w))), elem_of_dom. by eapply Hta. }
  pose proof (Hfresh w1 Hta1) as Hf1. pose proof (Hfresh w2 Hta2) as Hf2.
  rewrite <- Hcs in Hf2.
  split_and!; simpl; try done.
  - by apply worlds_agree_insert.
  - by rewrite !lookup_insert_eq.
Qed.

Lemma travel_agree_emit e l1 l2 w1 w2 :
  T l1 l2 w1 w2 →
  T l1 l2 (mkWorld (card_store w1) (configs w1) (rng w1) (trace w1 ++ [e]))
          (mkWorld (card_store w2) (configs w2) (rng w2) (trace w2 ++ [e])).
Proof.
  intros (HR & ? & ? & ?). split_and!; try done. by apply worlds_agree_emit.
Qed.

Lemma travel_agree_evolve l1 l2 w1 w2 c0 ec ep ee :
  T l1 l2 w1 w2 →
  T l1 l2
    (mkWorld (card_store w1) (<[l1 := evolve c0 ec ep ee]> (configs w1))
             (rng w1) (trace w1))
    (mkWorld (card_store w2) (<[l2 := evolve c0 ec ep ee]> (configs w2))
             (rng w2) (trace w2)).
Proof.
  intros (HR & Hn1 & Hn2 & Hl).
  split_and!; simpl; try done.
  - by apply worlds_agree_insert.
  - by rewrite !lookup_insert_eq.
Qed.

Lemma lift_deref_eq h w :
  lift_cards (deref h) w
  = (match card_store w !! h with
     | Some c => Returned c
     | None => Raised DanglingReference
     end, w).
Proof.
  destruct w as [cs cf g tr]. unfold lift_cards, deref, bind, get. simpl.
  by destruct (cs !! h).
Qed.

Lemma read_config_eq l w :
  read_config l w
  = (match configs w !! l with
     | Some c => Returned c
     | None => Raised DanglingReference
     end, w).
Proof. unfold read_config, bind, get. simpl. by destruct (configs w !! l). Qed.

Lemma is_matched_eq h l w :
  is_matched h l w
  = match card_store w !! h with
    | None => (Raised DanglingReference, w)
    | Some card =>
        match kind card with
        | LabCard _ | VentCard => (Returned false, w)
        | AmoebaCard t =>
            match configs w !! t, configs w !! l with
            | Some mine, Some other => (Returned (bool_decide (mine = other)), w)
            | _, _ => (Raised DanglingReference, w)
            end
        | EvolutionCard ec ep ee =>
            match configs w !! l with
            | Some c0 =>
                (Returned false,
                 mkWorld (card_store w) (<[l := evolve c0 ec ep ee]> (configs w))
                         (rng w) (trace w))
            | None => (Raised DanglingReference, w)
            end
        end
    end.
Proof.
  unfold is_matched. unfold bind at 1. rewrite lift_deref_eq.
  destruct (card_store w !! h) as [card|]; [|done].
  destruct (kind card) as [lc|t| |ec ep ee]; try done.
  - unfold bind at 1. rewrite read_config_eq.
    destruct (configs w !! t); [|by destruct (configs w !! l)].
    unfold bind. rewrite read_config_eq. by destruct (configs w !! l).
  - unfold evolve_in_place, bind. rewrite read_config_eq.
    by destruct (configs w !! l).
Qed.

Lemma is_matched_agree h l1 l2 w1 w2 :
  T l1 l2 w1 w2 →
  outcomes_agree (λ m1 w1' m2 w2', m1 = m2 ∧ T l1 l2 w1' w2') R
    (is_matched h l1 w1) (is_matched h l2 w2).
Proof.
  intros HT. pose proof HT as ((Hcs & Hrng & Hta1 & Hta2 & Htg & Htr) & Hn1 & Hn2 & Hl).
  pose proof HT as [HR _].
  assert (card_store w2 !! h = card_store w1 !! h) as Hh by (by rewrite Hcs).
  rewrite !is_matched_eq, Hh.
  destruct (card_store w1 !! h) as [card|] eqn:Hcard; [|done].
  destruct (kind card) as [lc|t| |ec ep ee] eqn:Hk; try done.
  - rewrite <- (Htg t) by (by exists h, card). rewrite <- Hl.
    destruct (configs w1 !! t) as [ct|]; [|done].
    destruct (configs w1 !! l1); done.
  - rewrite <- Hl. destruct (configs w1 !! l1) as [c0|]; [|done].
    simpl. split; [done|]. by apply travel_agree_evolve.
Qed.

Lemma get_next_agree h d l1 l2 w1 w2 :
  T l1 l2 w1 w2 →
  outcomes_agree (λ n1 w1' n2 w2', n1 = n2 ∧ T l1 l2 w1' w2') R
    (lift_cards (get_next h d) w1) (lift_cards (get_next h d) w2).
Proof.
  intros HT. pose proof HT as [HR _]. pose proof HR as (Hcs & _).
  assert (∀ w, lift_cards (get_next h d) w
    = (match card_store w !! h with
       | Some c =>
           match (if decide (d = CLK_WISE) then _clk_wise_neighbor c
                  else _counter_clk_wise_neighbor c) with
           | Some n => Returned n
           | None => Raised (NeighborsNotConfigured (line_number c))
           end
       | None => Raised DanglingReference
       end, w)) as Heq.
  { intros [cs cf g tr]. unfold lift_cards, get_next, deref, bind, get. simpl.
    destruct (cs !! h) as [c|]; [|done]. simpl.
    by destruct (if decide (d = CLK_WISE) then _ else _). }
  assert (card_store w2 !! h = card_store w1 !! h) as Hh by (by rewrite Hcs).
  rewrite !Heq, Hh.
  destruct (card_store w1 !! h) as [c|]; [|done].
  destruct (if decide (d = CLK_WISE) then _ else _); done.
Qed.

Lemma run_steps_agree steps d l1 l2 :
  ∀ cur w1 w2,
    T l1 l2 w1 w2 →
    outcomes_agree (λ r1 w1' r2 w2', r1 = r2 ∧ R w1' w2') R
      (run_steps steps l1 cur d w1) (run_steps steps l2 cur d w2).
Proof.
  induction steps as [|steps IH]; intros cur w1 w2 HT.
  - simpl. split; [done|]. by destruct HT.
  - cbn [run_steps].
    eapply outcomes_agree_bind; [by apply is_matched_agree|].
    intros m w1' ? w2' [<- HT'].
    eapply outcomes_agree_bind.
    { apply (travel_agree_emit (EvCheck cur m)) in HT'.
      instantiate (1 := λ _ w1e _ w2e, T l1 l2 w1e w2e). exact HT'. }
    intros [] w1e [] w2e HTe. destruct m.
    + simpl. split; [done|]. by destruct HTe.
    + eapply outcomes_agree_bind; [by apply get_next_agree|].
      intros n w1n ? w2n [<- HTn]. by apply IH.
Qed.

Lemma trial_agree labs points w1 w2 :
  R w1 w2 →
  outcomes_agree (λ p1 w1' p2 w2', p1 = p2 ∧ R w1' w2') R
    (trial randbelow labs points w1) (trial randbelow labs points w2).
Proof.
  intros HR. unfold trial.
  eapply outcomes_agree_bind; [by apply choice_agree|].
  intros c w1a ? w2a [<- HRa].
  eapply outcomes_agree_bind; [by apply choice_agree|].
  intros p w1b ? w2b [<- HRb].
  eapply outcomes_agree_bind; [by apply choice_agree|].
  intros e w1c ? w2c [<- HRc].
  eapply outcomes_agree_bind; [by apply new_Configuration_agree|].
  intros l1 w1d l2 w2d HTd.
  eapply outcomes_agree_bind.
  { instantiate (1 := λ a1 w1' a2 w2', a1 = a2 ∧ T l1 l2 w1' w2').
    destruct HTd as (HRd & Hn1 & Hn2 & Hl).
    pose proof (choice_agree labs w1d w2d HRd) as Hch.
    pose proof (choice_returned randbelow labs) as Hw.
    destruct (choice randbelow labs w1d) as [[a1| |] w1'] eqn:H1,
             (choice randbelow labs w2d) as [[a2| |] w2'] eqn:H2; try done.
    destruct Hch as [<- HR']. split; [done|].
    apply Hw in H1 as [_ ->]. apply Hw in H2 as [_ ->]. simpl.
    split_and!; done. }
  intros lab w1e ? w2e [<- HTe].
  eapply outcomes_agree_bind.
  { instantiate (1 := λ a1 w1' a2 w2', a1 = a2 ∧ T l1 l2 w1' w2').
    destruct HTe as (HRe & Hn1 & Hn2 & Hl).
    pose proof (choice_agree (members (A:=Direction)) w1e w2e HRe) as Hch.
    pose proof (choice_returned randbelow (members (A:=Direction))) as Hw.
    destruct (choice randbelow members w1e) as [[a1| |] w1'] eqn:H1,
             (choice randbelow members w2e) as [[a2| |] w2'] eqn:H2; try done.
    destruct Hch as [<- HR']. split; [done|].
    apply Hw in H1 as [_ ->]. apply Hw in H2 as [_ ->]. simpl.
    split_and!; done. }
  intros d w1f ? w2f [<- HTf].
  eapply outcomes_agree_bind; [by apply run_steps_agree|].
  intros res w1g ? w2g [<- HRg].
  eapply outcomes_agree_bind.
  { apply (worlds_agree_emit (EvTrial res)) in HRg.
    instantiate (1 := λ _ w1' _ w2', R w1' w2'). exact HRg. }
  intros [] w1h [] w2h HRh.
  destruct res as [card|]; [destruct (points !! card)|]; done.
Qed.

Lemma trials_agree n labs :
  ∀ points w1 w2,
    R w1 w2 →
    outcomes_agree (λ p1 w1' p2 w2', p1 = p2 ∧ R w1' w2') R
      (trials randbelow n labs points w1) (trials randbelow n labs points w2).
Proof.
  induction n as [|n IH]; intros points w1 w2 HR; [done|].
  cbn [trials]. eapply outcomes_agree_bind; [by apply trial_agree|].
  intros p w1' ? w2' [<- HR']. by apply IH.
Qed.

Lemma simulate_agree experiments w1 w2 :
  R w1 w2 →
  outcomes_agree (λ p1 w1' p2 w2', p1 = p2 ∧ R w1' w2') R
    (simulate randbelow (card_refs (card_store w1)) experiments w1)
    (simulate randbelow (card_refs (card_store w2)) experiments w2).
Proof.
  intros HR. pose proof HR as (Hcs & _). unfold simulate.
  rewrite (bind_returned _ _ _ _ _ (lift_lab_cards_of w1)).
  rewrite (bind_returned _ _ _ _ _ (lift_lab_cards_of w2)).
  rewrite <- Hcs. destruct (lab_handles (card_store w1)) eqn:Hlabs; [done|].
  rewrite <- Hlabs. by apply trials_agree.
Qed.
End Reproducibility.

Lemma count_of_cons (res : option handle) (results : list (option handle))
    (h : handle) :
  count_of (res :: results) h
  = (if decide (res = Some h) then 1 else 0) + count_of results h.
Proof.
  unfold count_of. rewrite filter_cons.
  destruct (decide (res = Some h)); simpl; lia.
Qed.

(** [points[card] += 1] adds one to the count of the card returned and
    leaves the other counts. *)
Lemma tally_lookup (points points' : gmap handle Z) (res : option handle)
    (h : handle) :
  tally points res = Some points' →
  points' !! h = (λ k, k + count_of [res] h) <$> points !! h.
Proof.
  intros Htally. rewrite count_of_cons.
  change (count_of [] h) with 0.
  destruct res as [card|]; simpl in Htally.
  - destruct (points !! card) as [n|] eqn:Hn; [|done]. injection Htally as <-.
    destruct (decide (Some card = Some h)) as [[= ->]|Hne].
    + rewrite lookup_insert_eq, Hn. simpl. f_equal; lia.
    + rewrite lookup_insert_ne by congruence.
      destruct (points !! h); simpl; [f_equal; lia | done].
  - injection Htally as <-. rewrite decide_False by done.
    destruct (points !! h); simpl; [f_equal; lia | done].
Qed.

(** With a population that holds no element twice, [choice] returns each
    of its elements for exactly one answer of [_randbelow], and no other
    value for any. *)
Lemma selecting_indices_present {A} `{EqDecision A} (population : list A) (x : A) :
  NoDup population → x ∈ population →
  ∃ i, selecting_indices population x = [i].
Proof.
  intros Hnd Hx. apply list_elem_of_lookup in Hx as [i Hi]. exists i.
  unfold selecting_indices.
  set (k := filter (λ j, population !! j = Some x) (seq 0 (length population))).
  assert (NoDup k) as Hnd' by (apply NoDup_filter, NoDup_seq).
  assert (∀ j, j ∈ k ↔ j = i) as Hall.
  { intros j. unfold k. rewrite list_elem_of_filter, elem_of_seq. split.
    - intros [Hj _]. exact (NoDup_lookup population j i x Hnd Hj Hi).
    - intros ->. split; [done|]. apply lookup_lt_Some in Hi. lia. }
  clearbody k. destruct k as [|a k].
  { assert (i ∈ @nil nat) as Hin by (by apply Hall). inversion Hin. }
  assert (a = i) as -> by (apply Hall; left).
  apply NoDup_cons in Hnd' as [Hnotin _].
  destruct k as [|b k]; [done|].
  assert (b = i) as -> by (apply Hall; right; left).
  exfalso. apply Hnotin. left.
Qed.

Lemma selecting_indices_absent {A} `{EqDecision A} (population : list A) (x : A) :
  x ∉ population → selecting_indices population x = [].
Proof.
  intros Hx. unfold selecting_indices.
  set (k := filter (λ j, population !! j = Some x) (seq 0 (length population))).
  assert (∀ j, j ∈ k → False) as Hnone.
  { intros j Hj. unfold k in Hj. apply list_elem_of_filter in Hj as [Hj _].
    apply Hx. by eapply list_elem_of_lookup_2. }
  clearbody k. destruct k as [|a k]; [done|]. exfalso. apply (Hnone a). left.
Qed.

Lemma lab_handles_NoDup (cs : list Card) : NoDup (lab_handles cs).
Proof. unfold lab_handles. apply NoDup_filter, NoDup_seq. Qed.

Section ReproducibleRuns.
Context {RNG : Type} (randbelow : nat → RNG → nat * RNG).

(** One trial of the code that returns is the trial of the specification:
    the five draws in its order, from the state of the random source the
    trial began with, and [traverse] from what they select.  The heap
    [cf0] is the heap the run began with: it holds the targets of the
    amoeba cards, and a trial adds objects without changing it. *)
Lemma trial_refines labs points (w : World RNG) points' w'
    (cf0 : gmap loc Configuration) :
  trial randbelow labs points w = (Returned points', w') →
  targets_allocated (card_store w) cf0 →
  cf0 ⊆ configs w →
  ∃ t,
    trial_spec randbelow (card_store w) cf0 labs (rng w) = (Some t, rng w') ∧
    trace w' = trace w ++ trial_events labs t ∧
    tally points t.2 = Some points' ∧
    card_store w' = card_store w ∧
    cf0 ⊆ configs w'.
Proof.
  intros Hrun Hta Hsub. apply trial_returned in Hrun. unfold trial_spec.
  destruct (trial_draws randbelow labs (rng w)) as [[[[[i1 i2] i3] i4] i5] g].
  destruct Hrun as (c & p & e & lab & d & res & w2 & Hc & Hp & He & Hlab & Hd
                    & Hrun & -> & Htally).
  set (cfg := fresh (dom (configs w))) in *.
  assert (configs w !! cfg = None) as Hnew by apply not_elem_of_dom, is_fresh.
  assert (∀ t, is_target (card_store w) t → t ≠ cfg ∧ configs w !! t = cf0 !! t)
    as Htargets.
  { intros t (h & card & Hcard & Hk).
    destruct (Hta h card t Hcard Hk) as [v Hv].
    pose proof (lookup_weaken _ _ _ _ Hv Hsub) as Hv'.
    split; [|congruence]. intros ->. congruence. }
  unfold run_experiment in Hrun.
  apply (run_steps_refines _ _ _ _ _ (mkConfiguration c p e)) in Hrun
    as (checks & c' & Hspec & Htr & Hcf & Hcs & Hrng).
  - cbn [card_store configs rng trace] in *.
    rewrite (traverse_spec_ext (card_store w) _ cf0) in Hspec.
    + exists (checks, res). rewrite Hc, Hp, He, Hlab, Hd. cbn [mbind option_bind].
      rewrite Hspec. unfold trial_events. cbn [fst snd].
      split_and!; [by rewrite Hrng | by rewrite Htr, <- !app_assoc | done | done |].
      rewrite Hcf, insert_insert_eq. etrans; [exact Hsub|].
      by apply insert_subseteq.
    + intros t Ht. destruct (Htargets t Ht) as [Hne <-].
      by apply lookup_insert_ne.
  - simpl. intros Ht. by destruct (Htargets cfg Ht).
  - simpl. apply lookup_insert_eq.
Qed.

(** The loop of [simulate], where it returns, is the sequence of trials
    of the specification, and the mapping counts their results. *)
Lemma trials_refine n labs (cf0 : gmap loc Configuration) :
  ∀ points (w : World RNG) points' w',
    trials randbelow n labs points w = (Returned points', w') →
    targets_allocated (card_store w) cf0 →
    cf0 ⊆ configs w →
    ∃ ts,
      trials_spec randbelow (card_store w) cf0 labs n (rng w) = (Some ts, rng w') ∧
      length ts = n ∧
      trace w' = trace w ++ mjoin (trial_events labs <$> ts) ∧
      ∀ h, points' !! h = (λ k, k + count_of ts.*2 h) <$> points !! h.
Proof.
  induction n as [|n IH]; intros points w points' w' Hrun Hta Hsub.
  - injection Hrun as <- <-. exists []. simpl. rewrite app_nil_r.
    split_and!; try done. intros h. change (count_of [] h) with 0.
    destruct (points !! h); simpl; [f_equal; lia | done].
  - cbn [trials] in Hrun.
    apply bind_inv_returned in Hrun as (points1 & w1 & Htrial & Hrun).
    destruct (trial_refines _ _ _ _ _ cf0 Htrial Hta Hsub)
      as (t & Hspec1 & Htr1 & Htally & Hcs1 & Hsub1).
    apply IH in Hrun as (ts & Hspec & Hlen & Htr & Hcount);
      [| by rewrite Hcs1 | done].
    exists (t :: ts). cbn [trials_spec]. rewrite Hspec1.
    rewrite Hcs1 in Hspec. rewrite Hspec.
    split_and!; [done | by rewrite <- Hlen | |].
    + rewrite Htr, Htr1. simpl. by rewrite <- app_assoc.
    + intros h. rewrite Hcount, (tally_lookup _ _ _ h Htally).
      rewrite fmap_cons, (count_of_cons t.2 ts.*2), (count_of_cons t.2 []).
      change (count_of [] h) with 0.
      destruct (points !! h); simpl; [f_equal; lia | done].
Qed.

(** C5. Two runs of [simulate] on the same cards, with random sources in
    the same state and heaps that agree on the amoeba targets, end the
    same way: the same mapping (or the same exception), the random
    sources again in the same state, the traces grown by the same events.

    A run that returns is the run of the specification: as many trials
    as the experiment count, one after the other; every trial draws in
    the order colour, pattern, eye value, lab card among all lab cards,
    direction, each draw from the state of the random source the draw
    before has left; the traversal starts from what was drawn; and the
    count of a card is the number of trials that returned it.

    Every draw is [population[_randbelow(len(population))]] on a
    population that holds every candidate once: each colour, pattern, eye
    value and direction, and each lab card of the sequence (and no other
    card), is selected by exactly one of the equally likely answers of
    [_randbelow]. *)
Theorem simulate_reproducible (w1 w2 : World RNG) (experiments : Z) :
  card_store w1 = card_store w2 →
  rng w1 = rng w2 →
  targets_allocated (card_store w1) (configs w1) →
  targets_allocated (card_store w2) (configs w2) →
  (∀ l, is_target (card_store w1) l → configs w1 !! l = configs w2 !! l) →
  let run1 := simulate randbelow (card_refs (card_store w1)) experiments w1 in
  let run2 := simulate randbelow (card_refs (card_store w2)) experiments w2 in
  let lab_cards := lab_handles (card_store w1) in
  run1.1 = run2.1 ∧
  rng run1.2 = rng run2.2 ∧
  (∃ t, trace run1.2 = trace w1 ++ t ∧ trace run2.2 = trace w2 ++ t) ∧
  (∀ points w',
     run1 = (Returned points, w') →
     ∃ ts,
       trials_spec randbelow (card_store w1) (configs w1) lab_cards
         (Z.to_nat experiments) (rng w1)
       = (Some ts, rng w') ∧
       length ts = Z.to_nat experiments ∧
       trace w' = trace w1 ++ mjoin (trial_events lab_cards <$> ts) ∧
       (∀ h, (h < length (card_store w1))%nat →
          points !! h = Some (count_of ts.*2 h)) ∧
       (∀ h, (length (card_store w1) ≤ h)%nat → points !! h = None)) ∧
  (∀ h, lab_at (card_store w1) h = true →
     ∃ i, selecting_indices lab_cards h = [i]) ∧
  (∀ h, lab_at (card_store w1) h = false → selecting_indices lab_cards h = []) ∧
  (∀ c : AmoebaColor, ∃ i, selecting_indices members c = [i]) ∧
  (∀ p : Pattern, ∃ i, selecting_indices members p = [i]) ∧
  (∀ e : Eye, ∃ i, selecting_indices members e = [i]) ∧
  (∀ d : Direction, ∃ i, selecting_indices members d = [i]).
Proof.
  intros Hcs Hrng Hta1 Hta2 Htg run1 run2 lab_cards.
  assert (worlds_agree (trace w1) (trace w2) w1 w2) as HR.
  { split_and!; try done. exists []. by rewrite !app_nil_r. }
  pose proof (simulate_agree randbelow _ _ experiments w1 w2 HR) as Hagree.
  fold run1 run2 in Hagree.
  assert (run1.1 = run2.1 ∧ worlds_agree (trace w1) (trace w2) run1.2 run2.2)
    as [Hout (_ & Hrng' & _ & _ & _ & Htr)].
  { destruct run1 as [[p1|e1|] w1'], run2 as [[p2|e2|] w2']; simpl in *;
      try done.
    - by destruct Hagree as [-> ?].
    - by destruct Hagree as [-> ?]. }
  split_and!; try done.
  - intros points w' Hrun. apply simulate_returned in Hrun as [_ Hrun].
    apply (trials_refine _ _ (configs w1)) in Hrun as (ts & Hspec & Hlen & Htr' & Hcount);
      [|done|done].
    exists ts. split_and!; try done.
    + intros h Hh. rewrite Hcount. unfold card_refs.
      rewrite initial_points_lookup, decide_True by done. simpl; f_equal; lia.
    + intros h Hh. rewrite Hcount. unfold card_refs.
      by rewrite initial_points_lookup, decide_False by lia.
  - intros h Hlab. apply selecting_indices_present; [apply lab_handles_NoDup|].
    by apply elem_of_lab_handles.
  - intros h Hlab. apply selecting_indices_absent.
    intros Hin. apply elem_of_lab_handles in Hin. congruence.
  - intros []; by eexists.
  - intros []; by eexists.
  - intros []; by eexists.
  - intros []; by eexists.
Qed.
End ReproducibleRuns.

(** * The code on the sample rings *)

Example rotate_enum_value_wraps :
  _rotate_enum_value LAB_RED = LAB_GREEN ∧
  _rotate_enum_value LAB_YELLOW = LAB_RED ∧
  _rotate_enum_value RED = BLUE ∧
  _rotate_enum_value BLUE = RED.
Proof. by vm_compute. Qed.

Example evolve_two_axes :
  evolve (mkConfiguration RED DOTTY SINGLE) true false true
  = mkConfiguration BLUE DOTTY DOUBLE.
Proof. reflexivity. Qed.

(** Lab, vent, amoeba, vent, evolution: each vent is linked past the
    other vent. *)
Example ring_two_vents_links :
  configure_neighbors 5 (card_refs ring_two_vents) ring_two_vents
  = (Returned tt,
     [ mkCard (LabCard LAB_RED) 1 (Some 1%nat) (Some 4%nat);
       mkCard VentCard 2 (Some 4%nat) (Some 2%nat);
       mkCard (AmoebaCard 0) 3 (Some 3%nat) (Some 1%nat);
       mkCard VentCard 4 (Some 2%nat) (Some 0%nat);
       mkCard (EvolutionCard true false false) 5 (Some 0%nat) (Some 3%nat) ]).
Proof. reflexivity. Qed.

Example ring_only_vents_out_of_fuel :
  (configure_neighbors 50 (card_refs ring_only_vents) ring_only_vents).1
  = OutOfFuel.
Proof. reflexivity. Qed.

(** Red, dotty, single-eyed from the lab, clockwise: the amoeba is missed
    once, the evolution card turns red into blue, the amoeba matches on the
    second lap. *)
Example walking_world_traversal :
  let run := run_experiment 1%nat 0%nat CLK_WISE walking_world in
  run.1 = Returned (Some 2%nat) ∧
  trace run.2 = [ EvCheck 0 false; EvCheck 1 false; EvCheck 2 false;
                  EvCheck 3 false; EvCheck 0 false; EvCheck 1 false;
                  EvCheck 2 true ] ∧
  configs run.2 !! 1%nat = Some (mkConfiguration BLUE DOTTY SINGLE).
Proof. by vm_compute. Qed.

(** A traversal before the topology builder has run. *)
Example unwired_traversal_raises :
  (run_experiment 1%nat 0%nat CLK_WISE
     (mkWorld ring_one_vent (configs walking_world) (42 : Z) [])).1
  = Raised (NeighborsNotConfigured 1).
Proof. reflexivity. Qed.

Example sample_run_counts :
  let run := simulate lcg_randbelow (card_refs (card_store sample_world)) 40
               sample_world in
  let points := returned_value ∅ run.1 in
  points !! 0%nat = Some 0 ∧ points !! 1%nat = Some 0 ∧
  points !! 2%nat = Some 11 ∧ points !! 3%nat = Some 0 ∧
  points !! 4%nat = None ∧
  sum_counts points = 11 ∧
  length (trial_results (trace run.2)) = 40%nat ∧
  length (draw_populations (trace run.2)) = 200%nat.
Proof. by vm_compute. Qed.

(** * The properties on the sample rings *)

Lemma ring_one_vent_wired_fully_wired : fully_wired ring_one_vent_wired.
Proof.
  intros h c Hc. destruct h as [|[|[|[|h]]]]; vm_compute in Hc;
    [injection Hc as <- ..| discriminate];
    eexists _, _; (split_and!; [reflexivity | reflexivity | vm_compute; lia ..]).
Defined.

Lemma ring_one_vent_wired_targets (cf : gmap loc Configuration) :
  is_Some (cf !! 0%nat) → targets_allocated ring_one_vent_wired cf.
Proof.
  intros H0 h c t Hc Hk. destruct h as [|[|[|[|h]]]]; vm_compute in Hc;
    [injection Hc as <- ..| discriminate]; simpl in Hk;
    try discriminate. by injection Hk as <-.
Defined.

Lemma ring_one_vent_wired_is_target (l : loc) :
  is_target ring_one_vent_wired l → l = 0%nat.
Proof.
  intros (h & c & Hc & Hk). destruct h as [|[|[|[|h]]]]; vm_compute in Hc;
    [injection Hc as <- ..| discriminate]; simpl in Hk;
    try discriminate. by injection Hk as <-.
Defined.

Lemma simulate_counts_bounded_witness :
  let run := simulate lcg_randbelow (card_refs (card_store sample_world)) 40
               sample_world in
  run = (Returned (returned_value ∅ run.1), run.2) ∧
  ∃ new,
    trace run.2 = trace sample_world ++ new ∧
    Z.of_nat (length (trial_results new)) = Z.max 0 40 ∧
    sum_counts (returned_value ∅ run.1) = matched_count (trial_results new) ∧
    sum_counts (returned_value ∅ run.1) ≤ Z.max 0 40 ∧
    (sum_counts (returned_value ∅ run.1) = Z.max 0 40
       ↔ Forall is_Some (trial_results new)) ∧
    (0 ≤ 40 →
       sum_counts (returned_value ∅ run.1) ≤ 40 ∧
       (sum_counts (returned_value ∅ run.1) = 40
          ↔ Forall is_Some (trial_results new))).
Proof.
  intros run.
  assert (run = (Returned (returned_value ∅ run.1), run.2)) as Hrun
    by (vm_compute; reflexivity).
  split; [exact Hrun|].
  exact (simulate_counts_bounded lcg_randbelow sample_world run.2 40
           (returned_value ∅ run.1) Hrun).
Defined.

Lemma simulate_without_lab_raises_witness :
  (∀ h, lab_at (card_store no_lab_world) h = false) ∧
  simulate lcg_randbelow (card_refs (card_store no_lab_world)) 10 no_lab_world
  = (Raised NoLabCards, no_lab_world).
Proof.
  assert (∀ h, lab_at (card_store no_lab_world) h = false) as Hnone
    by (intros [|[|h]]; reflexivity).
  split; [exact Hnone|].
  exact (simulate_without_lab_raises lcg_randbelow no_lab_world 10 Hnone).
Defined.

Lemma vents_rerouted_past_adjacent_vent_witness :
  (length ring_two_vents ≤ 5)%nat ∧
  ((2 ≤ length (vent_indices ring_two_vents))%nat → has_non_vent ring_two_vents) ∧
  ∃ cs',
    configure_neighbors 5 (card_refs ring_two_vents) ring_two_vents
    = (Returned tt, cs') ∧
    ∀ p, (p < length (vent_indices ring_two_vents))%nat →
         vent_rerouted ring_two_vents cs' p.
Proof.
  assert ((length ring_two_vents ≤ 5)%nat) as Hfuel by (simpl; lia).
  assert ((2 ≤ length (vent_indices ring_two_vents))%nat →
          has_non_vent ring_two_vents) as Hnv.
  { intros _. exists 0%nat. split; [simpl; lia | reflexivity]. }
  split; [exact Hfuel|]. split; [exact Hnv|].
  destruct (vents_rerouted_past_adjacent_vent ring_two_vents 5 Hfuel Hnv)
    as (_ & _ & cs' & Hrun & _ & Hmany & _).
  exists cs'. split; [exact Hrun|]. apply Hmany. vm_compute. lia.
Defined.

Lemma configure_neighbors_only_vents_diverges_witness :
  (2 ≤ length ring_only_vents)%nat ∧
  (∀ h, (h < length ring_only_vents)%nat → vent_at ring_only_vents h = true) ∧
  ∃ s, configure_neighbors 1000 (card_refs ring_only_vents) ring_only_vents
       = (OutOfFuel, s).
Proof.
  assert ((2 ≤ length ring_only_vents)%nat) as Hlen by (simpl; lia).
  assert (∀ h, (h < length ring_only_vents)%nat →
               vent_at ring_only_vents h = true) as Hall.
  { intros [|[|h]] Hh; [reflexivity | reflexivity | simpl in Hh; lia]. }
  split; [exact Hlen|]. split; [exact Hall|].
  exact (configure_neighbors_only_vents_diverges ring_only_vents 1000 Hlen Hall).
Defined.

Lemma simulate_reproducible_witness :
  let run1 := simulate lcg_randbelow (card_refs (card_store sample_world)) 40
                sample_world in
  let run2 := simulate lcg_randbelow (card_refs (card_store sample_world_later)) 40
                sample_world_later in
  let lab_cards := lab_handles (card_store sample_world) in
  let points := returned_value ∅ run1.1 in
  card_store sample_world = card_store sample_world_later ∧
  rng sample_world = rng sample_world_later ∧
  targets_allocated (card_store sample_world) (configs sample_world) ∧
  targets_allocated (card_store sample_world_later) (configs sample_world_later) ∧
  (∀ l, is_target (card_store sample_world) l →
        configs sample_world !! l = configs sample_world_later !! l) ∧
  run1.1 = run2.1 ∧
  rng run1.2 = rng run2.2 ∧
  (∃ t, trace run1.2 = trace sample_world ++ t ∧
        trace run2.2 = trace sample_world_later ++ t) ∧
  run1 = (Returned points, run1.2) ∧
  (∃ ts,
     trials_spec lcg_randbelow (card_store sample_world) (configs sample_world)
       lab_cards (Z.to_nat 40) (rng sample_world)
     = (Some ts, rng run1.2) ∧
     length ts = Z.to_nat 40 ∧
     trace run1.2 = trace sample_world ++ mjoin (trial_events lab_cards <$> ts) ∧
     (∀ h, (h < length (card_store sample_world))%nat →
        points !! h = Some (count_of ts.*2 h)) ∧
     (∀ h, (length (card_store sample_world) ≤ h)%nat → points !! h = None)) ∧
  lab_at (card_store sample_world) 0 = true ∧
  (∃ i, selecting_indices lab_cards 0%nat = [i]) ∧
  (∀ d : Direction, ∃ i, selecting_indices members d = [i]).
Proof.
  intros run1 run2 lab_cards points.
  assert (targets_allocated (card_store sample_world) (configs sample_world))
    as Hta1 by (apply ring_one_vent_wired_targets; by eexists).
  assert (targets_allocated (card_store sample_world_later)
            (configs sample_world_later))
    as Hta2 by (apply ring_one_vent_wired_targets; by eexists).
  assert (∀ l, is_target (card_store sample_world) l →
               configs sample_world !! l = configs sample_world_later !! l) as Htg.
  { intros l Hl. apply ring_one_vent_wired_is_target in Hl as ->. reflexivity. }
  assert (run1 = (Returned points, run1.2)) as Hrun by (vm_compute; reflexivity).
  assert (lab_at (card_store sample_world) 0 = true) as Hlab by reflexivity.
  destruct (simulate_reproducible lcg_randbelow sample_world sample_world_later 40
              eq_refl eq_refl Hta1 Hta2 Htg)
    as (Hout & Hrng & Htr & Hspec & Hlabs & _ & _ & _ & _ & Hdir).
  split_and!; [reflexivity | reflexivity | exact Hta1 | exact Hta2 | exact Htg
              | exact Hout | exact Hrng | exact Htr | exact Hrun
              | exact (Hspec points run1.2 Hrun) | exact Hlab
              | exact (Hlabs 0%nat Hlab) | exact Hdir].
Defined.

Lemma run_experiment_bounded_witness :
  fully_wired (card_store walking_world) ∧
  targets_allocated (card_store walking_world) (configs walking_world) ∧
  is_Some (configs walking_world !! 1%nat) ∧
  (0 < length (card_store walking_world))%nat ∧
  ¬ is_target (card_store walking_world) 1%nat ∧
  configs walking_world !! 1%nat = Some (mkConfiguration RED DOTTY SINGLE) ∧
  ∃ r w' checks,
    run_experiment 1%nat 0%nat CLK_WISE walking_world = (Returned r, w') ∧
    trace w' = trace walking_world ++ checks ∧
    (length checks ≤ 100)%nat ∧
    walk_log (card_store walking_world) CLK_WISE 0%nat checks r ∧
    (r = None → length checks = 100%nat) ∧
    ∃ c',
      traverse_spec (card_store walking_world) (configs walking_world)
        CLK_WISE 100 0%nat (mkConfiguration RED DOTTY SINGLE)
      = (checks, r, c') ∧
      card_store w' = card_store walking_world ∧
      rng w' = rng walking_world ∧
      configs w' = <[1%nat := c']> (configs walking_world).
Proof.
  assert (targets_allocated (card_store walking_world) (configs walking_world))
    as Hta by (apply ring_one_vent_wired_targets; by eexists).
  assert (is_Some (configs walking_world !! 1%nat)) as Hcfg by (by eexists).
  assert ((0 < length (card_store walking_world))%nat) as Hstart
    by (vm_compute; lia).
  assert (¬ is_target (card_store walking_world) 1%nat) as Hown.
  { intros Ht. apply ring_one_vent_wired_is_target in Ht. discriminate. }
  assert (configs walking_world !! 1%nat = Some (mkConfiguration RED DOTTY SINGLE))
    as Hc by reflexivity.
  split_and!; [exact ring_one_vent_wired_fully_wired | exact Hta | exact Hcfg
              | exact Hstart | exact Hown | exact Hc |].
  destruct (run_experiment_bounded walking_world 1%nat 0%nat CLK_WISE
              ring_one_vent_wired_fully_wired Hta Hcfg Hstart)
    as (r & w' & checks & Hrun & Htr & Hlen & Hlog & Hnone & Hspec).
  exists r, w', checks.
  split_and!; [exact Hrun | exact Htr | exact Hlen | exact Hlog | exact Hnone |].
  exact (Hspec Hown _ Hc).
Defined.


Lemma evolve_single_axis_cycles_witness :
  (0 < 1 < axis_size AxisColor)%nat ∧
  Nat.iter 1 (evolve_axis AxisColor) (mkConfiguration RED DOTTY SINGLE)
  ≠ mkConfiguration RED DOTTY SINGLE.
Proof.
  assert ((0 < 1 < axis_size AxisColor)%nat) as Hk by (vm_compute; lia).
  split; [exact Hk|].
  destruct (evolve_single_axis_cycles AxisColor (mkConfiguration RED DOTTY SINGLE))
    as (_ & _ & _ & Hperiod & _).
  exact (Hperiod 1%nat Hk).
Defined.

Lemma simulate_keeps_cards_witness :
  let run := simulate lcg_randbelow (card_refs (card_store sample_world)) 40
               sample_world in
  run = (Returned (returned_value ∅ run.1), run.2) ∧
  card_store run.2 = card_store sample_world ∧
  (∀ l c, configs sample_world !! l = Some c → configs run.2 !! l = Some c).
Proof.
  intros run.
  assert (run = (Returned (returned_value ∅ run.1), run.2)) as Hrun
    by (vm_compute; reflexivity).
  split; [exact Hrun|].
  destruct (simulate_keeps_cards lcg_randbelow sample_world run.2 40
              (returned_value ∅ run.1) Hrun) as (Hcs & Hobj & _).
  split; [exact Hcs | exact Hobj].
Defined.

Lemma simulate_no_experiments_witness :
  -3 ≤ 0 ∧
  (∃ h, lab_at (card_store sample_world) h = true) ∧
  ∃ points,
    simulate lcg_randbelow (card_refs (card_store sample_world)) (-3) sample_world
    = (Returned points, sample_world) ∧
    (∀ h, (h < length (card_store sample_world))%nat → points !! h = Some 0) ∧
    (∀ h, (length (card_store sample_world) ≤ h)%nat → points !! h = None) ∧
    sum_counts points = 0.
Proof.
  assert (-3 ≤ 0) as Hexp by lia.
  assert (∃ h, lab_at (card_store sample_world) h = true) as Hlab
    by (exists 0%nat; reflexivity).
  split; [exact Hexp|]. split; [exact Hlab|].
  exact (simulate_no_experiments lcg_randbelow sample_world (-3) Hexp Hlab).
Defined.

(** * Further properties *)

(** ** Enumerations and evolve *)

Lemma list_index_Some {A} `{EqDecision A} (l : list A) (x : A) (i : nat) :
  list_index l x = Some i → l !! i = Some x.
Proof.
  unfold list_index. destruct (list_find (λ y, y = x) l) as [[j y]|] eqn:Hf; [|done].
  intros [= <-]. apply list_find_Some in Hf as (Hj & -> & _). done.
Qed.

Lemma list_index_NoDup {A} `{EqDecision A} (l : list A) (x : A) (i : nat) :
  NoDup l → l !! i = Some x → list_index l x = Some i.
Proof.
  intros Hnd Hi. unfold list_index.
  destruct (list_find (λ y, y = x) l) as [[j y]|] eqn:Hf.
  - apply list_find_Some in Hf as (Hj & -> & _). simpl. f_equal.
    by eapply NoDup_lookup.
  - apply list_find_None in Hf. apply list_elem_of_lookup_2 in Hi.
    rewrite Forall_forall in Hf. by destruct (Hf x Hi).
Qed.

Section EnumRotation.
Context {A : Type} `{PyEnum A}.
Hypothesis members_NoDup : NoDup (members (A:=A)).

Lemma rotate_enum_value_index (x : A) (i : nat) :
  members !! i = Some x →
  members !! ((i + 1) `mod` length (members (A:=A)))%nat
  = Some (_rotate_enum_value x).
Proof.
  intros Hi. unfold _rotate_enum_value.
  rewrite (list_index_NoDup _ _ _ members_NoDup Hi).
  pose proof (lookup_lt_Some _ _ _ Hi) as Hlt.
  destruct (lookup_lt_is_Some_2 (members (A:=A))
              ((i + 1) `mod` length (members (A:=A)))%nat) as [y Hy].
  { apply Nat.mod_upper_bound. lia. }
  by rewrite Hy.
Qed.

Lemma rotate_enum_value_iter (x : A) (i k : nat) :
  members !! i = Some x →
  members !! ((i + k) `mod` length (members (A:=A)))%nat
  = Some (Nat.iter k _rotate_enum_value x).
Proof.
  intros Hi. pose proof (lookup_lt_Some _ _ _ Hi) as Hlt.
  induction k as [|k IH]; simpl.
  - by rewrite Nat.add_0_r, Nat.mod_small.
  - apply rotate_enum_value_index in IH.
    rewrite <- IH. f_equal.
    rewrite Nat.Div0.add_mod_idemp_l. f_equal. lia.
Qed.

(** X1. For any enumeration whose members are distinct, rotating a member
    gives the member at the next position of the declaration order,
    wrapping after the last; rotating as many times as there are members
    gives the member back, and fewer rotations never do. *)
Theorem rotate_enum_value_cycles (x : A) (i : nat) :
  members !! i = Some x →
  list_index members (_rotate_enum_value x)
  = Some ((i + 1) `mod` length (members (A:=A)))%nat ∧
  Nat.iter (length (members (A:=A))) _rotate_enum_value x = x ∧
  ∀ k, (0 < k < length (members (A:=A)))%nat →
       Nat.iter k _rotate_enum_value x ≠ x.
Proof.
  intros Hi. pose proof (lookup_lt_Some _ _ _ Hi) as Hlt. split_and!.
  - apply list_index_NoDup; [done|]. by apply rotate_enum_value_index.
  - pose proof (rotate_enum_value_iter x i (length (members (A:=A))) Hi) as Hn.
    replace ((i + length (members (A:=A))) `mod` length (members (A:=A)))%nat
      with i in Hn.
    + rewrite Hi in Hn. by injection Hn.
    + rewrite <- Nat.Div0.add_mod_idemp_r, Nat.Div0.mod_same, Nat.add_0_r.
      by rewrite Nat.mod_small.
  - intros k Hk Heq.
    pose proof (rotate_enum_value_iter x i k Hi) as Hn. rewrite Heq in Hn.
    pose proof (NoDup_lookup _ _ _ _ members_NoDup Hn Hi) as Hmod.
    destruct (decide (i + k < length (members (A:=A)))%nat).
    + rewrite Nat.mod_small in Hmod by done. lia.
    + assert ((i + k) `mod` length (members (A:=A))
              = i + k - length (members (A:=A)))%nat as Hsub.
      { symmetry. apply (Nat.mod_unique _ _ 1); lia. }
      lia.
Qed.
End EnumRotation.

Lemma rotate_enum_value_cycles_witness :
  NoDup (members (A:=LabColor)) ∧
  members !! 2%nat = Some LAB_YELLOW ∧
  list_index members (_rotate_enum_value LAB_YELLOW) = Some ((2 + 1) `mod` 3)%nat ∧
  Nat.iter 3 _rotate_enum_value LAB_YELLOW = LAB_YELLOW.
Proof.
  assert (NoDup (members (A:=LabColor))) as Hnd.
  { repeat (constructor; [rewrite ?elem_of_cons, elem_of_nil; intros Hx;
      repeat (destruct Hx as [Hx|Hx]; [discriminate|]); done|]). constructor. }
  assert (members !! 2%nat = Some LAB_YELLOW) as Hi by reflexivity.
  destruct (rotate_enum_value_cycles Hnd LAB_YELLOW 2 Hi) as (Hidx & Hiter & _).
  split_and!; [exact Hnd | exact Hi | exact Hidx | exact Hiter].
Defined.

(** X2. Two calls of [evolve] compose into one that rotates exactly the
    axes selected by one of them but not both (every axis has two values);
    so selecting no axis changes nothing, and the same call twice restores
    the configuration. *)
Theorem evolve_composes (c : Configuration) (c1 p1 e1 c2 p2 e2 : bool) :
  evolve (evolve c c1 p1 e1) c2 p2 e2
  = evolve c (xorb c1 c2) (xorb p1 p2) (xorb e1 e2) ∧
  evolve c false false false = c ∧
  evolve (evolve c c1 p1 e1) c1 p1 e1 = c.
Proof.
  destruct c as [[] [] []], c1, p1, e1; split_and!; try reflexivity;
    destruct c2, p2, e2; reflexivity.
Qed.

(** ** The topology builder *)

Lemma same_payload_sym (cs s : list Card) : same_payload cs s → same_payload s cs.
Proof.
  intros [Hlen Hs]. split; [done|]. intros i c Hc.
  destruct (lookup_lt_is_Some_2 cs i) as [c0 Hc0].
  { rewrite <- Hlen. by eapply lookup_lt_Some. }
  destruct (Hs i c0 Hc0) as (c' & Hc' & Hk & Hl).
  rewrite Hc in Hc'. injection Hc' as <-. by exists c0.
Qed.

Lemma same_payload_trans (cs1 cs2 cs3 : list Card) :
  same_payload cs1 cs2 → same_payload cs2 cs3 → same_payload cs1 cs3.
Proof.
  intros [Hlen1 H1] [Hlen2 H2]. split; [congruence|]. intros i c Hc.
  destruct (H1 i c Hc) as (c2 & Hc2 & Hk2 & Hl2).
  destruct (H2 i c2 Hc2) as (c3 & Hc3 & Hk3 & Hl3).
  exists c3. split_and!; congruence.
Qed.

Lemma vent_indices_ext (cs s : list Card) :
  same_payload cs s → vent_indices s = vent_indices cs.
Proof.
  intros Hs. unfold vent_indices. destruct Hs as [Hlen Hs']. rewrite Hlen.
  f_equal. apply filter_vent_ext. intros i.
  apply same_payload_vent_at. by split.
Qed.

Lemma ring_index_ext (cs s : list Card) (i : Z) :
  length s = length cs → ring_index s i = ring_index cs i.
Proof. intros Hlen. unfold ring_index. by rewrite Hlen. Qed.

Lemma first_non_vent_ext (cs s : list Card) (start step : Z) (h : handle) :
  same_payload cs s → first_non_vent cs start step h → first_non_vent s start step h.
Proof.
  intros Hs (k & -> & Hnv & Hvents). pose proof Hs as [Hlen _].
  exists k. rewrite !(ring_index_ext cs s) by done.
  rewrite (same_payload_vent_at cs s) by done. split_and!; [done | done |].
  intros j Hj. rewrite (ring_index_ext cs s) by done.
  rewrite (same_payload_vent_at cs s) by done. by apply Hvents.
Qed.

Lemma first_non_vent_unique (cs : list Card) (start step : Z) (h1 h2 : handle) :
  first_non_vent cs start step h1 → first_non_vent cs start step h2 → h1 = h2.
Proof.
  intros (k1 & -> & Hnv1 & Hv1) (k2 & -> & Hnv2 & Hv2).
  destruct (Nat.lt_trichotomy k1 k2) as [Hlt|[->|Hlt]]; [|done|].
  - rewrite (Hv2 k1 Hlt) in Hnv1. done.
  - rewrite (Hv1 k2 Hlt) in Hnv2. done.
Qed.

Lemma has_non_vent_ext (cs s : list Card) :
  same_payload cs s → has_non_vent cs → has_non_vent s.
Proof.
  intros Hs (h & Hh & Hnv). pose proof Hs as [Hlen _]. exists h.
  rewrite Hlen, (same_payload_vent_at cs s) by done. done.
Qed.

(** What [configure_neighbors] returns, when it returns. *)
Lemma configure_neighbors_wired_as (cs : list Card) (fuel : nat) :
  (length cs ≤ fuel)%nat →
  ((2 ≤ length (vent_indices cs))%nat → has_non_vent cs) →
  ∃ s, configure_neighbors fuel (card_refs cs) cs = (Returned tt, s) ∧ wired_as cs s.
Proof.
  intros Hfuel Hnv.
  destruct (decide (2 ≤ length (vent_indices cs))%nat) as [Hmany|Hfew].
  - destruct (configure_neighbors_many_vents cs fuel Hmany (Hnv Hmany) Hfuel)
      as (s0 & s & Hs0 & Hrun & Hpay & Hdone & Hrest).
    exists s. split; [done|]. split_and!; [done | | by intros _ p Hp; apply Hdone].
    intros i c Hc [Hle|Hout]; [lia|].
    rewrite Hrest; [by apply Hs0|].
    intros p _ Hp. apply Hout. by eapply list_elem_of_lookup_2.
  - destruct (decide (cs = [])) as [->|Hne].
    { exists []. split; [done|]. split_and!; [apply same_payload_refl | | ].
      - intros i c Hc. by rewrite lookup_nil in Hc.
      - simpl. lia. }
    destruct (configure_neighbors_few_vents cs fuel Hne ltac:(lia))
      as (s & Hrun & Hlen & Hs).
    exists s. split; [done|].
    split_and!; [by apply same_payload_wire_base | | intros; lia].
    intros i c Hc _. by apply Hs.
Qed.

Lemma wire_base_ext (cs1 cs2 : list Card) (i : nat) (c1 c2 : Card) :
  length cs2 = length cs1 → kind c2 = kind c1 → line_number c2 = line_number c1 →
  wire_base cs2 i c2 = wire_base cs1 i c1.
Proof.
  intros Hlen Hk Hl. unfold wire_base.
  rewrite !(ring_index_ext cs1 cs2) by done. by rewrite Hk, Hl.
Qed.

Lemma wired_as_unique (cs1 cs2 s1 s2 : list Card) :
  same_payload cs1 cs2 → wired_as cs1 s1 → wired_as cs2 s2 → s1 = s2.
Proof.
  intros H12 (Hp1 & Hb1 & Hr1) (Hp2 & Hb2 & Hr2).
  pose proof (vent_indices_ext cs1 cs2 H12) as HV. rewrite HV in Hb2, Hr2.
  pose proof H12 as [Hlen12 Hc12]. pose proof Hp1 as [Hlen1 Hc1].
  pose proof Hp2 as [Hlen2 Hc2].
  apply list_eq_same_length with (length cs1); [congruence | congruence |].
  intros i x y Hi Hx Hy.
  destruct (lookup_lt_is_Some_2 cs1 i Hi) as [c1 Hci1].
  destruct (Hc12 i c1 Hci1) as (c2 & Hci2 & Hk12 & Hl12).
  assert (((length (vent_indices cs1) ≤ 1)%nat ∨ Z.of_nat i ∉ vent_indices cs1)
          → x = y) as Hplain.
  { intros Hbase.
    rewrite (Hb1 i c1 Hci1 Hbase) in Hx. rewrite (Hb2 i c2 Hci2 Hbase) in Hy.
    injection Hx as <-. injection Hy as <-. symmetry. by apply wire_base_ext. }
  destruct (decide (length (vent_indices cs1) ≤ 1)%nat) as [Hfew|Hmany];
    [by apply Hplain; left|].
  destruct (decide (Z.of_nat i ∈ vent_indices cs1)) as [Hin|Hout];
    [|by apply Hplain; right].
  - assert (2 ≤ length (vent_indices cs1))%nat as Hmany' by lia.
    apply list_elem_of_lookup in Hin as [p Hp].
    pose proof (lookup_lt_Some _ _ _ Hp) as Hplt.
    destruct (Hr1 Hmany' p Hplt)
      as (v & nv & pv & ca & a1 & b1 & Hv & Hnext & Hprev & Hca & Ha1 & Hb1' & Hfa1 & Hfb1).
    destruct (Hr2 Hmany' p Hplt)
      as (v' & nv' & pv' & cb & a2 & b2 & Hv' & Hnext' & Hprev' & Hcb & Ha2 & Hb2' & Hfa2 & Hfb2).
    rewrite HV in Hv', Hnext', Hprev'.
    rewrite Hp in Hv, Hv'. injection Hv as <-. injection Hv' as <-.
    rewrite Hnext in Hnext'. injection Hnext' as <-.
    rewrite Hprev in Hprev'. injection Hprev' as <-.
    rewrite Nat2Z.id in Hca, Hcb. rewrite Hx in Hca. rewrite Hy in Hcb.
    injection Hca as <-. injection Hcb as <-.
    apply (first_non_vent_ext cs2 cs1) in Hfa2; [|by apply same_payload_sym].
    apply (first_non_vent_ext cs2 cs1) in Hfb2; [|by apply same_payload_sym].
    pose proof (first_non_vent_unique _ _ _ _ _ Hfa1 Hfa2) as <-.
    pose proof (first_non_vent_unique _ _ _ _ _ Hfb1 Hfb2) as <-.
    destruct (Hc1 i c1 Hci1) as (x' & Hx' & Hkx & Hlx).
    destruct (Hc2 i c2 Hci2) as (y' & Hy' & Hky & Hly).
    rewrite Hx in Hx'. rewrite Hy in Hy'. injection Hx' as <-. injection Hy' as <-.
    destruct x, y. simpl in *. congruence.
Qed.

(** X3. With two or more vents (and some card that is not a vent) the
    ring the builder returns never links a vent to a vent: both
    neighbours of every vent are cards of the ring that are not vents.
    Every other card keeps the neighbours of the plain ring. *)
Theorem vents_never_link_to_vents (cs : list Card) (fuel : nat) :
  (length cs ≤ fuel)%nat →
  (2 ≤ length (vent_indices cs))%nat →
  has_non_vent cs →
  ∃ cs',
    configure_neighbors fuel (card_refs cs) cs = (Returned tt, cs') ∧
    ∀ h c, cs' !! h = Some c →
      (vent_at cs h = true →
         ∃ a b, _clk_wise_neighbor c = Some a ∧
                _counter_clk_wise_neighbor c = Some b ∧
                (a < length cs)%nat ∧ (b < length cs)%nat ∧
                vent_at cs a = false ∧ vent_at cs b = false) ∧
      (vent_at cs h = false → base_neighbors cs h c).
Proof.
  intros Hfuel Hmany Hnv.
  destruct (configure_neighbors_wired_as cs fuel Hfuel (λ _, Hnv))
    as (s & Hrun & Hpay & Hbase & Hrer).
  assert (cs ≠ []) as Hne
    by (destruct Hnv as (h & Hh & _); intros ->; simpl in Hh; lia).
  exists s. split; [done|]. intros h c Hc. pose proof Hpay as [Hlen _].
  destruct (lookup_lt_is_Some_2 cs h) as [c0 Hc0].
  { rewrite <- Hlen. by eapply lookup_lt_Some. }
  split.
  - intros Hvent.
    assert (Z.of_nat h ∈ vent_indices cs) as Hin.
    { apply elem_of_vent_indices. rewrite Nat2Z.id. split; [lia | done]. }
    apply list_elem_of_lookup in Hin as [p Hp].
    destruct (Hrer Hmany p (lookup_lt_Some _ _ _ Hp))
      as (v & nv & pv & c' & a & b & Hv & _ & _ & Hc' & Ha & Hb & Hfa & Hfb).
    rewrite Hp in Hv. injection Hv as <-. rewrite Nat2Z.id, Hc in Hc'.
    injection Hc' as <-. exists a, b.
    pose proof (first_non_vent_lt _ _ _ _ Hne Hfa).
    pose proof (first_non_vent_lt _ _ _ _ Hne Hfb).
    destruct Hfa as (ka & _ & Hnva & _). destruct Hfb as (kb & _ & Hnvb & _).
    done.
  - intros Hnvh. rewrite (Hbase h c0 Hc0) in Hc.
    + injection Hc as <-. apply wire_base_neighbors.
    + right. rewrite elem_of_vent_indices, Nat2Z.id. intros [_ Hv]. congruence.
Qed.

(** X4. The ring the builder returns depends on the kinds and line
    numbers of the cards only, not on the neighbours they had before: two
    sequences that differ in neighbour attributes only are wired alike, and
    running the builder on its own result changes nothing. *)
Theorem configure_neighbors_idempotent (cs1 cs2 : list Card) (fuel : nat) :
  same_payload cs1 cs2 →
  (length cs1 ≤ fuel)%nat →
  ((2 ≤ length (vent_indices cs1))%nat → has_non_vent cs1) →
  ∃ cs',
    configure_neighbors fuel (card_refs cs1) cs1 = (Returned tt, cs') ∧
    configure_neighbors fuel (card_refs cs2) cs2 = (Returned tt, cs') ∧
    configure_neighbors fuel (card_refs cs') cs' = (Returned tt, cs').
Proof.
  intros H12 Hfuel Hnv.
  destruct (configure_neighbors_wired_as cs1 fuel Hfuel Hnv) as (s1 & Hrun1 & Hw1).
  pose proof H12 as [Hlen12 _]. pose proof Hw1 as [Hp1 _]. pose proof Hp1 as [Hlen1 _].
  destruct (configure_neighbors_wired_as cs2 fuel) as (s2 & Hrun2 & Hw2).
  { by rewrite Hlen12. }
  { rewrite (vent_indices_ext cs1 cs2 H12). intros Hm.
    by apply (has_non_vent_ext cs1 cs2), Hnv. }
  destruct (configure_neighbors_wired_as s1 fuel) as (s3 & Hrun3 & Hw3).
  { by rewrite Hlen1. }
  { rewrite (vent_indices_ext cs1 s1 Hp1). intros Hm.
    by apply (has_non_vent_ext cs1 s1), Hnv. }
  pose proof (wired_as_unique cs1 cs2 s1 s2 H12 Hw1 Hw2) as <-.
  pose proof (wired_as_unique cs1 s1 s1 s3 Hp1 Hw1 Hw3) as <-.
  by exists s1.
Qed.

(** X5. Whenever some card is not a vent, or at most one card is a vent,
    the builder returns, given fuel for one lap of the ring: it leaves as
    many cards as it was given, each with its kind and line number, and
    every card has both neighbours set to cards of the ring. *)
Theorem configure_neighbors_wires_ring (cs : list Card) (fuel : nat) :
  cs ≠ [] → (length cs ≤ fuel)%nat →
  (has_non_vent cs ∨ (length (vent_indices cs) ≤ 1)%nat) →
  ∃ cs',
    configure_neighbors fuel (card_refs cs) cs = (Returned tt, cs') ∧
    length cs' = length cs ∧
    (∀ i c, cs !! i = Some c →
       ∃ c', cs' !! i = Some c' ∧ kind c' = kind c ∧
             line_number c' = line_number c ∧
             ∃ a b, _clk_wise_neighbor c' = Some a ∧
                    _counter_clk_wise_neighbor c' = Some b ∧
                    (a < length cs)%nat ∧ (b < length cs)%nat).
Proof.
  intros Hne Hfuel Hok.
  destruct (configure_neighbors_wires_every_card cs fuel Hne Hfuel)
    as (s & Hrun & [Hlen Hpay] & Hwired).
  { intros Hmany. destruct Hok as [Hnv|Hfew]; [done | lia]. }
  exists s. split_and!; [done | done |].
  intros i c Hc. destruct (Hpay i c Hc) as (c' & Hc' & Hk & Hl).
  exists c'. split_and!; [done | done | done |].
  destruct (Hwired i c' Hc') as (a & b & Ha & Hb & Hla & Hlb).
  exists a, b. rewrite <- Hlen. done.
Qed.

(** ** The traversal engine, further *)

Section TraversalFurther.
Context {RNG : Type}.
Implicit Types w : World RNG.

(** A traversal returns a card only when it is an amoeba whose target
    holds the values of the walked configuration. *)
Lemma run_steps_match steps cfg d :
  ∀ cur w h w',
    run_steps steps cfg cur d w = (Returned (Some h), w') →
    ∃ c t v,
      card_store w !! h = Some c ∧ kind c = AmoebaCard t ∧
      configs w' !! t = Some v ∧ configs w' !! cfg = Some v.
Proof.
  induction steps as [|steps IH]; intros cur w h w' Hrun; [done|].
  cbn [run_steps] in Hrun.
  apply bind_inv_returned in Hrun as (m & w1 & Hm & Hrun).
  rewrite (bind_returned _ _ _ _ _ (emit_eq _ _)) in Hrun.
  pose proof (is_matched_frame _ _ _ _ _ Hm) as [(Hcs & _) _].
  destruct m.
  - injection Hrun as <- <-. simpl.
    rewrite is_matched_eq in Hm.
    destruct (card_store w !! cur) as [c|] eqn:Hc; [|done].
    destruct (kind c) as [lc|t| |ec ep ee] eqn:Hk; try done.
    + destruct (configs w !! t) as [mine|] eqn:Hmine; [|done].
      destruct (configs w !! cfg) as [other|] eqn:Hother; [|done].
      injection Hm as Hdec <-. apply bool_decide_eq_true in Hdec as ->.
      by exists c, t, other.
    + by destruct (configs w !! cfg).
  - apply bind_inv_returned in Hrun as (next & w2 & Hn & Hrun).
    apply get_next_frame in Hn as ->.
    apply IH in Hrun as (c & t & v & Hc & Hk & Ht & Hcfg).
    simpl in Hc. rewrite Hcs in Hc. by exists c, t, v.
Qed.
End TraversalFurther.

Section TraversalErrors.
Context {RNG : Type}.
Implicit Types w : World RNG.

Lemma run_experiment_from_unwired_lab w cfg start d c lc :
  card_store w !! start = Some c → kind c = LabCard lc →
  neighbor (card_store w) d start = None →
  run_experiment cfg start d w
  = (Raised (NeighborsNotConfigured (line_number c)),
     mkWorld (card_store w) (configs w) (rng w) (trace w ++ [EvCheck start false])).
Proof.
  intros Hc Hk Hnb. unfold run_experiment, MAX_STEPS_PER_RUN. cbn [run_steps].
  unfold bind at 1. rewrite is_matched_eq, Hc, Hk.
  rewrite (bind_returned _ _ _ _ _ (emit_eq _ _)).
  unfold neighbor in Hnb. rewrite Hc in Hnb. simpl in Hnb.
  unfold bind, lift_cards, get_next. simpl.
  rewrite (bind_returned _ _ _ _ _ (deref_returned _ _ _ Hc)). by rewrite Hnb.
Qed.

(** X6. A traversal returns a card only if that card is an amoeba whose
    target holds, at that moment, exactly the values of the configuration
    being walked: lab, vent and evolution cards are never returned. *)
Theorem run_experiment_returns_matching_amoeba w w' configuration start_lab
    direction (h : handle) :
  run_experiment configuration start_lab direction w = (Returned (Some h), w') →
  ∃ c t v,
    card_store w' !! h = Some c ∧ kind c = AmoebaCard t ∧
    configs w' !! t = Some v ∧ configs w' !! configuration = Some v.
Proof.
  intros Hrun. pose proof (run_steps_frame _ _ _ _ _ _ _ Hrun) as [(Hcs & _) _].
  apply run_steps_match in Hrun as (c & t & v & Hc & Hk & Ht & Hcfg).
  exists c, t, v. by rewrite Hcs.
Qed.

End TraversalErrors.

(** ** The driver, further *)

Lemma sum_counts_insert_fresh (m : gmap handle Z) (h : handle) (n : Z) :
  m !! h = None → sum_counts (<[h := n]> m) = n + sum_counts m.
Proof.
  intros Hh. unfold sum_counts. rewrite map_fold_insert_L; [done | intros; lia | done].
Qed.

Lemma sum_counts_nonneg (m : gmap handle Z) :
  (∀ h n, m !! h = Some n → 0 ≤ n) → 0 ≤ sum_counts m.
Proof.
  induction m as [|h n m Hh _ IH] using map_first_key_ind; intros Hpos; [done|].
  rewrite sum_counts_insert_fresh by done.
  pose proof (Hpos h n (lookup_insert_eq _ _ _)).
  assert (0 ≤ sum_counts m); [|lia].
  apply IH. intros h' n' Hh'. apply (Hpos h').
  rewrite lookup_insert_ne; [done|]. intros <-. congruence.
Qed.

Lemma sum_counts_ge (m : gmap handle Z) (h : handle) (n : Z) :
  (∀ h n, m !! h = Some n → 0 ≤ n) → m !! h = Some n → n ≤ sum_counts m.
Proof.
  intros Hpos Hh. rewrite <- (insert_delete_id m h n Hh).
  rewrite sum_counts_insert_fresh by apply lookup_delete_eq.
  assert (0 ≤ sum_counts (delete h m)); [|lia].
  apply sum_counts_nonneg. intros h' n' Hh'.
  apply lookup_delete_Some in Hh' as [_ Hh']. by eapply Hpos.
Qed.

Lemma scores_of_initial (cs : list Card) :
  scores_of cs (list_to_map ((λ card, (card, 0)) <$> card_refs cs)).
Proof.
  unfold card_refs. split_and!.
  - intros h Hh. exists 0. rewrite initial_points_lookup, decide_True by done. done.
  - intros h Hh. rewrite initial_points_lookup, decide_False by lia. done.
  - intros h c Hc _. rewrite initial_points_lookup, decide_True; [done|].
    by eapply lookup_lt_Some.
Qed.

Lemma tally_scores (cs : list Card) (points points' : gmap handle Z)
    (res : option handle) :
  scores_of cs points →
  (∀ h, res = Some h → ∃ c t, cs !! h = Some c ∧ kind c = AmoebaCard t) →
  tally points res = Some points' → scores_of cs points'.
Proof.
  intros (Hin & Hout & Hzero) Hres Htally.
  destruct res as [h|]; [|by injection Htally as <-].
  destruct (Hres h eq_refl) as (c & t & Hc & Hk). simpl in Htally.
  destruct (points !! h) as [n|] eqn:Hn; [|done]. injection Htally as <-.
  pose proof (lookup_lt_Some _ _ _ Hc) as Hlt.
  split_and!.
  - intros h' Hh'. destruct (decide (h' = h)) as [->|Hne].
    + exists (n + 1). rewrite lookup_insert_eq. split; [done|].
      destruct (Hin h Hlt) as (n0 & Hn0 & Hpos). rewrite Hn in Hn0.
      injection Hn0 as <-. lia.
    + rewrite lookup_insert_ne by done. by apply Hin.
  - intros h' Hh'. rewrite lookup_insert_ne by lia. by apply Hout.
  - intros h' c' Hc' Hna. rewrite lookup_insert_ne; [by eapply Hzero|].
    intros <-. rewrite Hc in Hc'. injection Hc' as <-. by eapply Hna.
Qed.

Lemma tally_defined (cs : list Card) (points : gmap handle Z) (res : option handle) :
  scores_of cs points →
  (∀ h, res = Some h → (h < length cs)%nat) →
  ∃ points', tally points res = Some points'.
Proof.
  intros (Hin & _) Hres. destruct res as [h|]; [|by eexists].
  destruct (Hin h (Hres h eq_refl)) as (n & Hn & _). simpl. rewrite Hn.
  by eexists.
Qed.

Lemma targets_allocated_kept {RNG} (w w' : World RNG) :
  objects_kept w w' →
  targets_allocated (card_store w) (configs w) →
  targets_allocated (card_store w') (configs w').
Proof.
  intros (Hcs & Hdom & Hsame) Hta h c t Hc Hk. rewrite Hcs in Hc.
  destruct (Hta h c t Hc Hk) as [v Hv].
  exists v. rewrite Hsame; [done|]. apply elem_of_dom. by exists v.
Qed.

Lemma check_count_app (tr1 tr2 : list event) :
  check_count (tr1 ++ tr2) = (check_count tr1 + check_count tr2)%nat.
Proof.
  induction tr1 as [|[] tr1 IH]; simpl; [done | done | by rewrite IH | done].
Qed.

Lemma check_count_checks (checks : list event) :
  Forall is_check checks → check_count checks = length checks.
Proof. induction 1 as [|[] checks He _ IH]; simpl; (done || by rewrite IH). Qed.

Section DriverFurther.
Context {RNG : Type} (randbelow : nat → RNG → nat * RNG).
Implicit Types w : World RNG.

Lemma choice_in_range {A} (seq : list A) w :
  in_range randbelow → seq ≠ [] →
  ∃ x,
    seq !! (randbelow (length seq) (rng w)).1 = Some x ∧
    choice randbelow seq w
    = (Returned x,
       mkWorld (card_store w) (configs w) (randbelow (length seq) (rng w)).2
               (trace w ++ [EvDraw (length seq)])).
Proof.
  intros Hrange Hne.
  assert (0 < length seq)%nat as Hlen by (destruct seq; [done | simpl; lia]).
  pose proof (Hrange (length seq) (rng w) Hlen) as Hi.
  destruct (lookup_lt_is_Some_2 seq _ Hi) as [x Hx].
  exists x. split; [done|]. unfold choice. destruct seq as [|y seq]; [done|].
  set (l := y :: seq) in *. clearbody l.
  unfold bind, get, put, emit. simpl.
  destruct (randbelow (length l) (rng w)) as [i g]. simpl in *.
  apply subscript_returned; [lia | by rewrite Nat2Z.id].
Qed.

Lemma trial_trace labs points w points' w' :
  trial randbelow labs points w = (Returned points', w') →
  card_store w' = card_store w ∧
  ∃ res checks,
    trace w' = trace w ++ trial_draw_events labs ++ checks ++ [EvTrial res] ∧
    Forall is_check checks ∧ (length checks ≤ 100)%nat ∧
    (∀ h, res = Some h →
       ∃ c t, card_store w !! h = Some c ∧ kind c = AmoebaCard t) ∧
    tally points res = Some points'.
Proof.
  intros Hrun. apply trial_returned in Hrun.
  destruct (trial_draws randbelow labs (rng w)) as [[[[[i1 i2] i3] i4] i5] g].
  destruct Hrun as (c & p & e & lab & d & res & w2 & _ & _ & _ & _ & _
                    & Hrun & -> & Htally).
  pose proof (run_steps_frame _ _ _ _ _ _ _ Hrun)
    as ((Hcs & _) & checks & Htr & Hchecks & Hlen).
  split; [done|]. exists res, checks. simpl in *.
  split_and!; [by rewrite Htr, <- !app_assoc | done | done | | done].
  intros h ->. apply run_steps_match in Hrun as (c0 & t & v & Hc0 & Hk & _).
  by exists c0, t.
Qed.

Lemma trials_scores n labs :
  ∀ points w points' w',
    trials randbelow n labs points w = (Returned points', w') →
    scores_of (card_store w) points → scores_of (card_store w) points'.
Proof.
  induction n as [|n IH]; intros points w points' w' Hrun Hsc.
  - by injection Hrun as <- <-.
  - cbn [trials] in Hrun.
    apply bind_inv_returned in Hrun as (points1 & w1 & Htrial & Hrun).
    apply trial_trace in Htrial as (Hcs & res & checks & _ & _ & _ & Hres & Htally).
    rewrite <- Hcs. eapply IH; [done|]. rewrite Hcs.
    by eapply tally_scores.
Qed.

Lemma trials_trace n labs :
  ∀ points w points' w',
    trials randbelow n labs points w = (Returned points', w') →
    ∃ new,
      trace w' = trace w ++ new ∧
      draw_populations new = mjoin (replicate n [2; 2; 2; length labs; 2]%nat) ∧
      (check_count new ≤ 100 * n)%nat.
Proof.
  induction n as [|n IH]; intros points w points' w' Hrun.
  - injection Hrun as <- <-. exists []. by rewrite app_nil_r.
  - cbn [trials] in Hrun.
    apply bind_inv_returned in Hrun as (points1 & w1 & Htrial & Hrun).
    apply trial_trace in Htrial as (_ & res & checks & Htr1 & Hchecks & Hlen & _).
    apply IH in Hrun as (new & Htr2 & Hdraws & Hcount).
    exists ((trial_draw_events labs ++ checks ++ [EvTrial res]) ++ new).
    destruct (checks_no_trial_results checks Hchecks) as [_ Hnodraw].
    split_and!.
    + rewrite Htr2, Htr1, <- !app_assoc. done.
    + rewrite !draw_populations_app, Hnodraw, Hdraws. done.
    + rewrite !check_count_app, (check_count_checks checks Hchecks). simpl. lia.
Qed.

Lemma trial_returns labs points w :
  in_range randbelow →
  fully_wired (card_store w) →
  targets_allocated (card_store w) (configs w) →
  labs ≠ [] → (∀ l, l ∈ labs → (l < length (card_store w))%nat) →
  scores_of (card_store w) points →
  ∃ points' w', trial randbelow labs points w = (Returned points', w').
Proof.
  intros Hrange Hwired Hta Hlabs Hlablt Hsc. unfold trial.
  assert (members (A:=AmoebaColor) ≠ []) as Hne1 by discriminate.
  assert (members (A:=Pattern) ≠ []) as Hne2 by discriminate.
  assert (members (A:=Eye) ≠ []) as Hne3 by discriminate.
  assert (members (A:=Direction) ≠ []) as Hne4 by discriminate.
  destruct (choice_in_range (members (A:=AmoebaColor)) w Hrange Hne1)
    as (c & _ & Hc).
  rewrite (bind_returned _ _ _ _ _ Hc). clear Hc. cbn [card_store configs rng trace].
  match goal with |- context [bind (choice randbelow (members (A:=Pattern))) _ ?w0] =>
    destruct (choice_in_range (members (A:=Pattern)) w0 Hrange Hne2)
      as (p & _ & Hp) end.
  rewrite (bind_returned _ _ _ _ _ Hp). clear Hp. cbn [card_store configs rng trace].
  match goal with |- context [bind (choice randbelow (members (A:=Eye))) _ ?w0] =>
    destruct (choice_in_range (members (A:=Eye)) w0 Hrange Hne3)
      as (e & _ & He) end.
  rewrite (bind_returned _ _ _ _ _ He). clear He. cbn [card_store configs rng trace].
  rewrite (bind_returned _ _ _ _ _ (new_Configuration_returned _ _ _ _)).
  cbn [card_store configs rng trace].
  match goal with |- context [bind (choice randbelow labs) _ ?w0] =>
    destruct (choice_in_range labs w0 Hrange Hlabs) as (lab & Hlab & Hl) end.
  rewrite (bind_returned _ _ _ _ _ Hl). clear Hl. cbn [card_store configs rng trace].
  match goal with |- context [bind (choice randbelow (members (A:=Direction))) _ ?w0] =>
    destruct (choice_in_range (members (A:=Direction)) w0 Hrange Hne4)
      as (d & _ & Hd) end.
  rewrite (bind_returned _ _ _ _ _ Hd). clear Hd. cbn [card_store configs rng trace].
  match goal with |- context [bind (run_experiment ?l ?s ?dd) _ ?w0] =>
    destruct (run_steps_returns MAX_STEPS_PER_RUN l dd s w0)
      as (res & w2 & checks & Hrun & _) end.
  { done. }
  { simpl. intros h c0 t Hc0 Hk. apply lookup_insert_is_Some'. right.
    by eapply Hta. }
  { simpl. rewrite lookup_insert_eq. by eexists. }
  { simpl. apply Hlablt. by eapply list_elem_of_lookup_2. }
  unfold run_experiment. rewrite (bind_returned _ _ _ _ _ Hrun).
  rewrite (bind_returned _ _ _ _ _ (emit_eq _ _)).
  destruct (tally_defined (card_store w) points res Hsc) as [points' Htally].
  { intros h ->. apply run_steps_match in Hrun as (c0 & t & v & Hc0 & _).
    by eapply lookup_lt_Some. }
  exists points'. eexists.
  destruct res as [h|]; simpl in *.
  - destruct (points !! h); [|done]. by injection Htally as <-.
  - by injection Htally as <-.
Qed.

Lemma trials_return n labs :
  in_range randbelow → labs ≠ [] →
  ∀ points w,
    fully_wired (card_store w) →
    targets_allocated (card_store w) (configs w) →
    (∀ l, l ∈ labs → (l < length (card_store w))%nat) →
    scores_of (card_store w) points →
    ∃ points' w', trials randbelow n labs points w = (Returned points', w').
Proof.
  intros Hrange Hlabs. induction n as [|n IH]; intros points w Hwired Hta Hlablt Hsc.
  - by exists points, w.
  - destruct (trial_returns labs points w Hrange Hwired Hta Hlabs Hlablt Hsc)
      as (points1 & w1 & Htrial).
    cbn [trials]. rewrite (bind_returned _ _ _ _ _ Htrial).
    pose proof (trial_effects _ _ _ _ _ _ Htrial) as (Hkept & _).
    pose proof (trial_trace _ _ _ _ _ Htrial)
      as (Hcs & res & checks & _ & _ & _ & Hres & Htally).
    pose proof (targets_allocated_kept w w1 Hkept Hta) as Hta1.
    apply IH; [by rewrite Hcs | done | by rewrite Hcs |].
    rewrite Hcs. by eapply tally_scores.
Qed.

Lemma simulate_returns_on_wired w experiments :
  in_range randbelow →
  fully_wired (card_store w) →
  targets_allocated (card_store w) (configs w) →
  (∃ h, lab_at (card_store w) h = true) →
  ∃ points w',
    simulate randbelow (card_refs (card_store w)) experiments w
    = (Returned points, w').
Proof.
  intros Hrange Hwired Hta [h Hlab]. unfold simulate.
  rewrite (bind_returned _ _ _ _ _ (lift_lab_cards_of w)).
  destruct (lab_handles (card_store w)) as [|l ls] eqn:Hl.
  { apply elem_of_lab_handles in Hlab. rewrite Hl in Hlab. inversion Hlab. }
  rewrite <- Hl. apply trials_return; try done.
  - by rewrite Hl.
  - intros l' Hl'. apply elem_of_lab_handles in Hl'. unfold lab_at in Hl'.
    destruct (card_store w !! l') eqn:Hc; [|done]. by eapply lookup_lt_Some.
  - apply scores_of_initial.
Qed.
End DriverFurther.

Lemma lab_at_ext (cs s : list Card) (h : handle) :
  same_payload cs s → lab_at s h = lab_at cs h.
Proof.
  intros [Hlen Hs]. unfold lab_at.
  destruct (cs !! h) as [c|] eqn:Hc.
  - destruct (Hs h c Hc) as (c' & -> & -> & _). done.
  - apply lookup_ge_None in Hc. rewrite lookup_ge_None_2 by lia. done.
Qed.

Lemma targets_allocated_ext (cs s : list Card) (cf : gmap loc Configuration) :
  same_payload cs s → targets_allocated cs cf → targets_allocated s cf.
Proof.
  intros Hs Hta h c t Hc Hk.
  destruct (same_payload_sym _ _ Hs) as [_ Hback].
  destruct (Hback h c Hc) as (c0 & Hc0 & Hk0 & _).
  eapply Hta; [done|]. congruence.
Qed.

Lemma lab_is_non_vent (cs : list Card) (h : handle) :
  lab_at cs h = true → (h < length cs)%nat ∧ vent_at cs h = false.
Proof.
  unfold lab_at, vent_at. destruct (cs !! h) as [c|] eqn:Hc; [|done].
  intros Hlab. split; [by eapply lookup_lt_Some|]. by destruct (kind c).
Qed.

Lemma lcg_in_range : in_range lcg_randbelow.
Proof.
  intros n g Hn. unfold lcg_randbelow. simpl.
  match goal with |- (Z.to_nat (?a `mod` _) < _)%nat =>
    pose proof (Z.mod_pos_bound a (Z.of_nat n) ltac:(lia)) end.
  lia.
Qed.

Section DriverFurtherProperties.
Context {RNG : Type} (randbelow : nat → RNG → nat * RNG).
Implicit Types w : World RNG.

(** X7. In the mapping [simulate] returns, every card that is not an
    amoeba card has count 0, whatever the ring, the draws and the number of
    trials: lab, vent and evolution cards never score. *)
Theorem simulate_only_amoebas_score w w' experiments (points : gmap handle Z) :
  simulate randbelow (card_refs (card_store w)) experiments w = (Returned points, w') →
  ∀ h c, card_store w !! h = Some c →
         (∀ t, kind c ≠ AmoebaCard t) → points !! h = Some 0.
Proof.
  intros Hrun. apply simulate_returned in Hrun as [_ Hrun].
  apply trials_scores in Hrun as (_ & _ & Hzero); [done|].
  apply scores_of_initial.
Qed.

(** X8. The mapping [simulate] returns has one entry per card of the
    sequence and no other; every count is at least 0 and at most the
    number of trials run. *)
Theorem simulate_counts_per_card w w' experiments (points : gmap handle Z) :
  simulate randbelow (card_refs (card_store w)) experiments w = (Returned points, w') →
  (∀ h, (h < length (card_store w))%nat →
     ∃ n, points !! h = Some n ∧ 0 ≤ n ≤ Z.max 0 experiments) ∧
  (∀ h, (length (card_store w) ≤ h)%nat → points !! h = None).
Proof.
  intros Hrun. apply simulate_returned in Hrun as [_ Hrun].
  pose proof (trials_scores _ _ _ _ _ _ _ Hrun (scores_of_initial _))
    as (Hin & Hout & _).
  apply trials_effects in Hrun as (_ & new & _ & Hlen & Hsum).
  unfold card_refs in Hsum. rewrite initial_points_sum in Hsum.
  destruct (matched_count_le (trial_results new)) as [Hle _].
  split; [|done]. intros h Hh. destruct (Hin h Hh) as (n & Hn & Hpos).
  exists n. split; [done|]. split; [done|].
  assert (n ≤ sum_counts points); [|lia].
  apply (sum_counts_ge points h); [|done].
  intros h' n' Hn'. destruct (decide (h' < length (card_store w))%nat) as [Hlt|Hge].
  - destruct (Hin h' Hlt) as (n0 & Hn0 & Hpos0). congruence.
  - rewrite Hout in Hn' by lia. done.
Qed.

(** X9. On a fully wired ring with a lab card, [simulate] returns a
    mapping for every experiment count: no trial raises, given a random
    source that answers in range. *)
Theorem simulate_returns w experiments :
  in_range randbelow →
  fully_wired (card_store w) →
  targets_allocated (card_store w) (configs w) →
  (∃ h, lab_at (card_store w) h = true) →
  ∃ points w',
    simulate randbelow (card_refs (card_store w)) experiments w
    = (Returned points, w').
Proof. apply simulate_returns_on_wired. Qed.

(** X10. The order of [main]: the topology builder, then the driver.  On
    any card sequence with a lab card the builder returns (a lab card is
    no vent) and [simulate], run on the ring it leaves, returns a mapping:
    no traversal meets a card whose neighbours are not set. *)
Theorem builder_then_driver_returns (cs : list Card)
    (cf : gmap loc Configuration) (g : RNG) (tr : list event)
    (fuel : nat) (experiments : Z) :
  in_range randbelow →
  (length cs ≤ fuel)%nat →
  targets_allocated cs cf →
  (∃ h, lab_at cs h = true) →
  ∃ cs' points w',
    configure_neighbors fuel (card_refs cs) cs = (Returned tt, cs') ∧
    simulate randbelow (card_refs cs') experiments (mkWorld cs' cf g tr)
    = (Returned points, w').
Proof.
  intros Hrange Hfuel Hta [h Hlab].
  destruct (lab_is_non_vent cs h Hlab) as [Hh Hnv].
  assert (cs ≠ []) as Hne by (intros ->; simpl in Hh; lia).
  destruct (configure_neighbors_wires_every_card cs fuel Hne Hfuel)
    as (cs' & Hrun & Hpay & Hwired).
  { intros _. by exists h. }
  destruct (simulate_returns_on_wired randbelow (mkWorld cs' cf g tr) experiments)
    as (points & w' & Hsim); simpl; try done.
  - by eapply targets_allocated_ext.
  - exists h. by rewrite (lab_at_ext cs cs').
  - by exists cs', points, w'.
Qed.

(** X11. A run of [simulate] that returns has drawn from the random
    source exactly five times per trial, from populations of sizes 2, 2, 2,
    the number of lab cards, and 2, trial after trial. *)
Theorem simulate_draws_five_per_trial w w' experiments (points : gmap handle Z) :
  simulate randbelow (card_refs (card_store w)) experiments w = (Returned points, w') →
  ∃ new,
    trace w' = trace w ++ new ∧
    draw_populations new
    = mjoin (replicate (Z.to_nat experiments)
               [2; 2; 2; length (lab_handles (card_store w)); 2]%nat) ∧
    length (draw_populations new) = (5 * Z.to_nat experiments)%nat.
Proof.
  intros Hrun. apply simulate_returned in Hrun as [_ Hrun].
  apply trials_trace in Hrun as (new & Htr & Hdraws & _).
  exists new. split_and!; [done | done |]. rewrite Hdraws.
  generalize (Z.to_nat experiments) as n. intros n.
  induction n as [|n IH]; [done|]. simpl in *. rewrite IH. lia.
Qed.




Lemma choice_drawn {A} (seq : list A) w (i : nat) (g : RNG) :
  in_range randbelow → seq ≠ [] →
  randbelow (length seq) (rng w) = (i, g) →
  ∃ x,
    seq !! i = Some x ∧
    choice randbelow seq w
    = (Returned x,
       mkWorld (card_store w) (configs w) g (trace w ++ [EvDraw (length seq)])).
Proof.
  intros Hrange Hne Hdraw.
  destruct (choice_in_range randbelow seq w Hrange Hne) as (x & Hx & Hch).
  rewrite Hdraw in Hx, Hch. by exists x.
Qed.

(** X13. [simulate] run before the topology builder, on cards whose
    neighbours were never set, raises "neighbours not configured" in its
    first trial: after the five draws of that trial and the one check of
    the lab card drawn, which is the card [lab_cards[i_lab]] for the
    fourth index drawn, and whose line number the error carries.  The
    state is left as it was at that moment: the configuration drawn has
    been made, the random source has answered five times, no trial has a
    result. *)
Theorem simulate_before_wiring_raises w experiments :
  in_range randbelow →
  unwired (card_store w) →
  (∃ h, lab_at (card_store w) h = true) →
  1 ≤ experiments →
  let lab_cards := lab_handles (card_store w) in
  let '((i_color, i_pattern, i_eye, i_lab, i_direction), g) :=
    trial_draws randbelow lab_cards (rng w) in
  ∃ c p e lab card,
    members !! i_color = Some c ∧
    members !! i_pattern = Some p ∧
    members !! i_eye = Some e ∧
    lab_cards !! i_lab = Some lab ∧
    lab_at (card_store w) lab = true ∧
    card_store w !! lab = Some card ∧
    simulate randbelow (card_refs (card_store w)) experiments w
    = (Raised (NeighborsNotConfigured (line_number card)),
       mkWorld (card_store w)
               (<[fresh (dom (configs w)) := mkConfiguration c p e]> (configs w))
               g
               (trace w ++ trial_draw_events lab_cards ++ [EvCheck lab false])).
Proof.
  intros Hrange Hunwired [h Hlab] Hexp lab_cards. unfold simulate.
  rewrite (bind_returned _ _ _ _ _ (lift_lab_cards_of w)). fold lab_cards.
  assert (lab_cards ≠ []) as Hlabs.
  { intros Hnil. apply elem_of_lab_handles in Hlab. fold lab_cards in Hlab.
    rewrite Hnil in Hlab. inversion Hlab. }
  destruct lab_cards as [|l0 ls] eqn:Hl; [done|]. rewrite <- Hl in *. clear Hl l0 ls.
  destruct (Z.to_nat experiments) as [|n] eqn:Hn; [lia|]. cbn [trials].
  set (points := list_to_map _). clearbody points.
  assert (members (A:=AmoebaColor) ≠ []) as Hne1 by discriminate.
  assert (members (A:=Pattern) ≠ []) as Hne2 by discriminate.
  assert (members (A:=Eye) ≠ []) as Hne3 by discriminate.
  assert (members (A:=Direction) ≠ []) as Hne4 by discriminate.
  unfold trial_draws.
  destruct (randbelow (length (members (A:=AmoebaColor))) (rng w)) as [i1 g1] eqn:E1.
  destruct (randbelow (length (members (A:=Pattern))) g1) as [i2 g2] eqn:E2.
  destruct (randbelow (length (members (A:=Eye))) g2) as [i3 g3] eqn:E3.
  destruct (randbelow (length lab_cards) g3) as [i4 g4] eqn:E4.
  destruct (randbelow (length (members (A:=Direction))) g4) as [i5 g5] eqn:E5.
  unfold trial.
  destruct (choice_drawn (members (A:=AmoebaColor)) w i1 g1 Hrange Hne1 E1)
    as (c & Hc & Hch1).
  unfold bind at 1. rewrite (bind_returned _ _ _ _ _ Hch1). clear Hch1.
  match goal with |- context [bind (choice randbelow (members (A:=Pattern))) _ ?w0] =>
    destruct (choice_drawn (members (A:=Pattern)) w0 i2 g2 Hrange Hne2 E2)
      as (p & Hp & Hch2) end.
  rewrite (bind_returned _ _ _ _ _ Hch2). clear Hch2. cbn [card_store configs rng trace].
  match goal with |- context [bind (choice randbelow (members (A:=Eye))) _ ?w0] =>
    destruct (choice_drawn (members (A:=Eye)) w0 i3 g3 Hrange Hne3 E3)
      as (e & He & Hch3) end.
  rewrite (bind_returned _ _ _ _ _ Hch3). clear Hch3. cbn [card_store configs rng trace].
  rewrite (bind_returned _ _ _ _ _ (new_Configuration_returned _ _ _ _)).
  cbn [card_store configs rng trace].
  match goal with |- context [bind (choice randbelow lab_cards) _ ?w0] =>
    destruct (choice_drawn lab_cards w0 i4 g4 Hrange Hlabs E4)
      as (lab & Hlabi & Hch4) end.
  rewrite (bind_returned _ _ _ _ _ Hch4). clear Hch4. cbn [card_store configs rng trace].
  match goal with |- context [bind (choice randbelow (members (A:=Direction))) _ ?w0] =>
    destruct (choice_drawn (members (A:=Direction)) w0 i5 g5 Hrange Hne4 E5)
      as (d & Hd & Hch5) end.
  rewrite (bind_returned _ _ _ _ _ Hch5). clear Hch5. cbn [card_store configs rng trace].
  pose proof Hlabi as Hlabin.
  apply list_elem_of_lookup_2, elem_of_lab_handles in Hlabin.
  pose proof Hlabin as Hkind. unfold lab_at in Hkind.
  destruct (card_store w !! lab) as [cl|] eqn:Hcl; [|done].
  destruct (kind cl) as [lc| | |] eqn:Hk; try done.
  exists c, p, e, lab, cl. split_and!; try done.
  erewrite bind_raised.
  2:{ apply (run_experiment_from_unwired_lab _ _ _ _ cl lc); [done | done |].
      simpl. unfold neighbor. rewrite Hcl. simpl.
      destruct (Hunwired lab cl Hcl) as [-> ->]. by destruct (decide _). }
  cbn [card_store configs rng trace]. unfold trial_draw_events.
  by rewrite <- !app_assoc.
Qed.
End DriverFurtherProperties.

(** * The further properties on the sample rings *)

Lemma ring_two_vents_has_non_vent : has_non_vent ring_two_vents.
Proof. exists 0%nat. split; [simpl; lia | reflexivity]. Defined.

Lemma ring_one_vent_targets (cf : gmap loc Configuration) :
  is_Some (cf !! 0%nat) → targets_allocated ring_one_vent cf.
Proof.
  intros H0 h c t Hc Hk. destruct h as [|[|[|[|h]]]]; simpl in Hc;
    [injection Hc as <- ..| discriminate]; simpl in Hk;
    try discriminate. by injection Hk as <-.
Defined.

Lemma vents_never_link_to_vents_witness :
  (length ring_two_vents ≤ 5)%nat ∧
  (2 ≤ length (vent_indices ring_two_vents))%nat ∧
  has_non_vent ring_two_vents ∧
  ∃ cs',
    configure_neighbors 5 (card_refs ring_two_vents) ring_two_vents
    = (Returned tt, cs') ∧
    ∀ h c, cs' !! h = Some c →
      (vent_at ring_two_vents h = true →
         ∃ a b, _clk_wise_neighbor c = Some a ∧
                _counter_clk_wise_neighbor c = Some b ∧
                (a < length ring_two_vents)%nat ∧ (b < length ring_two_vents)%nat ∧
                vent_at ring_two_vents a = false ∧ vent_at ring_two_vents b = false) ∧
      (vent_at ring_two_vents h = false → base_neighbors ring_two_vents h c).
Proof.
  assert ((length ring_two_vents ≤ 5)%nat) as Hfuel by (simpl; lia).
  assert ((2 ≤ length (vent_indices ring_two_vents))%nat) as Hmany
    by (vm_compute; lia).
  split_and!; [exact Hfuel | exact Hmany | exact ring_two_vents_has_non_vent |].
  exact (vents_never_link_to_vents ring_two_vents 5 Hfuel Hmany
           ring_two_vents_has_non_vent).
Defined.

Lemma configure_neighbors_idempotent_witness :
  same_payload ring_two_vents ring_two_vents_relinked ∧
  (length ring_two_vents ≤ 5)%nat ∧
  ∃ cs',
    configure_neighbors 5 (card_refs ring_two_vents) ring_two_vents
    = (Returned tt, cs') ∧
    configure_neighbors 5 (card_refs ring_two_vents_relinked) ring_two_vents_relinked
    = (Returned tt, cs') ∧
    configure_neighbors 5 (card_refs cs') cs' = (Returned tt, cs').
Proof.
  assert (same_payload ring_two_vents ring_two_vents_relinked) as Hsame.
  { split; [reflexivity|]. intros i c Hc.
    destruct i as [|[|[|[|[|i]]]]]; simpl in Hc;
      [injection Hc as <- ..| discriminate];
      eexists; (split_and!; reflexivity). }
  assert ((length ring_two_vents ≤ 5)%nat) as Hfuel by (simpl; lia).
  split_and!; [exact Hsame | exact Hfuel |].
  exact (configure_neighbors_idempotent ring_two_vents ring_two_vents_relinked 5
           Hsame Hfuel (λ _, ring_two_vents_has_non_vent)).
Defined.

Lemma configure_neighbors_wires_ring_witness :
  ring_two_vents ≠ [] ∧ (length ring_two_vents ≤ 5)%nat ∧
  (has_non_vent ring_two_vents ∨ (length (vent_indices ring_two_vents) ≤ 1)%nat) ∧
  ∃ cs',
    configure_neighbors 5 (card_refs ring_two_vents) ring_two_vents
    = (Returned tt, cs') ∧
    length cs' = length ring_two_vents.
Proof.
  assert (ring_two_vents ≠ []) as Hne by discriminate.
  assert ((length ring_two_vents ≤ 5)%nat) as Hfuel by (simpl; lia).
  split_and!; [exact Hne | exact Hfuel | left; exact ring_two_vents_has_non_vent |].
  destruct (configure_neighbors_wires_ring ring_two_vents 5 Hne Hfuel
              (or_introl ring_two_vents_has_non_vent)) as (cs' & Hrun & Hlen & _).
  exists cs'. split; [exact Hrun | exact Hlen].
Defined.

Lemma run_experiment_returns_matching_amoeba_witness :
  let run := run_experiment 1%nat 0%nat CLK_WISE walking_world in
  run = (Returned (Some 2%nat), run.2) ∧
  ∃ c t v,
    card_store run.2 !! 2%nat = Some c ∧ kind c = AmoebaCard t ∧
    configs run.2 !! t = Some v ∧ configs run.2 !! 1%nat = Some v.
Proof.
  intros run.
  assert (run = (Returned (Some 2%nat), run.2)) as Hrun by (vm_compute; reflexivity).
  split; [exact Hrun|].
  exact (run_experiment_returns_matching_amoeba walking_world run.2 1%nat 0%nat
           CLK_WISE 2%nat Hrun).
Defined.

Lemma simulate_only_amoebas_score_witness :
  let run := simulate lcg_randbelow (card_refs (card_store sample_world)) 40
               sample_world in
  run = (Returned (returned_value ∅ run.1), run.2) ∧
  ∀ h c, card_store sample_world !! h = Some c →
         (∀ t, kind c ≠ AmoebaCard t) → returned_value ∅ run.1 !! h = Some 0.
Proof.
  intros run.
  assert (run = (Returned (returned_value ∅ run.1), run.2)) as Hrun
    by (vm_compute; reflexivity).
  split; [exact Hrun|].
  exact (simulate_only_amoebas_score lcg_randbelow sample_world run.2 40
           (returned_value ∅ run.1) Hrun).
Defined.

Lemma simulate_counts_per_card_witness :
  let run := simulate lcg_randbelow (card_refs (card_store sample_world)) 40
               sample_world in
  run = (Returned (returned_value ∅ run.1), run.2) ∧
  (∀ h, (h < length (card_store sample_world))%nat →
     ∃ n, returned_value ∅ run.1 !! h = Some n ∧ 0 ≤ n ≤ Z.max 0 40) ∧
  (∀ h, (length (card_store sample_world) ≤ h)%nat →
     returned_value ∅ run.1 !! h = None).
Proof.
  intros run.
  assert (run = (Returned (returned_value ∅ run.1), run.2)) as Hrun
    by (vm_compute; reflexivity).
  split; [exact Hrun|].
  exact (simulate_counts_per_card lcg_randbelow sample_world run.2 40
           (returned_value ∅ run.1) Hrun).
Defined.

Lemma simulate_returns_witness :
  in_range lcg_randbelow ∧
  fully_wired (card_store sample_world) ∧
  targets_allocated (card_store sample_world) (configs sample_world) ∧
  (∃ h, lab_at (card_store sample_world) h = true) ∧
  ∃ points w',
    simulate lcg_randbelow (card_refs (card_store sample_world)) 1000 sample_world
    = (Returned points, w').
Proof.
  assert (targets_allocated (card_store sample_world) (configs sample_world))
    as Hta by (apply ring_one_vent_wired_targets; by eexists).
  assert (∃ h, lab_at (card_store sample_world) h = true) as Hlab
    by (exists 0%nat; reflexivity).
  split_and!; [exact lcg_in_range | exact ring_one_vent_wired_fully_wired
              | exact Hta | exact Hlab |].
  exact (simulate_returns lcg_randbelow sample_world 1000 lcg_in_range
           ring_one_vent_wired_fully_wired Hta Hlab).
Defined.

Lemma builder_then_driver_returns_witness :
  in_range lcg_randbelow ∧
  (length ring_one_vent ≤ 4)%nat ∧
  targets_allocated ring_one_vent (configs unwired_world) ∧
  (∃ h, lab_at ring_one_vent h = true) ∧
  ∃ cs' points w',
    configure_neighbors 4 (card_refs ring_one_vent) ring_one_vent
    = (Returned tt, cs') ∧
    simulate lcg_randbelow (card_refs cs') 1000
      (mkWorld cs' (configs unwired_world) 42 [])
    = (Returned points, w').
Proof.
  assert ((length ring_one_vent ≤ 4)%nat) as Hfuel by (simpl; lia).
  assert (targets_allocated ring_one_vent (configs unwired_world)) as Hta
    by (apply ring_one_vent_targets; by eexists).
  assert (∃ h, lab_at ring_one_vent h = true) as Hlab
    by (exists 0%nat; reflexivity).
  split_and!; [exact lcg_in_range | exact Hfuel | exact Hta | exact Hlab |].
  exact (builder_then_driver_returns lcg_randbelow ring_one_vent
           (configs unwired_world) 42 [] 4 1000 lcg_in_range Hfuel Hta Hlab).
Defined.

Lemma simulate_draws_five_per_trial_witness :
  let run := simulate lcg_randbelow (card_refs (card_store sample_world)) 40
               sample_world in
  run = (Returned (returned_value ∅ run.1), run.2) ∧
  ∃ new,
    trace run.2 = trace sample_world ++ new ∧
    draw_populations new
    = mjoin (replicate (Z.to_nat 40)
               [2; 2; 2; length (lab_handles (card_store sample_world)); 2]%nat) ∧
    length (draw_populations new) = (5 * Z.to_nat 40)%nat.
Proof.
  intros run.
  assert (run = (Returned (returned_value ∅ run.1), run.2)) as Hrun
    by (vm_compute; reflexivity).
  split; [exact Hrun|].
  exact (simulate_draws_five_per_trial lcg_randbelow sample_world run.2 40
           (returned_value ∅ run.1) Hrun).
Defined.


Lemma simulate_before_wiring_raises_witness :
  in_range lcg_randbelow ∧
  unwired (card_store two_labs_unwired_world) ∧
  (∃ h, lab_at (card_store two_labs_unwired_world) h = true) ∧
  1 ≤ 3 ∧
  let lab_cards := lab_handles (card_store two_labs_unwired_world) in
  let '((i_color, i_pattern, i_eye, i_lab, i_direction), g) :=
    trial_draws lcg_randbelow lab_cards (rng two_labs_unwired_world) in
  ∃ c p e lab card,
    members !! i_color = Some c ∧
    members !! i_pattern = Some p ∧
    members !! i_eye = Some e ∧
    lab_cards !! i_lab = Some lab ∧
    lab_at (card_store two_labs_unwired_world) lab = true ∧
    card_store two_labs_unwired_world !! lab = Some card ∧
    simulate lcg_randbelow (card_refs (card_store two_labs_unwired_world)) 3
      two_labs_unwired_world
    = (Raised (NeighborsNotConfigured (line_number card)),
       mkWorld (card_store two_labs_unwired_world)
               (<[fresh (dom (configs two_labs_unwired_world))
                  := mkConfiguration c p e]> (configs two_labs_unwired_world))
               g
               (trace two_labs_unwired_world ++ trial_draw_events lab_cards
                  ++ [EvCheck lab false])).
Proof.
  assert (unwired (card_store two_labs_unwired_world)) as Hun.
  { intros h c Hc. destruct h as [|[|[|h]]]; simpl in Hc;
      [injection Hc as <- ..| discriminate]; split; reflexivity. }
  assert (∃ h, lab_at (card_store two_labs_unwired_world) h = true) as Hlab
    by (exists 0%nat; reflexivity).
  assert (1 ≤ 3) as Hexp by lia.
  split_and!; [exact lcg_in_range | exact Hun | exact Hlab | exact Hexp |].
  exact (simulate_before_wiring_raises lcg_randbelow two_labs_unwired_world 3
           lcg_in_range Hun Hlab Hexp).
Defined.

(** With two lab cards, at lines 1 and 9, and this seed, the first trial
    draws the second one. *)
Example two_labs_first_trial_raises :
  (simulate lcg_randbelow (card_refs (card_store two_labs_unwired_world)) 3
     two_labs_unwired_world).1
  = Raised (NeighborsNotConfigured 9).
Proof. reflexivity. Qed.

(** * parser.py *)

Section ParserProperties.
Context (isspace : N → bool) (lower : list N → list N).

Lemma lstrip_by_suffix (sep : N → bool) (s : list N) :
  ∃ pre, s = pre ++ lstrip_by sep s.
Proof.
  induction s as [|c s [pre IH]]; [by exists []|]. simpl.
  destruct (sep c); [|by exists []].
  exists (c :: pre). simpl. by rewrite <- IH.
Qed.

Lemma lstrip_by_head (sep : N → bool) (s : list N) c r :
  lstrip_by sep s = c :: r → sep c = false.
Proof.
  induction s as [|c0 s IH]; [done|]. simpl.
  destruct (sep c0) eqn:Hc0; [done|]. by intros [= <- _].
Qed.

(** What [strip] leaves starts with a character that is no whitespace. *)
Lemma strip_head (s : list N) c r :
  strip isspace s = c :: r → isspace c = false.
Proof.
  unfold strip. intros Hs.
  destruct (lstrip_by_suffix isspace (reverse (lstrip_by isspace s))) as [pre Hpre].
  apply (f_equal reverse) in Hpre.
  rewrite reverse_involutive, reverse_app, Hs in Hpre.
  by eapply lstrip_by_head.
Qed.

Lemma tokens_by_head (sep : N → bool) c (s : list N) :
  sep c = false → tokens_by sep (c :: s) ≠ [].
Proof.
  intros Hc. simpl. rewrite Hc. destruct s as [|c' s]; [done|].
  destruct (sep c'); [done|]. by destruct (tokens_by sep (c' :: s)).
Qed.

Lemma _parse_lab_outcome tokens n s :
  ∃ r s', _parse_lab lower tokens n s = (Returned r, s') ∧ line_outcome n s r s'.
Proof.
  unfold _parse_lab. destruct tokens as [|token tokens].
  - eexists None, _. split; [reflexivity|]. simpl. eauto.
  - destruct (LAB_COLOR_MAP !! lower token) as [color|].
    + eexists (Some _), _. split; [reflexivity|]. by simpl.
    + eexists None, _. split; [reflexivity|]. simpl. eauto.
Qed.

Lemma _parse_amoeba_outcome tokens n s :
  ∃ r s', _parse_amoeba lower tokens n s = (Returned r, s') ∧ line_outcome n s r s'.
Proof.
  unfold _parse_amoeba.
  destruct tokens as [|t0 [|t1 [|t2 tokens]]];
    try (eexists None, _; split; [reflexivity|]; simpl; by eauto).
  destruct (AMOEBA_COLOR_MAP !! lower t0) as [color|];
    [destruct (PATTERN_MAP !! lower t1) as [pattern|];
     [destruct (EYE_MAP !! lower t2) as [eye|]|]|];
    try (eexists None, _; split; [reflexivity|]; simpl; by eauto).
  eexists (Some _), _. split; [reflexivity|]. simpl.
  split_and!; try done; [|by eauto].
  apply not_elem_of_dom, is_fresh.
Qed.

Lemma _parse_evolution_outcome tokens n s :
  ∃ r s', _parse_evolution isspace lower tokens n s = (Returned r, s')
          ∧ line_outcome n s r s'.
Proof.
  unfold _parse_evolution. destruct tokens as [|t tokens].
  - eexists None, _. split; [reflexivity|]. simpl. eauto.
  - match goal with |- context [negb ?b] => destruct b eqn:Hflags end.
    + eexists (Some _), _. split; [reflexivity|]. by simpl.
    + eexists None, _. split; [reflexivity|]. simpl. eauto.
Qed.

(** One line: nothing at all if no text is left of it, and otherwise a
    card or a warning; [parts[0]] is always there. *)
Lemma parse_line_outcome line n s :
  (strip isspace (before_hash line) = [] ∧
   parse_line isspace lower line n s = (Returned None, s)) ∨
  (strip isspace (before_hash line) ≠ [] ∧
   ∃ r s', parse_line isspace lower line n s = (Returned r, s') ∧
           line_outcome n s r s').
Proof.
  unfold parse_line.
  destruct (strip isspace (before_hash line)) as [|c rest] eqn:Hs; [by left|].
  right. split; [done|].
  pose proof (tokens_by_head isspace c rest (strip_head _ _ _ Hs)) as Hparts.
  unfold split. destruct (tokens_by isspace (c :: rest)) as [|first parts]; [done|].
  assert (subscript (St:=ParseState) (first :: parts) 0 s = (Returned first, s))
    as Hfirst by (by apply subscript_returned).
  rewrite (bind_returned _ _ _ _ _ Hfirst).
  cbn [drop].
  repeat case_decide.
  - eexists (Some _), _. split; [reflexivity|]. by simpl.
  - apply _parse_lab_outcome.
  - apply _parse_amoeba_outcome.
  - apply _parse_evolution_outcome.
  - eexists None, _. split; [reflexivity|]. simpl. eauto.
Qed.

Lemma amoeba_targets_cons c new :
  amoeba_targets (c :: new)
  = match kind c with AmoebaCard t => t :: amoeba_targets new
                 | _ => amoeba_targets new end.
Proof. unfold amoeba_targets. simpl. by destruct (kind c). Qed.

Lemma unwired_cons c new :
  _clk_wise_neighbor c = None → _counter_clk_wise_neighbor c = None →
  unwired new → unwired (c :: new).
Proof.
  intros Ha Hb Hnew [|h] c' Hc'; simpl in Hc'; [by injection Hc' as <-|].
  by eapply Hnew.
Qed.

(** The loop of [parse_file] returns, whatever the lines. *)
Lemma parse_lines_spec lines :
  ∀ n cards s, ∃ new s',
    parse_lines isspace lower lines n cards s = (Returned (cards ++ new), s') ∧
    parse_result isspace lines n s new s'.
Proof.
  induction lines as [|line lines IH]; intros n cards s.
  { exists [], s. split; [by rewrite app_nil_r|].
    unfold parse_result. split_and!; try done.
    - exists []. by rewrite app_nil_r.
    - constructor.
    - constructor.
    - intros t. split; [by left|]. intros [Ht|Ht]; [done|]. inversion Ht.
    - intros t Ht. inversion Ht. }
  cbn [parse_lines content_lines].
  destruct (parse_line_outcome line n s) as [[Hblank Hrun]|(Hcontent & r & s1 & Hrun & Hout)].
  - rewrite (bind_returned _ _ _ _ _ Hrun).
    destruct (IH (n + 1) cards s) as (new & s' & Hrest & Hres).
    exists new, s'. split; [done|].
    destruct Hres as (Hw & Hun & Hsort & Hbound & Hsub & Hnd & Hdom & Hfresh & Hev).
    unfold parse_result. cbn [content_lines]. rewrite decide_True by done.
    split_and!; try done.
    eapply Forall_impl; [exact Hbound|]. simpl. intros c Hc.
    rewrite Nat2Z.inj_succ. lia.
  - rewrite (bind_returned _ _ _ _ _ Hrun).
    destruct r as [c|].
    + destruct (IH (n + 1) (cards ++ [c]) s1) as (new & s' & Hrest & Hres).
      exists (c :: new), s'. split; [by rewrite Hrest, <- app_assoc|].
      destruct Hres as ((ws & Hws & Hperm) & Hun & Hsort & Hbound & Hsub & Hnd
                        & Hdom & Hfresh & Hev).
      destruct Hout as (Hln & Hclk & Hcclk & Hw1 & Hkind).
      assert (ps_configs s ⊆ ps_configs s1 ∧
              (∀ t, t ∈ dom (ps_configs s1) ↔
                    t ∈ dom (ps_configs s) ∨ t ∈ amoeba_targets [c]) ∧
              (∀ t, t ∈ amoeba_targets [c] → t ∉ dom (ps_configs s)))
        as (Hsub1 & Hdom1 & Hfresh1).
      { unfold amoeba_targets. simpl. destruct (kind c) as [|t| |].
        - rewrite Hkind. split_and!; [done| |intros t Ht; inversion Ht].
          intros t. split; [by left|]. intros [Ht|Ht]; [done|inversion Ht].
        - destruct Hkind as (Hnone & cfg & ->). split_and!.
          + by apply insert_subseteq.
          + intros t'. rewrite dom_insert_L, elem_of_union, elem_of_singleton.
            rewrite list_elem_of_singleton. tauto.
          + intros t' Ht'. apply list_elem_of_singleton in Ht' as ->.
            by apply not_elem_of_dom.
        - rewrite Hkind. split_and!; [done| |intros t Ht; inversion Ht].
          intros t. split; [by left|]. intros [Ht|Ht]; [done|inversion Ht].
        - destruct Hkind as [_ ->]. split_and!; [done| |intros t Ht; inversion Ht].
          intros t. split; [by left|]. intros [Ht|Ht]; [done|inversion Ht]. }
      assert (amoeba_targets (c :: new) = amoeba_targets [c] ++ amoeba_targets new)
        as Htargets.
      { unfold amoeba_targets. simpl. by destruct (kind c). }
      unfold parse_result. cbn [content_lines]. rewrite decide_False by done.
      split_and!.
      * exists ws. split; [congruence|]. simpl. rewrite Hln. by f_equiv.
      * by apply unwired_cons.
      * simpl. constructor; [done|]. rewrite Hln.
        apply Forall_fmap. eapply Forall_impl; [exact Hbound|].
        simpl. intros c'. lia.
      * constructor; [cbn [length]; rewrite Nat2Z.inj_succ; lia|].
        eapply Forall_impl; [exact Hbound|]. simpl. intros c'.
        rewrite Nat2Z.inj_succ. lia.
      * by etrans.
      * rewrite Htargets. apply NoDup_app. split_and!; [|  |done].
        -- unfold amoeba_targets. simpl. destruct (kind c); simpl;
             try constructor; try constructor; set_solver.
        -- intros t Ht Ht'. apply (Hfresh t Ht'). apply Hdom1. by right.
      * intros t. rewrite Htargets, elem_of_app, Hdom, Hdom1. tauto.
      * intros t. rewrite Htargets, elem_of_app. intros [Ht|Ht]; [by apply Hfresh1|].
        intros Hin. apply (Hfresh t Ht). apply Hdom1. by left.
      * constructor; [|done]. intros a b e Hk. rewrite Hk in Hkind. tauto.
    + destruct (IH (n + 1) cards s1) as (new & s' & Hrest & Hres).
      exists new, s'. split; [done|].
      destruct Hres as ((ws & Hws & Hperm) & Hun & Hsort & Hbound & Hsub & Hnd
                        & Hdom & Hfresh & Hev).
      destruct Hout as (Hcf & w & Hw1 & Hwl).
      unfold parse_result. cbn [content_lines]. rewrite decide_False by done.
      rewrite <- Hcf. split_and!; try done.
      * exists (w :: ws). split; [by rewrite Hws, Hw1, <- app_assoc|].
        simpl. rewrite Hwl. rewrite <- Permutation_middle. by f_equiv.
      * eapply Forall_impl; [exact Hbound|]. simpl. intros c'.
        rewrite Nat2Z.inj_succ. lia.
Qed.

End ParserProperties.

Lemma elem_of_amoeba_targets (cards : list Card) (h : handle) c t :
  cards !! h = Some c → kind c = AmoebaCard t → t ∈ amoeba_targets cards.
Proof.
  intros Hc Hk. apply list_elem_of_omap. exists c.
  split; [by eapply list_elem_of_lookup_2|]. by rewrite Hk.
Qed.

(** An evolution card with a flag set changes every configuration. *)
Lemma evolve_with_flag_moves (cfg : Configuration) (a b e : bool) :
  a || b || e = true → evolve cfg a b e ≠ cfg.
Proof. destruct cfg as [[] [] []], a, b, e; done. Qed.

Lemma before_hash_comment (text comment : list N) :
  35%N ∉ text → before_hash (text ++ 35%N :: comment) = before_hash text.
Proof.
  induction text as [|c text IH]; intros Hfree; simpl.
  - done.
  - destruct (decide (c = 35%N)) as [->|Hc]; [done|].
    rewrite IH; [done|]. intros Hin. apply Hfree. by right.
Qed.

Section ParserFurtherProperties.
Context (isspace : N → bool) (lower : list N → list N).

(** Two lines with the same text before the comment sign give the same
    card, the same objects and as many warnings. *)
Lemma parse_line_depends_on_text l1 l2 n s :
  before_hash l1 = before_hash l2 →
  (parse_line isspace lower l1 n s).1 = (parse_line isspace lower l2 n s).1 ∧
  ps_configs (parse_line isspace lower l1 n s).2
  = ps_configs (parse_line isspace lower l2 n s).2 ∧
  length (ps_warnings (parse_line isspace lower l1 n s).2)
  = length (ps_warnings (parse_line isspace lower l2 n s).2).
Proof.
  intros Heq. unfold parse_line. rewrite Heq.
  destruct (strip isspace (before_hash l2)) as [|c rest]; [done|].
  unfold bind at 1 3 5 7 9 11.
  destruct (subscript (split isspace (c :: rest)) 0 s) as [[first| |] s1]; try done.
  repeat case_decide; try done.
  unfold bind, warn, ret. simpl. by rewrite !length_app.
Qed.

(** X14. [parse_file] returns for every sequence of lines (no line makes
    [parts[0]] fail), and the cards it returns are in the order of their
    lines: line numbers strictly increase, lie between 1 and the number
    of lines, and no card has a neighbour yet. *)
Theorem parse_file_cards_in_line_order (lines : list (list N)) (s : ParseState) :
  ∃ cards s',
    parse_file isspace lower lines s = (Returned cards, s') ∧
    unwired cards ∧
    StronglySorted Z.lt (line_number <$> cards) ∧
    Forall (λ c, 1 ≤ line_number c ≤ Z.of_nat (length lines)) cards.
Proof.
  destruct (parse_lines_spec isspace lower lines 1 [] s)
    as (cards & s' & Hrun & _ & Hun & Hsort & Hbound & _).
  exists cards, s'. split_and!; try done.
  eapply Forall_impl; [exact Hbound|]. simpl. intros c. lia.
Qed.

(** X15. Every line that has text left once its comment and the
    surrounding whitespace are removed yields exactly one card or exactly
    one warning, and that card or warning carries the number of the line;
    blank lines and lines holding only a comment yield neither.  Warnings
    issued before are kept. *)
Theorem parse_file_accounts_for_every_line (lines : list (list N)) (s : ParseState) :
  ∃ cards s' ws,
    parse_file isspace lower lines s = (Returned cards, s') ∧
    ps_warnings s' = ps_warnings s ++ ws ∧
    (line_number <$> cards) ++ (warning_line <$> ws)
    ≡ₚ content_lines isspace lines 1 ∧
    (length cards + length ws = length (content_lines isspace lines 1))%nat.
Proof.
  destruct (parse_lines_spec isspace lower lines 1 [] s)
    as (cards & s' & Hrun & (ws & Hws & Hperm) & _).
  exists cards, s', ws. split_and!; try done.
  rewrite <- Hperm, length_app, !length_fmap. done.
Qed.

(** X16. Every amoeba card [parse_file] returns refers to a
    [Configuration] object of its own: the object exists, was made during
    the parse, and no two cards share one.  The parse makes no other
    object and leaves the objects that existed as they were. *)
Theorem parse_file_amoebas_own_their_configuration (lines : list (list N))
    (s : ParseState) :
  ∃ cards s',
    parse_file isspace lower lines s = (Returned cards, s') ∧
    targets_allocated cards (ps_configs s') ∧
    NoDup (amoeba_targets cards) ∧
    (∀ t, t ∈ amoeba_targets cards → ps_configs s !! t = None) ∧
    ps_configs s ⊆ ps_configs s' ∧
    dom (ps_configs s') = dom (ps_configs s) ∪ list_to_set (amoeba_targets cards).
Proof.
  destruct (parse_lines_spec isspace lower lines 1 [] s)
    as (cards & s' & Hrun & _ & _ & _ & _ & Hsub & Hnd & Hdom & Hfresh & _).
  exists cards, s'. split_and!; try done.
  - intros h c t Hc Hk. apply elem_of_dom, Hdom. right.
    by eapply elem_of_amoeba_targets.
  - intros t Ht. by apply not_elem_of_dom, Hfresh.
  - apply set_eq. intros t.
    rewrite Hdom, elem_of_union, elem_of_list_to_set. done.
Qed.

(** X17. Every evolution card [parse_file] returns has at least one of
    its three flags set, so that visiting it changes any configuration:
    a line that names no feature gives no card. *)
Theorem parse_file_evolution_cards_evolve (lines : list (list N)) (s : ParseState) :
  ∃ cards s',
    parse_file isspace lower lines s = (Returned cards, s') ∧
    ∀ c a b e, c ∈ cards → kind c = EvolutionCard a b e →
      a || b || e = true ∧ ∀ cfg, evolve cfg a b e ≠ cfg.
Proof.
  destruct (parse_lines_spec isspace lower lines 1 [] s)
    as (cards & s' & Hrun & _ & _ & _ & _ & _ & _ & _ & _ & Hev).
  exists cards, s'. split; [done|]. intros c a b e Hc Hk.
  rewrite Forall_forall in Hev. pose proof (Hev c Hc a b e Hk) as Hflag.
  split; [done|]. intros cfg. by apply evolve_with_flag_moves.
Qed.

(** X18. What follows the comment sign does not matter: a line without
    the sign, and the same line with the sign and any text appended, give
    the same card (or none), the same objects and as many warnings. *)
Theorem parse_line_ignores_comment (text comment : list N) (n : Z) (s : ParseState) :
  35%N ∉ text →
  (parse_line isspace lower (text ++ 35%N :: comment) n s).1
  = (parse_line isspace lower text n s).1 ∧
  ps_configs (parse_line isspace lower (text ++ 35%N :: comment) n s).2
  = ps_configs (parse_line isspace lower text n s).2 ∧
  length (ps_warnings (parse_line isspace lower (text ++ 35%N :: comment) n s).2)
  = length (ps_warnings (parse_line isspace lower text n s).2).
Proof.
  intros Hfree. apply parse_line_depends_on_text. by apply before_hash_comment.
Qed.

End ParserFurtherProperties.

Section ParsedRing.
Context (isspace : N → bool) (lower : list N → list N).
Context {RNG : Type} (randbelow : nat → RNG → nat * RNG).

(** X19. The first steps of [main], from the lines of the input file on:
    [parse_file] returns, and if a lab card is among its cards then the
    topology builder returns on them and [simulate], run on that ring with
    the objects the parser made, returns a mapping: no input file with a
    lab line makes these three calls raise. *)
Theorem parsed_ring_runs (lines : list (list N)) (s : ParseState)
    (g : RNG) (experiments : Z) :
  in_range randbelow →
  ∃ cards s',
    parse_file isspace lower lines s = (Returned cards, s') ∧
    ((∃ h, lab_at cards h = true) →
     ∃ cs' points w',
       configure_neighbors (length cards) (card_refs cards) cards
       = (Returned tt, cs') ∧
       simulate randbelow (card_refs cs') experiments
         (mkWorld cs' (ps_configs s') g [])
       = (Returned points, w')).
Proof.
  intros Hrange.
  destruct (parse_lines_spec isspace lower lines 1 [] s)
    as (cards & s' & Hrun & _ & _ & _ & _ & _ & _ & Hdom & _).
  exists cards, s'. split; [done|]. intros [h Hlab].
  destruct (lab_is_non_vent cards h Hlab) as [Hh Hnv].
  assert (cards ≠ []) as Hne by (intros ->; simpl in Hh; lia).
  assert (targets_allocated cards (ps_configs s')) as Hta.
  { intros h' c t Hc Hk. apply elem_of_dom, Hdom. right.
    by eapply elem_of_amoeba_targets. }
  destruct (configure_neighbors_wires_every_card cards (length cards) Hne)
    as (cs' & Hconf & Hpay & Hwired); [done | intros _; by exists h |].
  destruct (simulate_returns_on_wired randbelow
              (mkWorld cs' (ps_configs s') g []) experiments)
    as (points & w' & Hsim); simpl; try done.
  - by eapply targets_allocated_ext.
  - exists h. by rewrite (lab_at_ext cards cs').
  - by exists cs', points, w'.
Qed.
End ParsedRing.

(** * parser.py on the sample file *)

Example sample_lines_parsed :
  parse_file ascii_isspace ascii_lower sample_lines (mkParseState ∅ [])
  = (Returned [ new_card (LabCard LAB_RED) 2;
                new_card (AmoebaCard 0%nat) 4;
                new_card VentCard 5;
                new_card (EvolutionCard true false true) 6 ],
     mkParseState {[ 0%nat := mkConfiguration BLUE DOTTY SINGLE ]}
       [ UnknownCardType 7 (pystr "teleporter"); AmoebaIncomplete 8 ]).
Proof. vm_compute. reflexivity. Qed.

Lemma parse_line_ignores_comment_witness :
  let text := pystr "Lab RED   " in
  let line := text ++ 35%N :: pystr " start here" in
  let s := mkParseState ∅ [] in
  (35%N ∉ text) ∧
  (parse_line ascii_isspace ascii_lower line 2 s).1
  = (parse_line ascii_isspace ascii_lower text 2 s).1 ∧
  ps_configs (parse_line ascii_isspace ascii_lower line 2 s).2
  = ps_configs (parse_line ascii_isspace ascii_lower text 2 s).2 ∧
  length (ps_warnings (parse_line ascii_isspace ascii_lower line 2 s).2)
  = length (ps_warnings (parse_line ascii_isspace ascii_lower text 2 s).2).
Proof.
  intros text line s.
  assert (35%N ∉ text) as Hfree.
  { apply (bool_decide_unpack _). vm_compute. exact I. }
  split; [exact Hfree|].
  exact (parse_line_ignores_comment ascii_isspace ascii_lower
           text (pystr " start here") 2 s Hfree).
Defined.

Lemma parsed_ring_runs_witness :
  in_range lcg_randbelow ∧
  ∃ cards s',
    parse_file ascii_isspace ascii_lower sample_lines (mkParseState ∅ [])
    = (Returned cards, s') ∧
    ((∃ h, lab_at cards h = true) →
     ∃ cs' points w',
       configure_neighbors (length cards) (card_refs cards) cards
       = (Returned tt, cs') ∧
       simulate lcg_randbelow (card_refs cs') 40
         (mkWorld cs' (ps_configs s') 42 [])
       = (Returned points, w')).
Proof.
  split; [exact lcg_in_range|].
  exact (parsed_ring_runs ascii_isspace ascii_lower lcg_randbelow sample_lines
           (mkParseState ∅ []) 42 40 lcg_in_range).
Defined.

(** * main.py: print_rankings *)

Lemma amoeba_cards_of_returned (cs : list Card) (points : list (handle * Z))
    (out : list printed) :
  (∀ p, p ∈ points → (p.1 < length cs)%nat) →
  amoeba_cards_of cs points out
  = (Returned (filter (λ p, amoeba_at cs p.1 = true) points), out).
Proof.
  induction points as [|[card count] points IH]; intros Hin; [done|].
  cbn [amoeba_cards_of].
  destruct (lookup_lt_is_Some_2 cs card) as [c Hc].
  { apply (Hin (card, count)). by left. }
  rewrite Hc. rewrite (bind_returned _ _ _ _ _ (IH (λ p Hp, Hin p (list_elem_of_further _ _ _ Hp)))).
  unfold ret. rewrite filter_cons.
  assert (amoeba_at cs card = is_amoeba_kind (kind c)) as Hat
    by (unfold amoeba_at; by rewrite Hc).
  cbn [fst]. rewrite Hat.
  destruct (is_amoeba_kind (kind c)).
  - by rewrite decide_True.
  - by rewrite decide_False.
Qed.

Lemma insert_by_count_perm x l : insert_by_count x l ≡ₚ x :: l.
Proof.
  induction l as [|y l IH]; [done|]. simpl.
  destruct (x.2 <? y.2); [|done]. rewrite IH. apply Permutation_swap.
Qed.

Lemma sort_by_count_reversed_perm l : sort_by_count_reversed l ≡ₚ l.
Proof.
  induction l as [|x l IH]; [done|]. simpl.
  rewrite insert_by_count_perm. by f_equiv.
Qed.

Lemma insert_by_count_sorted x l :
  StronglySorted count_ge l → StronglySorted count_ge (insert_by_count x l).
Proof.
  induction l as [|y l IH]; intros Hl; simpl.
  { repeat constructor. }
  apply StronglySorted_inv in Hl as [Hl Hy].
  destruct (Z.ltb_spec x.2 y.2) as [Hlt|Hge].
  - constructor; [by apply IH|].
    rewrite insert_by_count_perm. constructor; [|done].
    unfold count_ge. lia.
  - constructor; [by constructor|].
    constructor; [done|].
    eapply Forall_impl; [exact Hy|]. unfold count_ge. simpl. intros z. lia.
Qed.

Lemma sort_by_count_reversed_sorted l :
  StronglySorted count_ge (sort_by_count_reversed l).
Proof.
  induction l as [|x l IH]; [constructor|]. simpl. by apply insert_by_count_sorted.
Qed.

(** Stability: the entries of one count keep their order. *)
Lemma insert_by_count_stable (n : Z) x l :
  filter (λ p : handle * Z, p.2 = n) (insert_by_count x l)
  = filter (λ p : handle * Z, p.2 = n) (x :: l).
Proof.
  induction l as [|y l IH]; [done|]. simpl.
  destruct (Z.ltb_spec x.2 y.2) as [Hlt|Hge]; [|done].
  rewrite (filter_cons _ y), IH, !filter_cons.
  destruct (decide (y.2 = n)) as [Hy|Hy], (decide (x.2 = n)) as [Hx|Hx];
    try done; lia.
Qed.

Lemma sort_by_count_reversed_stable (n : Z) l :
  filter (λ p : handle * Z, p.2 = n) (sort_by_count_reversed l)
  = filter (λ p : handle * Z, p.2 = n) l.
Proof.
  induction l as [|x l IH]; [done|]. simpl.
  by rewrite insert_by_count_stable, !filter_cons, IH.
Qed.

Lemma StronglySorted_filter {A} (R : A → A → Prop) (P : A → Prop)
    `{∀ x, Decision (P x)} (l : list A) :
  StronglySorted R l → StronglySorted R (filter P l).
Proof.
  induction 1 as [|x l Hl IH Hx]; [constructor|].
  rewrite filter_cons. destruct (decide (P x)); [|done].
  constructor; [done|]. rewrite Forall_forall in Hx |- *.
  intros y Hy. apply list_elem_of_filter in Hy as [_ Hy]. by apply Hx.
Qed.

Lemma list_filter_comm {A} (P Q : A → Prop) `{∀ x, Decision (P x)}
    `{∀ x, Decision (Q x)} (l : list A) :
  filter P (filter Q l) = filter Q (filter P l).
Proof. rewrite !list_filter_filter. apply list_filter_iff. intros x. tauto. Qed.

Lemma print_rows (total : Z) (l : list (handle * Z)) (out : list printed) :
  for_each l (λ '(card, count),
    if count =? 0 then ret tt else print (WinChance card count total)) out
  = (Returned tt,
     out ++ ((λ p, WinChance p.1 p.2 total) <$> filter (λ p, p.2 ≠ 0) l)).
Proof.
  revert out. induction l as [|[card count] l IH]; intros out.
  { simpl. by rewrite app_nil_r. }
  cbn [for_each]. rewrite filter_cons. simpl.
  destruct (Z.eqb_spec count 0) as [->|Hne].
  - rewrite decide_False by (intros Hc; by apply Hc).
    unfold bind, ret. apply IH.
  - rewrite decide_True by done.
    unfold bind, print. rewrite IH. simpl. by rewrite <- app_assoc.
Qed.

(** The list of cards behind the rows [print_rankings] prints. *)
Lemma print_rankings_returned (cs : list Card) (points : list (handle * Z))
    (out : list printed) :
  (∀ p, p ∈ points → (p.1 < length cs)%nat) →
  print_rankings cs points out
  = if decide (sum_values points = 0)
    then (Returned false, out ++ [NoCardsMatched])
    else (Returned true,
          out ++ ResultsHeader ::
            ((λ p, WinChance p.1 p.2 (sum_values points)) <$>
               filter (λ p, p.2 ≠ 0)
                 (sort_by_count_reversed
                    (filter (λ p, amoeba_at cs p.1 = true) points)))).
Proof.
  intros Hin. unfold print_rankings.
  destruct (Z.eqb_spec (sum_values points) 0) as [Hz|Hnz].
  - by rewrite decide_True.
  - rewrite decide_False by done.
    unfold bind at 1. unfold print at 1.
    rewrite (bind_returned _ _ _ _ _ (amoeba_cards_of_returned cs points _ Hin)).
    unfold bind. rewrite print_rows. unfold ret. by rewrite <- app_assoc.
Qed.

Lemma ranked_cards_sorted_stable (cs : list Card) (points : list (handle * Z)) :
  let ranked :=
    filter (λ p, p.2 ≠ 0)
      (sort_by_count_reversed (filter (λ p, amoeba_at cs p.1 = true) points)) in
  StronglySorted count_ge ranked ∧
  (∀ n, filter (λ p, p.2 = n) ranked
        = filter (λ p, p.2 = n) (ranked_cards cs points)) ∧
  ranked ≡ₚ ranked_cards cs points.
Proof.
  intros ranked. unfold ranked, ranked_cards. split_and!.
  - apply StronglySorted_filter, sort_by_count_reversed_sorted.
  - intros n. rewrite list_filter_comm, sort_by_count_reversed_stable.
    rewrite !list_filter_filter. apply list_filter_iff. intros p. tauto.
  - rewrite sort_by_count_reversed_perm, list_filter_filter.
    erewrite list_filter_iff; [done|]. intros p. simpl. tauto.
Qed.

Lemma sum_values_perm l1 l2 : l1 ≡ₚ l2 → sum_values l1 = sum_values l2.
Proof.
  unfold sum_values. induction 1 as [|x l1 l2 _ IH|x y l|l1 l2 l3 _ IH1 _ IH2].
  - done.
  - rewrite !fmap_cons. cbn [foldr]. by rewrite IH.
  - rewrite !fmap_cons. cbn [foldr]. lia.
  - congruence.
Qed.

Lemma sum_values_filter (P : handle * Z → Prop) `{∀ p, Decision (P p)}
    (l : list (handle * Z)) :
  (∀ p, p ∈ l → ¬ P p → p.2 = 0) → sum_values (filter P l) = sum_values l.
Proof.
  unfold sum_values. induction l as [|x l IH]; intros Hz; [done|].
  rewrite filter_cons.
  assert (foldr Z.add 0 (filter P l).*2 = foldr Z.add 0 l.*2) as IH'.
  { apply IH. intros p Hp. apply Hz. by right. }
  destruct (decide (P x)) as [Hx|Hx]; rewrite !fmap_cons; cbn [foldr];
    rewrite IH'; [done|].
  rewrite (Hz x); [done | by left | done].
Qed.

Lemma sum_values_bound (l : list (handle * Z)) :
  Forall (λ p, 0 ≤ p.2) l → Forall (λ p, p.2 ≤ sum_values l) l ∧ 0 ≤ sum_values l.
Proof.
  unfold sum_values. induction 1 as [|x l Hx Hl [IH IH0]]; [by split|].
  rewrite fmap_cons. cbn [foldr]. split; [|lia]. constructor; [lia|].
  eapply Forall_impl; [exact IH|]. cbn beta. intros p. lia.
Qed.

(** X20. What [print_rankings] writes and returns, for a dict whose keys
    are cards and whose counts are not negative.  If the counts add up to
    0 it writes the one line that nothing matched and returns [False].
    Otherwise it returns [True] and writes the header and then one line
    per amoeba card with a count other than 0, and for no other card:
    by falling count, cards with equal counts in the order of the dict,
    every count above 0 and at most the total. *)
Theorem print_rankings_ranks (cs : list Card) (points : list (handle * Z))
    (out : list printed) :
  (∀ p, p ∈ points → (p.1 < length cs)%nat) →
  Forall (λ p, 0 ≤ p.2) points →
  (sum_values points = 0 →
     print_rankings cs points out = (Returned false, out ++ [NoCardsMatched])) ∧
  (sum_values points ≠ 0 →
     ∃ ranked,
       print_rankings cs points out
       = (Returned true,
          out ++ ResultsHeader ::
            ((λ p, WinChance p.1 p.2 (sum_values points)) <$> ranked)) ∧
       StronglySorted count_ge ranked ∧
       (∀ n, filter (λ p, p.2 = n) ranked
             = filter (λ p, p.2 = n) (ranked_cards cs points)) ∧
       ranked ≡ₚ ranked_cards cs points ∧
       Forall (λ p, 0 < p.2 ≤ sum_values points) ranked).
Proof.
  intros Hin Hpos. rewrite (print_rankings_returned cs points out Hin). split.
  - intros Hz. by rewrite decide_True.
  - intros Hnz. rewrite decide_False by done.
    destruct (ranked_cards_sorted_stable cs points) as (Hsorted & Hstable & Hperm).
    eexists. split; [reflexivity|]. split_and!; try done.
    rewrite Hperm. unfold ranked_cards.
    destruct (sum_values_bound points Hpos) as [Hle _].
    apply Forall_forall. intros p Hp. apply list_elem_of_filter in Hp as [[_ Hp0] Hp].
    rewrite Forall_forall in Hpos, Hle. specialize (Hpos p Hp). specialize (Hle p Hp).
    simpl in *. lia.
Qed.

Lemma dict_items_cons (h : handle) (l : list handle) (points : gmap handle Z) :
  dict_items (h :: l) points
  = match points !! h with
    | Some n => (h, n) :: dict_items l points
    | None => dict_items l points
    end.
Proof. unfold dict_items. simpl. by destruct (points !! h). Qed.

Lemma dict_items_skip (l : list handle) (points : gmap handle Z) (h : handle) :
  h ∉ l → dict_items l (delete h points) = dict_items l points.
Proof.
  induction l as [|h' l IH]; intros Hh; [done|].
  rewrite !dict_items_cons.
  rewrite lookup_delete_ne by (intros ->; apply Hh; by left).
  rewrite IH; [done|]. intros Hin. apply Hh. by right.
Qed.

Lemma sum_values_dict_items (l : list handle) :
  ∀ points : gmap handle Z,
    NoDup l → (∀ h, h ∈ l ↔ is_Some (points !! h)) →
    sum_values (dict_items l points) = sum_counts points.
Proof.
  induction l as [|h l IH]; intros points Hnd Hdom.
  - assert (points = ∅) as ->; [|done].
    apply map_empty. intros h. apply eq_None_not_Some. rewrite <- Hdom.
    intros Hin. inversion Hin.
  - apply NoDup_cons in Hnd as [Hh Hnd].
    destruct (proj1 (Hdom h) ltac:(by left)) as [n Hn].
    rewrite <- (insert_delete_id points h n Hn) at 2.
    rewrite sum_counts_insert_fresh by apply lookup_delete_eq.
    rewrite <- (IH (delete h points) Hnd).
    + rewrite dict_items_skip by done. rewrite dict_items_cons, Hn.
      unfold sum_values. by rewrite fmap_cons.
    + intros h'. rewrite lookup_delete_is_Some, <- Hdom. split.
      * intros Hin. split; [by intros ->|by right].
      * intros [Hne Hin]. inversion Hin; by subst.
Qed.

Lemma elem_of_dict_items (l : list handle) (points : gmap handle Z) (p : handle * Z) :
  p ∈ dict_items l points ↔ p.1 ∈ l ∧ points !! p.1 = Some p.2.
Proof.
  unfold dict_items. rewrite list_elem_of_omap. split.
  - intros (h & Hh & Hp). destruct (points !! h) as [n|] eqn:Hn; [|done].
    injection Hp as <-. by simpl.
  - intros [Hh Hp]. exists p.1. split; [done|]. rewrite Hp. by destruct p.
Qed.

Section RankingsAfterRun.
Context {RNG : Type} (randbelow : nat → RNG → nat * RNG).
Implicit Types w : World RNG.

(** X21. [main], from the run to the ranking: on the mapping [simulate]
    returns, [print_rankings] writes that nothing matched and returns
    [False] exactly when no trial ended in a match; otherwise it returns
    [True] and its lines show every card with a count other than 0, each
    once, by falling count, and the counts shown add up to the number of
    trials that ended in a match: the win chances are shares of one
    whole. *)
Theorem print_rankings_after_simulate w w' experiments (points : gmap handle Z)
    (out : list printed) :
  simulate randbelow (card_refs (card_store w)) experiments w = (Returned points, w') →
  ∃ new matched,
    trace w' = trace w ++ new ∧
    matched = matched_count (trial_results new) ∧
    (matched = 0 →
       print_rankings (card_store w')
         (dict_items (card_refs (card_store w)) points) out
       = (Returned false, out ++ [NoCardsMatched])) ∧
    (matched ≠ 0 →
       ∃ ranked,
         print_rankings (card_store w')
           (dict_items (card_refs (card_store w)) points) out
         = (Returned true,
            out ++ ResultsHeader :: ((λ p, WinChance p.1 p.2 matched) <$> ranked)) ∧
         StronglySorted count_ge ranked ∧
         NoDup ranked.*1 ∧
         (∀ h n, (h, n) ∈ ranked ↔ points !! h = Some n ∧ n ≠ 0) ∧
         sum_values ranked = matched).
Proof.
  intros Hrun. apply simulate_returned in Hrun as [_ Hrun].
  pose proof (trials_scores _ _ _ _ _ _ _ Hrun (scores_of_initial _))
    as (Hin & Hout & Hzero).
  apply trials_effects in Hrun as ((Hcs & _) & new & Htr & _ & Hsum).
  unfold card_refs in Hsum. rewrite initial_points_sum in Hsum.
  exists new, (matched_count (trial_results new)).
  split; [done|]. split; [done|].
  set (cs := card_store w) in *. rewrite Hcs.
  set (items := dict_items (card_refs cs) points).
  assert (∀ p, p ∈ items → (p.1 < length cs)%nat) as Hkeys.
  { intros p Hp. unfold items in Hp. apply elem_of_dict_items in Hp as [Hp _].
    unfold card_refs in Hp. apply elem_of_seq in Hp. lia. }
  assert (sum_values items = matched_count (trial_results new)) as Htotal.
  { unfold items. rewrite sum_values_dict_items; [lia | apply NoDup_seq |].
    intros h. unfold card_refs. rewrite elem_of_seq. split.
    - intros Hh. destruct (Hin h ltac:(lia)) as (n & -> & _). by eexists.
    - intros [n Hn]. destruct (decide (h < length cs)%nat); [lia|].
      rewrite Hout in Hn by lia. done. }
  assert (NoDup items.*1) as Hnd.
  { unfold items, card_refs. generalize 0%nat at 1. generalize (length cs).
    intros k. induction k as [|k IH]; intros i; [constructor|].
    cbn [seq]. rewrite dict_items_cons.
    destruct (points !! i) as [n|]; [|apply IH].
    rewrite fmap_cons. constructor; [|apply IH].
    intros Hi. apply list_elem_of_fmap in Hi as (p & Hp1 & Hp).
    apply elem_of_dict_items in Hp as [Hp _]. apply elem_of_seq in Hp.
    simpl in Hp1. lia. }
  rewrite (print_rankings_returned cs items out Hkeys), Htotal.
  split.
  - intros Hz. by rewrite decide_True.
  - intros Hnz. rewrite decide_False by done.
    destruct (ranked_cards_sorted_stable cs items) as (Hsorted & _ & Hperm).
    eexists. split; [reflexivity|]. split_and!; [done | | |].
    + rewrite Hperm. unfold ranked_cards.
      eapply sublist_NoDup; [exact Hnd|]. apply fmap_sublist, sublist_filter.
    + intros h n. rewrite Hperm. unfold ranked_cards, items.
      rewrite list_elem_of_filter, elem_of_dict_items. simpl. split.
      * intros [[_ Hn] [_ Hp]]. done.
      * intros [Hp Hn]. split_and!; try done.
        -- unfold amoeba_at.
           destruct (decide (h < length cs)%nat) as [Hlt|Hge];
             [|rewrite Hout in Hp by lia; done].
           destruct (lookup_lt_is_Some_2 cs h Hlt) as [c Hc]. rewrite Hc.
           destruct (kind c) eqn:Hk; try done;
             rewrite (Hzero h c Hc) in Hp by (intros t; congruence); congruence.
        -- unfold card_refs. apply elem_of_seq.
           destruct (decide (h < length cs)%nat) as [Hlt|Hge]; [lia|].
           rewrite Hout in Hp by lia. done.
    + rewrite (sum_values_perm _ _ Hperm). unfold ranked_cards.
      rewrite sum_values_filter; [done|].
      intros [h n] Hp Hnot. simpl in *.
      destruct (decide (n = 0)) as [|Hn]; [done|]. exfalso. apply Hnot.
      split; [|done]. unfold items in Hp.
      apply elem_of_dict_items in Hp as [Hh Hp]. simpl in *.
      unfold card_refs in Hh. apply elem_of_seq in Hh.
      destruct (lookup_lt_is_Some_2 cs h ltac:(lia)) as [c Hc].
      unfold amoeba_at. rewrite Hc.
      destruct (kind c) eqn:Hk; try done;
        rewrite (Hzero h c Hc) in Hp by (intros t; congruence); congruence.
Qed.
End RankingsAfterRun.

(** * main.py on the sample rings *)

Example sample_points_ranked :
  print_rankings ring_three_amoebas sample_points []
  = (Returned true,
     [ ResultsHeader; WinChance 2 5 9; WinChance 1 2 9; WinChance 4 2 9 ]).
Proof. reflexivity. Qed.

Lemma print_rankings_ranks_witness :
  (∀ p, p ∈ sample_points → (p.1 < length ring_three_amoebas)%nat) ∧
  Forall (λ p, 0 ≤ p.2) sample_points ∧
  (sum_values sample_points = 0 →
     print_rankings ring_three_amoebas sample_points []
     = (Returned false, [] ++ [NoCardsMatched])) ∧
  (sum_values sample_points ≠ 0 →
     ∃ ranked,
       print_rankings ring_three_amoebas sample_points []
       = (Returned true,
          [] ++ ResultsHeader ::
            ((λ p, WinChance p.1 p.2 (sum_values sample_points)) <$> ranked)) ∧
       StronglySorted count_ge ranked ∧
       (∀ n, filter (λ p, p.2 = n) ranked
             = filter (λ p, p.2 = n) (ranked_cards ring_three_amoebas sample_points)) ∧
       ranked ≡ₚ ranked_cards ring_three_amoebas sample_points ∧
       Forall (λ p, 0 < p.2 ≤ sum_values sample_points) ranked).
Proof.
  assert (∀ p, p ∈ sample_points → (p.1 < length ring_three_amoebas)%nat) as Hkeys.
  { intros p Hp. unfold sample_points in Hp.
    repeat (apply elem_of_cons in Hp as [->|Hp]; [simpl; lia|]).
    inversion Hp. }
  assert (Forall (λ p, 0 ≤ p.2) sample_points) as Hpos.
  { unfold sample_points. repeat (constructor; [simpl; lia|]). constructor. }
  split; [exact Hkeys|]. split; [exact Hpos|].
  exact (print_rankings_ranks ring_three_amoebas sample_points [] Hkeys Hpos).
Defined.

Lemma print_rankings_after_simulate_witness :
  let run := simulate lcg_randbelow (card_refs (card_store sample_world)) 40
               sample_world in
  let points := returned_value ∅ run.1 in
  run = (Returned points, run.2) ∧
  ∃ new matched,
    trace run.2 = trace sample_world ++ new ∧
    matched = matched_count (trial_results new) ∧
    (matched = 0 →
       print_rankings (card_store run.2)
         (dict_items (card_refs (card_store sample_world)) points) []
       = (Returned false, [] ++ [NoCardsMatched])) ∧
    (matched ≠ 0 →
       ∃ ranked,
         print_rankings (card_store run.2)
           (dict_items (card_refs (card_store sample_world)) points) []
         = (Returned true,
            [] ++ ResultsHeader :: ((λ p, WinChance p.1 p.2 matched) <$> ranked)) ∧
         StronglySorted count_ge ranked ∧
         NoDup ranked.*1 ∧
         (∀ h n, (h, n) ∈ ranked ↔ points !! h = Some n ∧ n ≠ 0) ∧
         sum_values ranked = matched).
Proof.
  intros run points.
  assert (run = (Returned points, run.2)) as Hrun by (vm_compute; reflexivity).
  split; [exact Hrun|].
  exact (print_rankings_after_simulate lcg_randbelow sample_world run.2 40
           points [] Hrun).
Defined.
